(** * security-dashboard: the aggregation pipeline of the compliance dashboard

    Shallow embedding of the four aggregation functions of the compliance
    dashboard ([processActivityData], [processGuardData],
    [processLocationCoverage], [calculateComplianceMetrics]), of the hourly
    aggregator of the other dashboard ([App.processActivityData]), and the
    properties of the specification that concern them; then of the date
    filter and the attendance summary of the data load ([loadData]) and of
    the other aggregation functions of [App.js] ([App.processLocationCoverage],
    [App.processAttendanceData], [App.processGuardStatistics],
    [App.calculatePerformanceMetrics], [App.processData]), with further
    properties of all of them.

    The aggregation functions that divide, or that use an object as a
    dictionary, are embedded twice.
    - [Section Dashboard] and [Module App] follow the text of the functions
      over exact numbers and dictionaries of own keys.  The properties of
      the counters, of the order of the output and of the range of the
      rates are proved there; they are about the entries of an output.
    - [Module Run] and [Module AppRun] follow the same text as the engine
      runs it: arithmetic in doubles ([Module Double]), [o[k]] finding the
      properties that every object inherits, and the [TypeError] that a
      callback throws on them.  The properties that say which output there
      is, or the value of a score, are proved there.
    The second embedding agrees with the first on the counters of every
    input on which it returns ([guardMetrics_outcome] and the like).

    Conventions of the embedding.
    - A decoded CSV row is a record of optional strings: [None] is a column
      that is absent from the row ([undefined] in the source).
    - Counters ([total++], [covered++], ...) are natural numbers: an array
      has fewer than [2^32] elements, so a counter is an integer that the
      doubles hold exactly.
    - Every other JavaScript number is a [number]: [NaN], the two infinities
      or a rational.  In the first embedding arithmetic on finite values is
      exact.  In the second every operation rounds its exact result to the
      nearest double, ties to even, with overflow to the infinities and the
      subnormal numbers ([Double.round]); the sign of zero is not modelled
      (no function of the pipeline divides by a computed zero other than
      [0 / 0]).
    - An object used as a dictionary ([guardMetrics], [locationMetrics]) is an
      association list of its own keys in insertion order; [Object_values]
      enumerates it the way the language does (array-index keys first,
      ascending, then the other keys in insertion order).  In the second
      embedding [lookup] also finds the names that the object inherits,
      given by a parameter [inherited] ([Host.inherited] for the names of
      [Object.prototype]).
    - A [Set] is a duplicate-free list in insertion order.
    - The host functions [new Date(s).getHours()], [parseInt] and
      [parseFloat] are parameters of the development, and so are the readers
      of the two columns that are no field of the row record ([User Name],
      [Login Date]).  [parseInt] gives the integer that the digits denote;
      where the code adds such integers they enter as their Number values
      ([Double.Number]).
    - The data load is modelled from the decoded rows on: fetching and
      decoding the two files are left out; of the failure path, the
      exception of an aggregation function is modelled ([Throws]). *)

From Stdlib Require Import Floats.
From Stdlib Require Import List String Ascii Bool Arith ZArith QArith Qround
  Qminmax Qabs Qpower.
From Stdlib Require Import Lia Lqa Permutation Sorted.
Import ListNotations.

Set Implicit Arguments.

(** ** JavaScript numbers *)

Module JS.

Inductive number : Type :=
| NaN
| PosInf
| NegInf
| Fin (q : Q).

Definition of_Z (z : Z) : number := Fin (inject_Z z).
Definition of_nat (n : nat) : number := of_Z (Z.of_nat n).

Definition isNaN (x : number) : bool :=
  match x with NaN => true | _ => false end.

(** Sign of a rational as a comparison with zero. *)
Definition Qsign (q : Q) : comparison := (q ?= 0)%Q.

Definition inf_of_sign (c : comparison) : number :=
  match c with Lt => NegInf | Gt => PosInf | Eq => NaN end.

Definition flip (c : comparison) : comparison := CompOpp c.

(** [x + y] *)
Definition add (x y : number) : number :=
  match x, y with
  | NaN, _ | _, NaN => NaN
  | PosInf, NegInf | NegInf, PosInf => NaN
  | PosInf, _ | _, PosInf => PosInf
  | NegInf, _ | _, NegInf => NegInf
  | Fin a, Fin b => Fin (a + b)
  end.

(** [x - y] *)
Definition sub (x y : number) : number :=
  match x, y with
  | NaN, _ | _, NaN => NaN
  | PosInf, PosInf | NegInf, NegInf => NaN
  | PosInf, _ | _, NegInf => PosInf
  | NegInf, _ | _, PosInf => NegInf
  | Fin a, Fin b => Fin (a - b)
  end.

(** [x * y] *)
Definition mul (x y : number) : number :=
  match x, y with
  | NaN, _ | _, NaN => NaN
  | Fin a, Fin b => Fin (a * b)
  | PosInf, PosInf | NegInf, NegInf => PosInf
  | PosInf, NegInf | NegInf, PosInf => NegInf
  | PosInf, Fin a | Fin a, PosInf => inf_of_sign (Qsign a)
  | NegInf, Fin a | Fin a, NegInf => inf_of_sign (flip (Qsign a))
  end.

(** [x / y]: a zero divisor gives [NaN] for [0 / 0] and an infinity
    otherwise. *)
Definition div (x y : number) : number :=
  match x, y with
  | NaN, _ | _, NaN => NaN
  | Fin a, Fin b =>
      if Qeq_bool b 0 then inf_of_sign (Qsign a) else Fin (a / b)
  | Fin _, (PosInf | NegInf) => Fin 0
  | (PosInf | NegInf), (PosInf | NegInf) => NaN
  | PosInf, Fin b => match Qsign b with Lt => NegInf | _ => PosInf end
  | NegInf, Fin b => match Qsign b with Lt => PosInf | _ => NegInf end
  end.

(** [x <= y], [x >= y], [x < y]: every comparison with [NaN] is false. *)
Definition le (x y : number) : bool :=
  match x, y with
  | NaN, _ | _, NaN => false
  | NegInf, _ | _, PosInf => true
  | PosInf, _ | _, NegInf => false
  | Fin a, Fin b => Qle_bool a b
  end.

Definition ge (x y : number) : bool := le y x.

Definition lt (x y : number) : bool :=
  match x, y with
  | NaN, _ | _, NaN => false
  | PosInf, _ | _, NegInf => false
  | NegInf, _ | _, PosInf => true
  | Fin a, Fin b => negb (Qle_bool b a)
  end.

(** [x === y] on numbers. *)
Definition strict_eq (x y : number) : bool :=
  match x, y with
  | Fin a, Fin b => Qeq_bool a b
  | PosInf, PosInf | NegInf, NegInf => true
  | _, _ => false
  end.

(** [Math.round]: the nearest integer, halves towards plus infinity. *)
Definition Math_round (x : number) : number :=
  match x with
  | Fin q => of_Z (Qfloor (q + (1 # 2)))
  | _ => x
  end.

(** [Math.min] of two arguments. *)
Definition Math_min (x y : number) : number :=
  match x, y with
  | NaN, _ | _, NaN => NaN
  | _, _ => if le x y then x else y
  end.

(** Truthiness of a cell: [undefined] and the empty string are falsy. *)
Definition truthy (v : option string) : bool :=
  match v with
  | Some s => negb (String.eqb s EmptyString)
  | None => false
  end.

(** [v === 'lit'] for a cell [v]. *)
Definition str_is (v : option string) (lit : string) : bool :=
  match v with
  | Some s => String.eqb s lit
  | None => false
  end.

(** [s.includes(p)] *)
Fixpoint includes (s p : string) : bool :=
  String.prefix p s ||
  match s with
  | EmptyString => false
  | String _ s' => includes s' p
  end.

End JS.

(** ** Doubles

    The arithmetic of the engine: every operation gives the double nearest
    to its exact result. *)

Module Double.

(** [2^e] for an integer [e] of either sign. *)
Definition pow2 (e : Z) : Q := 2 ^ e.

(** The exponent of a positive rational: the [e] with [2^e <= q < 2^(e+1)]. *)
Definition ilog2 (q : Q) : Z :=
  let d := (Z.log2 (Qnum q) - Z.log2 (Zpos (Qden q)))%Z in
  if Qle_bool (pow2 d) q then d else (d - 1)%Z.

(** The nearest integer, a tie going to the even one. *)
Definition nearest_even (q : Q) : Z :=
  let f := Qfloor q in
  match Qcompare (q - inject_Z f) (1 # 2) with
  | Lt => f
  | Gt => (f + 1)%Z
  | Eq => if Z.even f then f else (f + 1)%Z
  end.

(** The exponent of the unit in the last place of the doubles around [q]:
    53 significant bits, and the spacing of the subnormal numbers below
    [2^-1022]. *)
Definition quantum (q : Q) : Z := (Z.max (ilog2 (Qabs q)) (-1022) - 52)%Z.

(** The double nearest to [q], ties to even; an infinity from [2^1024] on. *)
Definition round (q : Q) : JS.number :=
  if Qeq_bool q 0 then JS.Fin 0 else
  let x := quantum q in
  let n := nearest_even (q / pow2 x) in
  let r := inject_Z n * pow2 x in
  if Qle_bool (pow2 1024) (Qabs r)
  then (if (0 <? n)%Z then JS.PosInf else JS.NegInf)
  else JS.Fin (Qred r).

Definition rounded (x : JS.number) : JS.number :=
  match x with JS.Fin q => round q | _ => x end.

(** [x + y], [x - y], [x * y] and [x / y] *)
Definition add (x y : JS.number) : JS.number := rounded (JS.add x y).
Definition sub (x y : JS.number) : JS.number := rounded (JS.sub x y).
Definition mul (x y : JS.number) : JS.number := rounded (JS.mul x y).
Definition div (x y : JS.number) : JS.number := rounded (JS.div x y).

(** The Number value of a mathematical integer. *)
Definition Number (z : Z) : JS.number := round (inject_Z z).

(** The value of a primitive float of the kernel, which computes in
    binary64: the operations above are compared with it below. *)
Definition of_float (f : float) : JS.number :=
  match Prim2SF f with
  | S754_zero _ => JS.Fin 0
  | S754_infinity s => if s then JS.NegInf else JS.PosInf
  | S754_nan => JS.NaN
  | S754_finite s m e =>
      JS.Fin (Qred (inject_Z (if s then Zneg m else Zpos m) * pow2 e))
  end.

End Double.

(** ** Objects used as dictionaries, sets and arrays *)

Module Obj.

Section Dict.
Variable V : Type.

(** An object with string keys: own properties in insertion order. *)
Definition t := list (string * V).

(** [o[k]] *)
Fixpoint get (o : t) (k : string) : option V :=
  match o with
  | [] => None
  | (k', v) :: o' => if String.eqb k' k then Some v else get o' k
  end.

(** [o[k] = v]: an existing key keeps its place, a new one goes last. *)
Fixpoint set (o : t) (k : string) (v : V) : t :=
  match o with
  | [] => [(k, v)]
  | (k', v') :: o' =>
      if String.eqb k' k then (k', v) :: o' else (k', v') :: set o' k v
  end.

Definition digit_of (c : ascii) : option N :=
  let n := N_of_ascii c in
  if ((48 <=? n) && (n <=? 57))%N then Some (n - 48)%N else None.

Fixpoint digits_value (s : string) (acc : N) : option N :=
  match s with
  | EmptyString => Some acc
  | String c s' =>
      match digit_of c with
      | Some d => digits_value s' (10 * acc + d)%N
      | None => None
      end
  end.

(** A key is an array index when it is the canonical decimal numeral of an
    integer below 2^32 - 1. *)
Definition array_index (k : string) : option N :=
  match k with
  | EmptyString => None
  | String c rest =>
      if Ascii.eqb c "0"%char then
        match rest with EmptyString => Some 0%N | _ => None end
      else
        match digits_value k 0 with
        | Some n => if (n <? 4294967295)%N then Some n else None
        | None => None
        end
  end.

Definition is_index (kv : string * V) : bool :=
  match array_index (fst kv) with Some _ => true | None => false end.

Fixpoint insert_index (i : N) (v : V) (l : list (N * V)) : list (N * V) :=
  match l with
  | [] => [(i, v)]
  | (j, w) :: l' =>
      if (i <=? j)%N then (i, v) :: l else (j, w) :: insert_index i v l'
  end.

Fixpoint index_entries (o : t) : list (N * V) :=
  match o with
  | [] => []
  | (k, v) :: o' =>
      match array_index k with
      | Some i => insert_index i v (index_entries o')
      | None => index_entries o'
      end
  end.

(** [Object.values(o)] *)
Definition Object_values (o : t) : list V :=
  map snd (index_entries o) ++
  map snd (filter (fun kv => negb (is_index kv)) o).
End Dict.

Section SetArr.
Variable A : Type.

(** [s.add(x)] on a [Set] whose elements are compared with [eqb]. *)
Definition Set_add (eqb : A -> A -> bool) (x : A) (s : list A) : list A :=
  if existsb (eqb x) s then s else s ++ [x].

(** The first element that satisfies [p] is replaced by its image under
    [f]: a mutation of the object that [find] returned. *)
Fixpoint update_first (p : A -> bool) (f : A -> A) (l : list A) : list A :=
  match l with
  | [] => []
  | x :: l' => if p x then f x :: l' else x :: update_first p f l'
  end.

(** The comparator's verdict "a does not come after b": a result that is
    negative, zero or [NaN] (which sorting reads as zero). *)
Definition cmp_le0 (c : JS.number) : bool :=
  match c with
  | JS.NaN => true
  | JS.NegInf => true
  | JS.PosInf => false
  | JS.Fin q => Qle_bool q 0
  end.

Fixpoint sort_insert (cmp : A -> A -> JS.number) (x : A) (l : list A)
  : list A :=
  match l with
  | [] => [x]
  | y :: l' =>
      if cmp_le0 (cmp x y) then x :: y :: l' else y :: sort_insert cmp x l'
  end.

(** [l.sort(cmp)]: the stable sort.  With a consistent comparator the
    result is the one the language fixes; with an inconsistent one (a
    comparator that returns [NaN]) the language leaves the order to the
    implementation, and only the multiset of elements is meaningful. *)
Fixpoint Array_sort (cmp : A -> A -> JS.number) (l : list A) : list A :=
  match l with
  | [] => []
  | x :: l' => sort_insert cmp x (Array_sort cmp l')
  end.
End SetArr.

Definition opt_string_eqb (a b : option string) : bool :=
  match a, b with
  | Some x, Some y => String.eqb x y
  | None, None => true
  | _, _ => false
  end.

End Obj.

(** ** Plain objects and exceptions *)

(** What [o[k]] finds on an object literal: an own property, a property
    that every object inherits, or nothing. *)
Inductive property (V : Type) : Type :=
| Own (v : V)
| Inherited
| Missing.
Arguments Inherited {V}.
Arguments Missing {V}.

Definition lookup (V : Type) (inherited : string -> bool) (o : Obj.t V)
  (k : string) : property V :=
  match Obj.get o k with
  | Some v => Own v
  | None => if inherited k then Inherited else Missing
  end.

(** The result of a call: a value, or a [TypeError] thrown. *)
Inductive outcome (A : Type) : Type :=
| Returns (a : A)
| Throws.
Arguments Throws {A}.

Definition bind (A B : Type) (x : outcome A) (f : A -> outcome B)
  : outcome B :=
  match x with
  | Returns a => f a
  | Throws => Throws
  end.

(** [l.forEach(step)] and [l.reduce(step, s)] with a callback that may
    throw. *)
Definition for_each (A S : Type) (step : S -> A -> outcome S) (l : list A)
  (s : S) : outcome S :=
  fold_left (fun acc a => bind acc (fun s' => step s' a)) l (Returns s).

(** ** Host functions on the dashboard's own formats

    Executable models of the three host functions on the plain formats of
    the CSV exports.  The theorems below hold for every choice of the host
    functions; these models serve to run the pipeline on concrete rows. *)

Module Host.

Definition is_digit (c : ascii) : bool :=
  let n := N_of_ascii c in ((48 <=? n) && (n <=? 57))%N.

Definition digit (c : ascii) : Z := Z.of_N (N_of_ascii c) - 48.

Definition is_space (c : ascii) : bool :=
  let n := N_of_ascii c in ((n =? 32) || ((9 <=? n) && (n <=? 13)))%N.

Fixpoint skip_space (s : string) : string :=
  match s with
  | String c s' => if is_space c then skip_space s' else s
  | EmptyString => s
  end.

(** Two decimal digits at the head of [s]. *)
Definition two_digits (s : string) : option (Z * string) :=
  match s with
  | String a (String b rest) =>
      if is_digit a && is_digit b then Some (10 * digit a + digit b, rest)%Z
      else None
  | _ => None
  end.

Definition expect (c : ascii) (s : string) : option string :=
  match s with
  | String d rest => if Ascii.eqb c d then Some rest else None
  | EmptyString => None
  end.

(** [new Date(s).getHours()] for a local timestamp [YYYY-MM-DDTHH:MM:SS]
    (a [T] or a blank between date and time, seconds optional); [None] is
    the [NaN] of an invalid date. *)
Definition getHours (s : string) : option Z :=
  match two_digits s with
  | Some (_, s1) =>
  match two_digits s1 with
  | Some (_, s2) =>
  match expect "-" s2 with
  | Some s3 =>
  match two_digits s3 with
  | Some (mo, s4) =>
  match expect "-" s4 with
  | Some s5 =>
  match two_digits s5 with
  | Some (d, String sep s6) =>
  match two_digits s6 with
  | Some (h, s7) =>
  match expect ":" s7 with
  | Some s8 =>
  match two_digits s8 with
  | Some (mi, rest) =>
      let tail_ok :=
        match rest with
        | EmptyString => true
        | String c r =>
            match two_digits r with
            | Some (sec, EmptyString) => Ascii.eqb c ":" && (sec <=? 59)%Z
            | _ => false
            end
        end in
      if (Ascii.eqb sep " " || Ascii.eqb sep "T")
         && (1 <=? mo)%Z && (mo <=? 12)%Z && (1 <=? d)%Z && (d <=? 31)%Z
         && (h <=? 23)%Z && (mi <=? 59)%Z && tail_ok
      then Some h else None
  | None => None end
  | None => None end
  | None => None end
  | _ => None end
  | None => None end
  | None => None end
  | None => None end
  | None => None end
  | None => None end.

Fixpoint decimal_prefix (s : string) (acc : Z) (seen : bool)
  : Z * bool * string :=
  match s with
  | String c s' =>
      if is_digit c then decimal_prefix s' (10 * acc + digit c)%Z true
      else (acc, seen, s)
  | EmptyString => (acc, seen, s)
  end.

Definition signed (s : string) : bool * string :=
  match s with
  | String c s' =>
      if Ascii.eqb c "-" then (true, s')
      else if Ascii.eqb c "+" then (false, s')
      else (false, s)
  | EmptyString => (false, s)
  end.

(** [parseInt(s)] on decimal numerals: leading blanks, a sign, then the
    longest run of digits; [None] is [NaN]. *)
Definition parseInt (s : string) : option Z :=
  let '(neg, body) := signed (skip_space s) in
  let '(v, seen, _) := decimal_prefix body 0 false in
  if seen then Some (if neg then - v else v)%Z else None.

Fixpoint fraction_prefix (s : string) (num : Z) (den : positive)
  : Z * positive :=
  match s with
  | String c s' =>
      if is_digit c then fraction_prefix s' (10 * num + digit c)%Z (10 * den)
      else (num, den)
  | EmptyString => (num, den)
  end.

(** [parseFloat(s)] on decimal numerals [digits.digits]. *)
Definition parseFloat (s : string) : JS.number :=
  let '(neg, body) := signed (skip_space s) in
  let '(v, seen, rest) := decimal_prefix body 0 false in
  let '(num, den, seen') :=
    match rest with
    | String c r =>
        if Ascii.eqb c "." then
          let '(n, d) := fraction_prefix r v 1 in
          (n, d, seen || match r with
                         | String c' _ => is_digit c'
                         | EmptyString => false
                         end)
        else (v, 1%positive, seen)
    | EmptyString => (v, 1%positive, seen)
    end in
  if seen' then JS.Fin (Qred ((if neg then - num else num)%Z # den))
  else JS.NaN.

(** The names that every object literal inherits from [Object.prototype]:
    [o[k]] of such a name is a function, or the prototype itself. *)
Definition inherited (k : string) : bool :=
  existsb (String.eqb k)
    ["constructor"; "hasOwnProperty"; "isPrototypeOf";
     "propertyIsEnumerable"; "toLocaleString"; "toString"; "valueOf";
     "__proto__"; "__defineGetter__"; "__defineSetter__";
     "__lookupGetter__"; "__lookupSetter__"]%string.

End Host.

(** ** Decoded rows *)

(** One row of either CSV export, keyed by the header names the code reads:
    ['Date/Time'], ['Time Accuracy'], ['Location Accuracy'],
    ['Service Number'], ['Full Name'], ['Post Name'], ['Late Hours'],
    ['Duty Hours'], ['Alert']. *)
Record row : Type := mkRow {
  Date_Time : option string;
  Time_Accuracy : option string;
  Location_Accuracy : option string;
  Service_Number : option string;
  Full_Name : option string;
  Post_Name : option string;
  Late_Hours : option string;
  Duty_Hours : option string;
  Alert : option string
}.

(** The content of a cell where the code has already found it truthy. *)
Definition text (v : option string) : string :=
  match v with Some s => s | None => EmptyString end.

(** The result of a host function that is an integer or [NaN]. *)
Definition int_or_NaN (h : option Z) : JS.number :=
  match h with Some z => JS.of_Z z | None => JS.NaN end.

Definition b2n (b : bool) : nat := if b then 1 else 0.

(** *** Hourly buckets *)

Record bucket : Type := mkBucket {
  hour : JS.number;
  total : nat;
  onTime : nat;
  locationAccurate : nat;
  delayed : nat;
  complianceRate : JS.number
}.

(** *** Guard profiles *)

Record guard : Type := mkGuard {
  id : string;
  name : string;
  shifts_total : nat;
  shifts_onTime : nat;
  shifts_late : nat;
  activities_total : nat;
  activities_onTime : nat;
  activities_locationAccurate : nat;
  coverage : list (option string);
  shiftHours : JS.number
}.

Record guard_metrics : Type := mkGuardMetrics {
  attendanceRate : JS.number;
  activityComplianceRate : JS.number;
  coverageCount : nat;
  performanceScore : JS.number
}.

Record guard_profile : Type := mkGuardProfile {
  profile_guard : guard;
  metrics : guard_metrics
}.

(** *** Location profiles *)

Record location : Type := mkLocation {
  loc_location : string;
  loc_shifts_total : nat;
  loc_shifts_covered : nat;
  loc_shifts_onTime : nat;
  loc_guards : list string;
  loc_shiftHours : JS.number
}.

(** [guardCount] is read as the [length] of a [Set], a property that a
    [Set] does not have: [None] is [undefined]. *)
Record location_metrics : Type := mkLocationMetrics {
  coverageRate : JS.number;
  punctualityRate : JS.number;
  guardCount : option JS.number;
  averageShiftHours : JS.number
}.

Record location_profile : Type := mkLocationProfile {
  profile_location : location;
  loc_metrics : location_metrics
}.

(** [ToNumber] of a property that may be [undefined]. *)
Definition to_number (v : option JS.number) : JS.number :=
  match v with Some n => n | None => JS.NaN end.

(** *** Compliance results *)

Record location_compliance : Type := mkLocationCompliance {
  lc_location : string;
  lc_coverageCompliance : nat;
  lc_punctualityCompliance : nat;
  lc_staffingCompliance : nat;
  lc_complianceScore : JS.number
}.

Record guard_compliance : Type := mkGuardCompliance {
  gc_name : string;
  gc_attendanceCompliance : nat;
  gc_activityCompliance : nat;
  gc_coverageCompliance : nat;
  gc_complianceScore : JS.number
}.

Record compliance : Type := mkCompliance {
  overall : JS.number;
  byLocation : list location_compliance;
  byGuard : list guard_compliance
}.

(** ** The aggregation functions

    The text of the functions over exact numbers and dictionaries of own
    keys. *)

Section Dashboard.

(** [new Date(s).getHours()]: an integer hour, or [None] for the [NaN] of
    an invalid date. *)
Variable Date_getHours : string -> option Z.
(** [parseInt(s)]: an integer, or [None] for [NaN]. *)
Variable parseInt : string -> option Z.
(** [parseFloat(s)] *)
Variable parseFloat : string -> JS.number.

(** [cell && parseInt(cell) <= 20] *)
Definition within_20 (cell : option string) : bool :=
  JS.truthy cell && JS.le (int_or_NaN (parseInt (text cell))) (JS.of_Z 20).

(** The [metrics] object of one activity row. *)
Definition row_onTime (curr : row) : nat :=
  b2n (JS.str_is (Time_Accuracy curr) "On Time").
Definition row_locationAccurate (curr : row) : nat :=
  b2n (within_20 (Location_Accuracy curr)).
Definition row_delayed (curr : row) : nat :=
  b2n match Time_Accuracy curr with
      | Some s => JS.includes s "Delay"
      | None => false
      end.

Definition rate2 (a b t : nat) : JS.number :=
  JS.Math_round
    (JS.mul (JS.div (JS.of_nat (a + b)) (JS.of_nat (2 * t))) (JS.of_Z 100)).

(** The bucket that a row opens, and the additions that a row makes to
    the bucket [existing] of its hour. *)
Definition new_bucket (h : JS.number) (curr : row) : bucket :=
  mkBucket h 1 (row_onTime curr) (row_locationAccurate curr)
    (row_delayed curr)
    (rate2 (row_onTime curr) (row_locationAccurate curr) 1).

Definition add_to_bucket (curr : row) (existing : bucket) : bucket :=
  mkBucket existing.(hour)
    (existing.(total) + 1)
    (existing.(onTime) + row_onTime curr)
    (existing.(locationAccurate) + row_locationAccurate curr)
    (existing.(delayed) + row_delayed curr)
    existing.(complianceRate).

(** The callback of [data.reduce] in [processActivityData]. *)
Definition hourly_step (acc : list bucket) (curr : row) : list bucket :=
  if negb (JS.truthy (Date_Time curr)) then acc else
  let h := int_or_NaN (Date_getHours (text (Date_Time curr))) in
  let same := fun item : bucket => JS.strict_eq item.(hour) h in
  match find same acc with
  | Some _ => Obj.update_first same (add_to_bucket curr) acc
  | None => acc ++ [new_bucket h curr]
  end.

Definition hourlyData (data : list row) : list bucket :=
  fold_left hourly_step data [].

Definition processActivityData (data : list row) : list bucket :=
  Obj.Array_sort (fun a b => JS.sub a.(hour) b.(hour)) (hourlyData data).

(** *** [processGuardData] *)

Definition new_guard (guardId : string) (record : row) : guard :=
  mkGuard guardId (text (Full_Name record)) 0 0 0 0 0 0 [] (JS.of_Z 0).

(** [shiftHours += hours] when the cell is truthy and parses. *)
Definition add_duty_hours (acc : JS.number) (record : row) : JS.number :=
  if JS.truthy (Duty_Hours record) then
    let hours := parseFloat (text (Duty_Hours record)) in
    if negb (JS.isNaN hours) then JS.add acc hours else acc
  else acc.

(** The updates that one attendance row makes to the guard's entry. *)
Definition guard_shift (g : guard) (record : row) : guard :=
  let on_time := JS.str_is (Late_Hours record) "On-time" in
  mkGuard g.(id) g.(name)
    (g.(shifts_total) + 1)
    (g.(shifts_onTime) + b2n on_time)
    (g.(shifts_late) + b2n (negb on_time))
    g.(activities_total) g.(activities_onTime)
    g.(activities_locationAccurate)
    (Obj.Set_add Obj.opt_string_eqb (Post_Name record) g.(coverage))
    (add_duty_hours g.(shiftHours) record).

(** The callback of [attendanceData.forEach]. *)
Definition attendance_step (guardMetrics : Obj.t guard) (record : row)
  : Obj.t guard :=
  if negb (JS.truthy (Full_Name record))
     || negb (JS.truthy (Service_Number record))
  then guardMetrics else
  let guardId := text (Service_Number record) in
  let g :=
    match Obj.get guardMetrics guardId with
    | Some g => g
    | None => new_guard guardId record
    end in
  Obj.set guardMetrics guardId (guard_shift g record).

(** [accuracy] parsed, not [NaN] and at most 20. *)
Definition accurate (record : row) : bool :=
  JS.truthy (Location_Accuracy record) &&
  (let accuracy := int_or_NaN (parseInt (text (Location_Accuracy record))) in
   negb (JS.isNaN accuracy) && JS.le accuracy (JS.of_Z 20)).

(** The updates that one activity row makes to the guard's entry. *)
Definition guard_activity (g : guard) (record : row) : guard :=
  mkGuard g.(id) g.(name)
    g.(shifts_total) g.(shifts_onTime) g.(shifts_late)
    (g.(activities_total) + 1)
    (g.(activities_onTime)
     + b2n (JS.str_is (Time_Accuracy record) "On Time"))
    (g.(activities_locationAccurate) + b2n (accurate record))
    g.(coverage) g.(shiftHours).

(** The callback of [activityData.forEach]. *)
Definition activity_step (guardMetrics : Obj.t guard) (record : row)
  : Obj.t guard :=
  let guardId := Service_Number record in
  if negb (JS.truthy guardId) then guardMetrics else
  match Obj.get guardMetrics (text guardId) with
  | None => guardMetrics
  | Some g => Obj.set guardMetrics (text guardId) (guard_activity g record)
  end.

Definition attendanceScore (g : guard) : JS.number :=
  if 0 <? g.(shifts_total) then
    JS.mul (JS.div (JS.of_nat g.(shifts_onTime)) (JS.of_nat g.(shifts_total)))
      (JS.of_Z 30)
  else JS.of_Z 0.

Definition activityScore (g : guard) : JS.number :=
  if 0 <? g.(activities_total) then
    JS.mul
      (JS.div
         (JS.of_nat (g.(activities_onTime) + g.(activities_locationAccurate)))
         (JS.of_nat (2 * g.(activities_total))))
      (JS.of_Z 40)
  else JS.of_Z 0.

Definition coverageScore (g : guard) : JS.number :=
  JS.Math_min
    (JS.mul (JS.div (JS.of_nat (List.length g.(coverage))) (JS.of_Z 3))
       (JS.of_Z 30))
    (JS.of_Z 30).

(** The callback of the final [map] in [processGuardData]. *)
Definition guard_result (g : guard) : guard_profile :=
  mkGuardProfile g
    (mkGuardMetrics
       (if 0 <? g.(shifts_total) then
          JS.Math_round
            (JS.mul
               (JS.div (JS.of_nat g.(shifts_onTime))
                  (JS.of_nat g.(shifts_total)))
               (JS.of_Z 100))
        else JS.of_Z 0)
       (if 0 <? g.(activities_total) then
          rate2 g.(activities_onTime) g.(activities_locationAccurate)
            g.(activities_total)
        else JS.of_Z 0)
       (List.length g.(coverage))
       (JS.Math_round
          (JS.add (JS.add (attendanceScore g) (activityScore g))
             (coverageScore g)))).

Definition guardMetrics_of (activityData attendanceData : list row)
  : Obj.t guard :=
  fold_left activity_step activityData
    (fold_left attendance_step attendanceData []).

Definition processGuardData (activityData attendanceData : list row)
  : list guard_profile :=
  Obj.Array_sort
    (fun a b =>
       JS.sub b.(metrics).(performanceScore) a.(metrics).(performanceScore))
    (map guard_result
       (Obj.Object_values (guardMetrics_of activityData attendanceData))).

(** *** [processLocationCoverage] *)

Definition new_location (l : string) : location :=
  mkLocation l 0 0 0 [] (JS.of_Z 0).

(** The updates that one attendance row makes to its location's entry. *)
Definition location_shift (m : location) (record : row) : location :=
  if JS.truthy (Full_Name record) then
    mkLocation m.(loc_location)
      (m.(loc_shifts_total) + 1)
      (m.(loc_shifts_covered) + 1)
      (m.(loc_shifts_onTime)
       + b2n (JS.str_is (Late_Hours record) "On-time"))
      (Obj.Set_add String.eqb (text (Full_Name record)) m.(loc_guards))
      (add_duty_hours m.(loc_shiftHours) record)
  else
    mkLocation m.(loc_location)
      (m.(loc_shifts_total) + 1)
      m.(loc_shifts_covered) m.(loc_shifts_onTime)
      m.(loc_guards) m.(loc_shiftHours).

(** The callback of [data.forEach] in [processLocationCoverage]. *)
Definition location_step (locationMetrics : Obj.t location) (record : row)
  : Obj.t location :=
  if negb (JS.truthy (Post_Name record)) then locationMetrics else
  let l := text (Post_Name record) in
  let m :=
    match Obj.get locationMetrics l with
    | Some m => m
    | None => new_location l
    end in
  Obj.set locationMetrics l (location_shift m record).

(** The callback of the final [map] in [processLocationCoverage]. *)
Definition location_result (l : location) : location_profile :=
  mkLocationProfile l
    (mkLocationMetrics
       (JS.Math_round
          (JS.mul
             (JS.div (JS.of_nat l.(loc_shifts_covered))
                (JS.of_nat l.(loc_shifts_total)))
             (JS.of_Z 100)))
       (if 0 <? l.(loc_shifts_covered) then
          JS.Math_round
            (JS.mul
               (JS.div (JS.of_nat l.(loc_shifts_onTime))
                  (JS.of_nat l.(loc_shifts_covered)))
               (JS.of_Z 100))
        else JS.of_Z 0)
       None
       (if 0 <? l.(loc_shifts_covered) then
          JS.div
            (JS.Math_round
               (JS.mul
                  (JS.div l.(loc_shiftHours)
                     (JS.of_nat l.(loc_shifts_covered)))
                  (JS.of_Z 10)))
            (JS.of_Z 10)
        else JS.of_Z 0)).

Definition locationMetrics_of (data : list row) : Obj.t location :=
  fold_left location_step data [].

Definition processLocationCoverage (data : list row)
  : list location_profile :=
  Obj.Array_sort
    (fun a b =>
       JS.sub b.(loc_metrics).(coverageRate) a.(loc_metrics).(coverageRate))
    (map location_result (Obj.Object_values (locationMetrics_of data))).

(** *** [calculateComplianceMetrics] *)

Record overall_metrics : Type := mkOverall {
  totalChecks : nat;
  passedChecks : nat
}.

Definition score3 (a b c : nat) : JS.number :=
  JS.Math_round
    (JS.mul (JS.div (JS.of_nat (a + b + c)) (JS.of_Z 3)) (JS.of_Z 100)).

(** The callback of [locations.map]. *)
Definition location_checks (l : location_profile) : location_compliance :=
  let coverageCompliance :=
    b2n (JS.ge l.(loc_metrics).(coverageRate) (JS.of_Z 95)) in
  let punctualityCompliance :=
    b2n (JS.ge l.(loc_metrics).(punctualityRate) (JS.of_Z 90)) in
  let staffingCompliance :=
    b2n (JS.ge (to_number l.(loc_metrics).(guardCount)) (JS.of_Z 2)) in
  mkLocationCompliance l.(profile_location).(loc_location)
    coverageCompliance punctualityCompliance staffingCompliance
    (score3 coverageCompliance punctualityCompliance staffingCompliance).

(** The callback of [guards.map]. *)
Definition guard_checks (g : guard_profile) : guard_compliance :=
  let attendanceCompliance :=
    b2n (JS.ge g.(metrics).(attendanceRate) (JS.of_Z 95)) in
  let activityCompliance :=
    b2n (JS.ge g.(metrics).(activityComplianceRate) (JS.of_Z 90)) in
  let coverageCompliance :=
    b2n (JS.ge (JS.of_nat g.(metrics).(coverageCount)) (JS.of_Z 1)) in
  mkGuardCompliance g.(profile_guard).(name)
    attendanceCompliance activityCompliance coverageCompliance
    (score3 attendanceCompliance activityCompliance coverageCompliance).

(** The two updates of [overallMetrics] that each callback performs. *)
Definition tally (m : overall_metrics) (passed : nat) : overall_metrics :=
  mkOverall (m.(totalChecks) + 3) (m.(passedChecks) + passed).

Definition tally_location (m : overall_metrics) (c : location_compliance)
  : overall_metrics :=
  tally m (c.(lc_coverageCompliance) + c.(lc_punctualityCompliance)
           + c.(lc_staffingCompliance)).

Definition tally_guard (m : overall_metrics) (c : guard_compliance)
  : overall_metrics :=
  tally m (c.(gc_attendanceCompliance) + c.(gc_activityCompliance)
           + c.(gc_coverageCompliance)).

Definition calculateComplianceMetrics (activities : list bucket)
  (locations : list location_profile) (guards : list guard_profile)
  : compliance :=
  let locationCompliance := map location_checks locations in
  let guardCompliance := map guard_checks guards in
  let overallMetrics :=
    fold_left tally_guard guardCompliance
      (fold_left tally_location locationCompliance (mkOverall 0 0)) in
  mkCompliance
    (JS.Math_round
       (JS.mul
          (JS.div (JS.of_nat overallMetrics.(passedChecks))
             (JS.of_nat overallMetrics.(totalChecks)))
          (JS.of_Z 100)))
    locationCompliance guardCompliance.

(** The aggregation part of [loadData], on rows already filtered by
    date. *)
Definition dashboard (activityData attendanceData : list row) : compliance :=
  calculateComplianceMetrics
    (processActivityData activityData)
    (processLocationCoverage attendanceData)
    (processGuardData activityData attendanceData).

End Dashboard.

(** ** The hourly aggregator of [App.js]

    The other dashboard of the repository groups the activity rows by hour
    in the same way and counts alerts instead of punctuality. *)

Module App.

Record bucket : Type := mkBucket {
  hour : JS.number;
  count : nat;
  alerts : nat;
  criticalAlerts : nat
}.

Section Hourly.

Variable Date_getHours : string -> option Z.

Definition new_bucket (h : JS.number) (curr : row) : bucket :=
  mkBucket h 1 (b2n (JS.truthy (Alert curr)))
    (b2n (JS.str_is (Alert curr) "Critical")).

Definition add_to_bucket (curr : row) (existing : bucket) : bucket :=
  mkBucket existing.(hour)
    (existing.(count) + 1)
    (existing.(alerts) + b2n (JS.truthy (Alert curr)))
    (if JS.str_is (Alert curr) "Critical"
     then existing.(criticalAlerts) + 1
     else existing.(criticalAlerts)).

(** The callback of [data.reduce] in [processActivityData]. *)
Definition hourly_step (acc : list bucket) (curr : row) : list bucket :=
  if negb (JS.truthy (Date_Time curr)) then acc else
  let h := int_or_NaN (Date_getHours (text (Date_Time curr))) in
  let same := fun item : bucket => JS.strict_eq item.(hour) h in
  match find same acc with
  | Some _ => Obj.update_first same (add_to_bucket curr) acc
  | None => acc ++ [new_bucket h curr]
  end.

Definition hourlyData (data : list row) : list bucket :=
  fold_left hourly_step data [].

Definition processActivityData (data : list row) : list bucket :=
  Obj.Array_sort (fun a b => JS.sub a.(hour) b.(hour)) (hourlyData data).

End Hourly.

(** *** The other aggregation functions of [App.js] *)

(** An entry of the object that [processLocationCoverage] builds. *)
Record location : Type := mkLocation {
  location_total : nat;
  location_covered : nat;
  location_alerts : nat;
  location_guards : list string
}.

(** The result of [processAttendanceData]; [late] is computed by a
    subtraction. *)
Record attendance : Type := mkAttendance {
  totalShifts : nat;
  attendance_onTime : nat;
  attendance_late : Z;
  locationCoverage : Obj.t location;
  avgCoverage : JS.number
}.

(** An entry of [guardStats] while the activity rows are read, and a
    finished entry. *)
Record guard : Type := mkGuard {
  guard_id : string;
  guard_name : option string;
  totalActivities : nat;
  locationAccuracy : list Z;
  onTimeActivities : nat;
  lateActivities : nat;
  guard_alerts : nat;
  guard_criticalAlerts : nat;
  posts : list (option string);
  lastActivity : option string
}.

Record guard_statistics : Type := mkGuardStatistics {
  stat_guard : guard;
  avgLocationAccuracy : JS.number;
  punctualityRate : JS.number;
  alertRate : JS.number;
  status : string
}.

Record performance_metrics : Type := mkPerformanceMetrics {
  overallAccuracy : JS.number;
  metrics_criticalAlerts : nat;
  totalAlerts : nat;
  coverageScore : JS.number
}.

Section Statistics.

Variable parseInt : string -> option Z.
(** The ['User Name'] cell of a row. *)
Variable User_Name : row -> option string.

Definition new_location : location := mkLocation 0 0 0 [].

(** The updates that one attendance row makes to its location's entry. *)
Definition location_shift (m : location) (curr : row) : location :=
  mkLocation
    (m.(location_total) + 1)
    (if JS.truthy (Full_Name curr) then m.(location_covered) + 1
     else m.(location_covered))
    (if JS.truthy (Alert curr) then m.(location_alerts) + 1
     else m.(location_alerts))
    (if JS.truthy (Full_Name curr)
     then Obj.Set_add String.eqb (text (Full_Name curr)) m.(location_guards)
     else m.(location_guards)).

(** The callback of [data.reduce] in [processLocationCoverage]. *)
Definition location_step (acc : Obj.t location) (curr : row)
  : Obj.t location :=
  if negb (JS.truthy (Post_Name curr)) then acc else
  let l := text (Post_Name curr) in
  let m :=
    match Obj.get acc l with
    | Some m => m
    | None => new_location
    end in
  Obj.set acc l (location_shift m curr).

Definition processLocationCoverage (data : list row) : Obj.t location :=
  fold_left location_step data [].

(** [loc.covered / loc.total] added to the running sum. *)
Definition add_coverage (acc : JS.number) (loc : location) : JS.number :=
  JS.add acc
    (JS.div (JS.of_nat loc.(location_covered))
       (JS.of_nat loc.(location_total))).

Definition processAttendanceData (data : list row) : attendance :=
  let locationCoverage := processLocationCoverage data in
  let totalShifts := List.length data in
  let onTime :=
    List.length (filter (fun d => JS.str_is (Late_Hours d) "On-time") data) in
  mkAttendance totalShifts onTime
    (Z.of_nat totalShifts - Z.of_nat onTime)
    locationCoverage
    (JS.mul
       (JS.div
          (fold_left add_coverage (Obj.Object_values locationCoverage)
             (JS.of_Z 0))
          (JS.of_nat (List.length locationCoverage)))
       (JS.of_Z 100)).

Definition new_guard (guardId : string) (record : row) : guard :=
  mkGuard guardId (User_Name record) 0 [] 0 0 0 0 [] None.

(** The updates that one activity row makes to the guard's entry. *)
Definition guard_activity (g : guard) (record : row) : guard :=
  let on_time := JS.str_is (Time_Accuracy record) "On Time" in
  mkGuard g.(guard_id) g.(guard_name)
    (g.(totalActivities) + 1)
    (if JS.truthy (Location_Accuracy record) then
       match parseInt (text (Location_Accuracy record)) with
       | Some accuracy => g.(locationAccuracy) ++ [accuracy]
       | None => g.(locationAccuracy)
       end
     else g.(locationAccuracy))
    (g.(onTimeActivities) + b2n on_time)
    (g.(lateActivities) + b2n (negb on_time))
    (if JS.truthy (Alert record) then g.(guard_alerts) + 1
     else g.(guard_alerts))
    (if JS.truthy (Alert record) && JS.str_is (Alert record) "Critical"
     then g.(guard_criticalAlerts) + 1
     else g.(guard_criticalAlerts))
    (Obj.Set_add Obj.opt_string_eqb (Post_Name record) g.(posts))
    (Date_Time record).

(** The callback of [activityData.forEach] in [processGuardStatistics]. *)
Definition guard_step (guardStats : Obj.t guard) (record : row)
  : Obj.t guard :=
  if negb (JS.truthy (Service_Number record)) then guardStats else
  let guardId := text (Service_Number record) in
  let g :=
    match Obj.get guardStats guardId with
    | Some g => g
    | None => new_guard guardId record
    end in
  Obj.set guardStats guardId (guard_activity g record).

(** The callback of the final [map] in [processGuardStatistics]. *)
Definition guard_result (g : guard) : guard_statistics :=
  mkGuardStatistics g
    (match g.(locationAccuracy) with
     | [] => JS.of_Z 0
     | _ :: _ =>
         JS.Math_round
           (JS.div (JS.of_Z (fold_left Z.add g.(locationAccuracy) 0%Z))
              (JS.of_nat (List.length g.(locationAccuracy))))
     end)
    (JS.Math_round
       (JS.mul
          (JS.div (JS.of_nat g.(onTimeActivities))
             (JS.of_nat (g.(onTimeActivities) + g.(lateActivities))))
          (JS.of_Z 100)))
    (JS.Math_round
       (JS.mul
          (JS.div (JS.of_nat g.(guard_alerts))
             (JS.of_nat g.(totalActivities)))
          (JS.of_Z 100)))
    (if 0 <? g.(guard_criticalAlerts) then "warning" else "normal").

Definition guardStats_of (activityData : list row) : Obj.t guard :=
  fold_left guard_step activityData [].

Definition processGuardStatistics (activityData attendanceData : list row)
  : list guard_statistics :=
  Obj.Array_sort
    (fun a b => JS.sub b.(punctualityRate) a.(punctualityRate))
    (map guard_result (Obj.Object_values (guardStats_of activityData))).

(** The argument of [setPerformanceMetrics] in
    [calculatePerformanceMetrics]. *)
Definition calculatePerformanceMetrics (activityData : list row)
  (attendanceData : attendance) (guardStats : list guard_statistics)
  : performance_metrics :=
  let locationAccuracies := map avgLocationAccuracy guardStats in
  let avgAccuracy :=
    JS.div (fold_left JS.add locationAccuracies (JS.of_Z 0))
      (JS.of_nat (List.length locationAccuracies)) in
  let totalAlerts :=
    fold_left (fun acc curr => (acc + b2n (JS.truthy (Alert curr)))%nat)
      activityData 0%nat in
  let criticalAlerts :=
    fold_left
      (fun acc curr => (acc + b2n (JS.str_is (Alert curr) "Critical"))%nat)
      activityData 0%nat in
  mkPerformanceMetrics (JS.Math_round avgAccuracy) criticalAlerts totalAlerts
    (JS.Math_round attendanceData.(avgCoverage)).

(** The percentage that the coverage chart and the location table show for
    an entry: [Math.round((data.covered / data.total) * 100)]. *)
Definition coverage_percent (data : location) : JS.number :=
  JS.Math_round
    (JS.mul
       (JS.div (JS.of_nat data.(location_covered))
          (JS.of_nat data.(location_total)))
       (JS.of_Z 100)).


Variable Date_getHours : string -> option Z.


End Statistics.

End App.

(** ** The data load of the compliance dashboard *)

(** The tile "On-Time Rate" of both dashboards:
    [Math.round((attendanceData.onTime / attendanceData.totalShifts) * 100)]. *)
Definition onTime_rate (onTime totalShifts : nat) : JS.number :=
  JS.Math_round
    (JS.mul (JS.div (JS.of_nat onTime) (JS.of_nat totalShifts)) (JS.of_Z 100)).

(** The test of the date filter: [record[column]?.includes(selectedDate)]. *)
Definition on_date (column : row -> option string) (selectedDate : string)
  (record : row) : bool :=
  match column record with
  | Some s => JS.includes s selectedDate
  | None => false
  end.

Record attendance_summary : Type := mkAttendanceSummary {
  summary_totalShifts : nat;
  summary_onTime : nat;
  summary_late : nat;
  summary_locationCoverage : list location_profile
}.

(** The four pieces of state that [loadData] sets when both files have been
    fetched and decoded. *)
Record dashboard_state : Type := mkDashboardState {
  state_activityData : list bucket;
  state_attendanceData : attendance_summary;
  state_guardStats : list guard_profile;
  state_complianceMetrics : compliance
}.

Section Load.

Variable Date_getHours : string -> option Z.
Variable parseInt : string -> option Z.
Variable parseFloat : string -> JS.number.
(** The ['Login Date'] cell of a row. *)
Variable Login_Date : row -> option string.

Definition loadData (selectedDate : string)
  (activityResults attendanceResults : list row) : dashboard_state :=
  let filteredActivityData :=
    filter (on_date Date_Time selectedDate) activityResults in
  let filteredAttendanceData :=
    filter (on_date Login_Date selectedDate) attendanceResults in
  let processedActivityData :=
    processActivityData Date_getHours parseInt filteredActivityData in
  let locationCoverage :=
    processLocationCoverage parseFloat filteredAttendanceData in
  let guardStatistics :=
    processGuardData parseInt parseFloat
      filteredActivityData filteredAttendanceData in
  mkDashboardState processedActivityData
    (mkAttendanceSummary
       (List.length filteredAttendanceData)
       (List.length
          (filter (fun d => JS.str_is (Late_Hours d) "On-time")
             filteredAttendanceData))
       (List.length
          (filter (fun d => negb (JS.str_is (Late_Hours d) "On-time"))
             filteredAttendanceData))
       locationCoverage)
    guardStatistics
    (calculateComplianceMetrics processedActivityData locationCoverage
       guardStatistics).

End Load.

(** ** The aggregation functions as they run

    [processGuardData], [processLocationCoverage] and
    [calculateComplianceMetrics] with the arithmetic of doubles, and with
    the exception that the callbacks throw on a key that names an
    inherited property. *)

Module Run.

Section Aggregation.

Variable inherited : string -> bool.
Variable Date_getHours : string -> option Z.
Variable parseInt : string -> option Z.
Variable parseFloat : string -> JS.number.

(** [shiftHours += hours] when the cell is truthy and parses. *)
Definition add_duty_hours (acc : JS.number) (record : row) : JS.number :=
  if JS.truthy (Duty_Hours record) then
    let hours := parseFloat (text (Duty_Hours record)) in
    if negb (JS.isNaN hours) then Double.add acc hours else acc
  else acc.

Definition guard_shift (g : guard) (record : row) : guard :=
  let on_time := JS.str_is (Late_Hours record) "On-time" in
  mkGuard g.(id) g.(name)
    (g.(shifts_total) + 1)
    (g.(shifts_onTime) + b2n on_time)
    (g.(shifts_late) + b2n (negb on_time))
    g.(activities_total) g.(activities_onTime)
    g.(activities_locationAccurate)
    (Obj.Set_add Obj.opt_string_eqb (Post_Name record) g.(coverage))
    (add_duty_hours g.(shiftHours) record).

(** The callback of [attendanceData.forEach].  On a service number that
    names an inherited property the test [!guardMetrics[guardId]] finds
    the inherited value, no entry is created, and
    [guardMetrics[guardId].shifts.total++] throws. *)
Definition attendance_step (guardMetrics : Obj.t guard) (record : row)
  : outcome (Obj.t guard) :=
  if negb (JS.truthy (Full_Name record))
     || negb (JS.truthy (Service_Number record))
  then Returns guardMetrics else
  let guardId := text (Service_Number record) in
  match lookup inherited guardMetrics guardId with
  | Own g => Returns (Obj.set guardMetrics guardId (guard_shift g record))
  | Missing =>
      Returns (Obj.set guardMetrics guardId
                 (guard_shift (new_guard guardId record) record))
  | Inherited => Throws
  end.

(** The callback of [activityData.forEach]: an inherited value passes the
    test [!guardMetrics[guardId]], and [guard.activities.total++] throws. *)
Definition activity_step (guardMetrics : Obj.t guard) (record : row)
  : outcome (Obj.t guard) :=
  let guardId := Service_Number record in
  if negb (JS.truthy guardId) then Returns guardMetrics else
  match lookup inherited guardMetrics (text guardId) with
  | Missing => Returns guardMetrics
  | Own g =>
      Returns (Obj.set guardMetrics (text guardId)
                 (guard_activity parseInt g record))
  | Inherited => Throws
  end.

Definition attendanceScore (g : guard) : JS.number :=
  if 0 <? g.(shifts_total) then
    Double.mul
      (Double.div (JS.of_nat g.(shifts_onTime)) (JS.of_nat g.(shifts_total)))
      (JS.of_Z 30)
  else JS.of_Z 0.

Definition activityScore (g : guard) : JS.number :=
  if 0 <? g.(activities_total) then
    Double.mul
      (Double.div
         (JS.of_nat (g.(activities_onTime) + g.(activities_locationAccurate)))
         (JS.of_nat (2 * g.(activities_total))))
      (JS.of_Z 40)
  else JS.of_Z 0.

Definition coverageScore (g : guard) : JS.number :=
  JS.Math_min
    (Double.mul
       (Double.div (JS.of_nat (List.length g.(coverage))) (JS.of_Z 3))
       (JS.of_Z 30))
    (JS.of_Z 30).

(** [Math.round((a / b) * 100)] *)
Definition percent (a b : nat) : JS.number :=
  JS.Math_round
    (Double.mul (Double.div (JS.of_nat a) (JS.of_nat b)) (JS.of_Z 100)).

(** The callback of the final [map] in [processGuardData]. *)
Definition guard_result (g : guard) : guard_profile :=
  mkGuardProfile g
    (mkGuardMetrics
       (if 0 <? g.(shifts_total) then
          percent g.(shifts_onTime) g.(shifts_total)
        else JS.of_Z 0)
       (if 0 <? g.(activities_total) then
          percent (g.(activities_onTime) + g.(activities_locationAccurate))
            (2 * g.(activities_total))
        else JS.of_Z 0)
       (List.length g.(coverage))
       (JS.Math_round
          (Double.add (Double.add (attendanceScore g) (activityScore g))
             (coverageScore g)))).

Definition guardMetrics_of (activityData attendanceData : list row)
  : outcome (Obj.t guard) :=
  bind (for_each attendance_step attendanceData [])
    (for_each activity_step activityData).

Definition processGuardData (activityData attendanceData : list row)
  : outcome (list guard_profile) :=
  bind (guardMetrics_of activityData attendanceData)
    (fun guardMetrics =>
       Returns
         (Obj.Array_sort
            (fun a b =>
               Double.sub b.(metrics).(performanceScore)
                 a.(metrics).(performanceScore))
            (map guard_result (Obj.Object_values guardMetrics)))).

(** *** [processLocationCoverage] *)

Definition location_shift (m : location) (record : row) : location :=
  if JS.truthy (Full_Name record) then
    mkLocation m.(loc_location)
      (m.(loc_shifts_total) + 1)
      (m.(loc_shifts_covered) + 1)
      (m.(loc_shifts_onTime)
       + b2n (JS.str_is (Late_Hours record) "On-time"))
      (Obj.Set_add String.eqb (text (Full_Name record)) m.(loc_guards))
      (add_duty_hours m.(loc_shiftHours) record)
  else
    mkLocation m.(loc_location)
      (m.(loc_shifts_total) + 1)
      m.(loc_shifts_covered) m.(loc_shifts_onTime)
      m.(loc_guards) m.(loc_shiftHours).

(** The callback of [data.forEach] in [processLocationCoverage]: on an
    inherited name [metrics.shifts.total++] throws. *)
Definition location_step (locationMetrics : Obj.t location) (record : row)
  : outcome (Obj.t location) :=
  if negb (JS.truthy (Post_Name record)) then Returns locationMetrics else
  let l := text (Post_Name record) in
  match lookup inherited locationMetrics l with
  | Own m => Returns (Obj.set locationMetrics l (location_shift m record))
  | Missing =>
      Returns (Obj.set locationMetrics l
                 (location_shift (new_location l) record))
  | Inherited => Throws
  end.

(** The callback of the final [map] in [processLocationCoverage]. *)
Definition location_result (l : location) : location_profile :=
  mkLocationProfile l
    (mkLocationMetrics
       (percent l.(loc_shifts_covered) l.(loc_shifts_total))
       (if 0 <? l.(loc_shifts_covered) then
          percent l.(loc_shifts_onTime) l.(loc_shifts_covered)
        else JS.of_Z 0)
       None
       (if 0 <? l.(loc_shifts_covered) then
          Double.div
            (JS.Math_round
               (Double.mul
                  (Double.div l.(loc_shiftHours)
                     (JS.of_nat l.(loc_shifts_covered)))
                  (JS.of_Z 10)))
            (JS.of_Z 10)
        else JS.of_Z 0)).

Definition locationMetrics_of (data : list row) : outcome (Obj.t location) :=
  for_each location_step data [].

Definition processLocationCoverage (data : list row)
  : outcome (list location_profile) :=
  bind (locationMetrics_of data)
    (fun locationMetrics =>
       Returns
         (Obj.Array_sort
            (fun a b =>
               Double.sub b.(loc_metrics).(coverageRate)
                 a.(loc_metrics).(coverageRate))
            (map location_result (Obj.Object_values locationMetrics)))).

(** *** [calculateComplianceMetrics] *)

Definition score3 (a b c : nat) : JS.number :=
  JS.Math_round
    (Double.mul (Double.div (JS.of_nat (a + b + c)) (JS.of_Z 3))
       (JS.of_Z 100)).

Definition location_checks (l : location_profile) : location_compliance :=
  let coverageCompliance :=
    b2n (JS.ge l.(loc_metrics).(coverageRate) (JS.of_Z 95)) in
  let punctualityCompliance :=
    b2n (JS.ge l.(loc_metrics).(punctualityRate) (JS.of_Z 90)) in
  let staffingCompliance :=
    b2n (JS.ge (to_number l.(loc_metrics).(guardCount)) (JS.of_Z 2)) in
  mkLocationCompliance l.(profile_location).(loc_location)
    coverageCompliance punctualityCompliance staffingCompliance
    (score3 coverageCompliance punctualityCompliance staffingCompliance).

Definition guard_checks (g : guard_profile) : guard_compliance :=
  let attendanceCompliance :=
    b2n (JS.ge g.(metrics).(attendanceRate) (JS.of_Z 95)) in
  let activityCompliance :=
    b2n (JS.ge g.(metrics).(activityComplianceRate) (JS.of_Z 90)) in
  let coverageCompliance :=
    b2n (JS.ge (JS.of_nat g.(metrics).(coverageCount)) (JS.of_Z 1)) in
  mkGuardCompliance g.(profile_guard).(name)
    attendanceCompliance activityCompliance coverageCompliance
    (score3 attendanceCompliance activityCompliance coverageCompliance).

Definition calculateComplianceMetrics (activities : list bucket)
  (locations : list location_profile) (guards : list guard_profile)
  : compliance :=
  let locationCompliance := map location_checks locations in
  let guardCompliance := map guard_checks guards in
  let overallMetrics :=
    fold_left tally_guard guardCompliance
      (fold_left tally_location locationCompliance (mkOverall 0 0)) in
  mkCompliance
    (percent overallMetrics.(passedChecks) overallMetrics.(totalChecks))
    locationCompliance guardCompliance.

(** The aggregation part of [loadData], on rows already filtered by date;
    [Throws] is its [catch] branch. *)
Definition dashboard (activityData attendanceData : list row)
  : outcome compliance :=
  let processedActivityData :=
    processActivityData Date_getHours parseInt activityData in
  bind (processLocationCoverage attendanceData) (fun locationCoverage =>
  bind (processGuardData activityData attendanceData) (fun guardStatistics =>
  Returns
    (calculateComplianceMetrics processedActivityData locationCoverage
       guardStatistics))).

End Aggregation.

End Run.

(** ** The aggregation functions of [App.js] as they run *)

Module AppRun.

Section Statistics.

Variable inherited : string -> bool.
Variable parseInt : string -> option Z.
Variable User_Name : row -> option string.

(** The callback of [data.reduce] in [processLocationCoverage].  On an
    inherited name no entry is created: [acc[location].total += 1] and the
    like store [NaN] on the inherited value, where nothing reads it, and
    [acc[location].guards.add] throws when the row has a guard. *)
Definition location_step (acc : Obj.t App.location) (curr : row)
  : outcome (Obj.t App.location) :=
  if negb (JS.truthy (Post_Name curr)) then Returns acc else
  let l := text (Post_Name curr) in
  match lookup inherited acc l with
  | Own m => Returns (Obj.set acc l (App.location_shift m curr))
  | Missing =>
      Returns (Obj.set acc l (App.location_shift App.new_location curr))
  | Inherited => if JS.truthy (Full_Name curr) then Throws else Returns acc
  end.

Definition processLocationCoverage (data : list row)
  : outcome (Obj.t App.location) :=
  for_each location_step data [].

(** [loc.covered / loc.total] added to the running sum. *)
Definition add_coverage (acc : JS.number) (loc : App.location) : JS.number :=
  Double.add acc
    (Double.div (JS.of_nat loc.(App.location_covered))
       (JS.of_nat loc.(App.location_total))).

Definition processAttendanceData (data : list row) : outcome App.attendance :=
  bind (processLocationCoverage data) (fun locationCoverage =>
  let totalShifts := List.length data in
  let onTime :=
    List.length (filter (fun d => JS.str_is (Late_Hours d) "On-time") data) in
  Returns
    (App.mkAttendance totalShifts onTime
       (Z.of_nat totalShifts - Z.of_nat onTime)
       locationCoverage
       (Double.mul
          (Double.div
             (fold_left add_coverage (Obj.Object_values locationCoverage)
                (JS.of_Z 0))
             (JS.of_nat (List.length locationCoverage)))
          (JS.of_Z 100)))).

(** The callback of [activityData.forEach] in [processGuardStatistics]: on
    an inherited name no entry is created and
    [guardStats[guardId].posts.add] throws. *)
Definition guard_step (guardStats : Obj.t App.guard) (record : row)
  : outcome (Obj.t App.guard) :=
  if negb (JS.truthy (Service_Number record)) then Returns guardStats else
  let guardId := text (Service_Number record) in
  match lookup inherited guardStats guardId with
  | Own g =>
      Returns (Obj.set guardStats guardId
                 (App.guard_activity parseInt g record))
  | Missing =>
      Returns (Obj.set guardStats guardId
                 (App.guard_activity parseInt
                    (App.new_guard User_Name guardId record) record))
  | Inherited => Throws
  end.

(** The callback of the final [map] in [processGuardStatistics].  The
    array [locationAccuracy] holds what [parseInt] returned: the Number
    values of the integers read, an infinity for an integer beyond the
    range of the doubles. *)
Definition guard_result (g : App.guard) : App.guard_statistics :=
  App.mkGuardStatistics g
    (match g.(App.locationAccuracy) with
     | [] => JS.of_Z 0
     | _ :: _ =>
         JS.Math_round
           (Double.div
              (fold_left Double.add
                 (map Double.Number g.(App.locationAccuracy)) (JS.of_Z 0))
              (JS.of_nat (List.length g.(App.locationAccuracy))))
     end)
    (Run.percent g.(App.onTimeActivities)
       (g.(App.onTimeActivities) + g.(App.lateActivities)))
    (Run.percent g.(App.guard_alerts) g.(App.totalActivities))
    (if 0 <? g.(App.guard_criticalAlerts) then "warning" else "normal").

Definition guardStats_of (activityData : list row)
  : outcome (Obj.t App.guard) :=
  for_each guard_step activityData [].

Definition processGuardStatistics (activityData attendanceData : list row)
  : outcome (list App.guard_statistics) :=
  bind (guardStats_of activityData) (fun guardStats =>
  Returns
    (Obj.Array_sort
       (fun a b =>
          Double.sub b.(App.punctualityRate) a.(App.punctualityRate))
       (map guard_result (Obj.Object_values guardStats)))).

(** The argument of [setPerformanceMetrics] in
    [calculatePerformanceMetrics]. *)
Definition calculatePerformanceMetrics (activityData : list row)
  (attendanceData : App.attendance)
  (guardStats : list App.guard_statistics) : App.performance_metrics :=
  let locationAccuracies := map App.avgLocationAccuracy guardStats in
  let avgAccuracy :=
    Double.div (fold_left Double.add locationAccuracies (JS.of_Z 0))
      (JS.of_nat (List.length locationAccuracies)) in
  let totalAlerts :=
    fold_left (fun acc curr => (acc + b2n (JS.truthy (Alert curr)))%nat)
      activityData 0%nat in
  let criticalAlerts :=
    fold_left
      (fun acc curr => (acc + b2n (JS.str_is (Alert curr) "Critical"))%nat)
      activityData 0%nat in
  App.mkPerformanceMetrics (JS.Math_round avgAccuracy) criticalAlerts
    totalAlerts (JS.Math_round attendanceData.(App.avgCoverage)).

End Statistics.

(** The percentage that the coverage chart and the location table show for
    an entry: [Math.round((data.covered / data.total) * 100)]. *)
Definition coverage_percent (data : App.location) : JS.number :=
  Run.percent data.(App.location_covered) data.(App.location_total).

End AppRun.

(** ** Notions used to state the properties *)

(** A rate is a defined number of the closed interval from 0 to 100. *)
Definition in_0_100 (x : JS.number) : bool :=
  JS.le (JS.of_Z 0) x && JS.le x (JS.of_Z 100).

(** Rounding of the specification: [round(q)], halves upwards. *)
Definition spec_round (q : Q) : Z := Qfloor (q + (1 # 2)).

Definition Qnat (n : nat) : Q := inject_Z (Z.of_nat n).

(** The rate that the specification gives a bucket:
    [round(100 * (onTime + locationAccurate) / (2 * total))]. *)
Definition spec_complianceRate (b : bucket) : Z :=
  spec_round (100 * (Qnat b.(onTime) + Qnat b.(locationAccurate))
              / (2 * Qnat b.(total))).

(** The four accumulated counters of a bucket. *)
Definition counters (b : bucket) : nat * nat * nat * nat :=
  (b.(total), b.(onTime), b.(locationAccurate), b.(delayed)).

(** A row carries a timestamp when its ['Date/Time'] cell is neither absent
    nor empty. *)
Definition has_timestamp (r : row) : bool := JS.truthy (Date_Time r).

(** An activity row and an attendance row with the cells the examples use. *)
Definition activity_row (date_time time_accuracy : string) : row :=
  mkRow (Some date_time) (Some time_accuracy) None None None None None None
    None.

Definition attendance_row (service_number full_name post_name late_hours
  : option string) : row :=
  mkRow None None None service_number full_name post_name late_hours None
    None.

(** The performance score as the specification words it. *)
Definition spec_attendanceScore (onTimeShifts totalShifts : nat) : Q :=
  if (totalShifts =? 0)%nat then 0
  else 30 * Qnat onTimeShifts / Qnat totalShifts.

Definition spec_activityScore
  (onTimeActivities locationAccurateActivities totalActivities : nat) : Q :=
  if (totalActivities =? 0)%nat then 0
  else 40 * (Qnat onTimeActivities + Qnat locationAccurateActivities)
       / (2 * Qnat totalActivities).

Definition spec_coverageScore (distinctLocationCount : nat) : Q :=
  Qmin 30 (30 * Qnat distinctLocationCount / 3).

Definition spec_performanceScore (g : guard) : Z :=
  spec_round
    (spec_attendanceScore g.(shifts_onTime) g.(shifts_total)
     + spec_activityScore g.(activities_onTime)
         g.(activities_locationAccurate) g.(activities_total)
     + spec_coverageScore (List.length g.(coverage))).

(** The attendance rows that seed or update the profile of [guardId]: those
    with a display name and this service number. *)
Definition seeds (guardId : string) (record : row) : bool :=
  JS.truthy (Full_Name record) && JS.truthy (Service_Number record)
  && String.eqb (text (Service_Number record)) guardId.

Definition seeded (attendanceData : list row) (guardId : string) : bool :=
  existsb (seeds guardId) attendanceData.


(** The two attendance rows of guard G1 in the specification's example. *)
Definition G1_rows : list row :=
  [attendance_row (Some "G1") (Some "G1") (Some "Gate A") (Some "On-time");
   attendance_row (Some "G1") (Some "G1") (Some "Gate B") (Some "Late")]%string.

(** The attendance rows of a location: those whose post name is [l]; the
    covered ones also carry a guard display name, and the punctual ones are
    covered and on time. *)
Definition at_post (l : string) (record : row) : bool :=
  JS.truthy (Post_Name record) && String.eqb (text (Post_Name record)) l.

Definition covered_at (l : string) (record : row) : bool :=
  at_post l record && JS.truthy (Full_Name record).

Definition onTime_at (l : string) (record : row) : bool :=
  covered_at l record && JS.str_is (Late_Hours record) "On-time".

Definition count (p : row -> bool) (data : list row) : nat :=
  List.length (filter p data).

(** The two attendance rows of Gate A in the specification's example: one
    shift of guard G1, on time, and one row with the post only. *)
Definition Gate_A_rows : list row :=
  [attendance_row (Some "G1") (Some "G1") (Some "Gate A") (Some "On-time");
   attendance_row None None (Some "Gate A") None]%string.

(** The activity rows of a guard: those with this service number. *)
Definition for_guard (guardId : string) (record : row) : bool :=
  JS.truthy (Service_Number record)
  && String.eqb (text (Service_Number record)) guardId.

Definition shift_onTime (record : row) : bool :=
  JS.str_is (Late_Hours record) "On-time".

Definition activity_onTime (record : row) : bool :=
  JS.str_is (Time_Accuracy record) "On Time".

(** The entry of [guardId] after one more attendance row and after one more
    activity row, as the two passes leave it. *)
Definition guard_entry_step (parseFloat : string -> JS.number)
  (guardId : string) (cur : option guard) (record : row) : option guard :=
  if seeds guardId record then
    Some (guard_shift parseFloat
            (match cur with Some g => g | None => new_guard guardId record end)
            record)
  else cur.

Definition activity_entry_step (parseInt : string -> option Z)
  (guardId : string) (cur : option guard) (record : row) : option guard :=
  if for_guard guardId record then
    option_map (fun g => guard_activity parseInt g record) cur
  else cur.

(** What holds of every entry of [guardMetrics] at every moment. *)
Record guard_inv (g : guard) : Prop := {
  inv_shifts :
    (g.(shifts_onTime) + g.(shifts_late) = g.(shifts_total))%nat;
  inv_seeded : (1 <= g.(shifts_total))%nat;
  inv_onTime : (g.(activities_onTime) <= g.(activities_total))%nat;
  inv_accurate :
    (g.(activities_locationAccurate) <= g.(activities_total))%nat;
  inv_distinct : NoDup g.(coverage);
  inv_covered : (1 <= List.length g.(coverage))%nat
}.

Definition all_guards (P : guard -> Prop) (o : Obj.t guard) : Prop :=
  forall k g, In (k, g) o -> P g.

(** What holds of every entry of [locationMetrics] at every moment. *)
Record location_inv (m : location) : Prop := {
  inv_total : (1 <= m.(loc_shifts_total))%nat;
  inv_covered_total : (m.(loc_shifts_covered) <= m.(loc_shifts_total))%nat;
  inv_onTime_covered : (m.(loc_shifts_onTime) <= m.(loc_shifts_covered))%nat
}.

(** The entry of post [l] after one more row, as [location_step] leaves
    it. *)
Definition entry_step (parseFloat : string -> JS.number) (l : string)
  (cur : option location) (record : row) : option location :=
  if at_post l record then
    Some (location_shift parseFloat
            (match cur with Some m => m | None => new_location l end) record)
  else cur.

(** The hour of a row's timestamp, and the rows of hour [h]: those with a
    timestamp that parses to [h]. *)
Definition row_hour (getHours : string -> option Z) (r : row) : option Z :=
  getHours (text (Date_Time r)).

Definition in_hour (getHours : string -> option Z) (h : Z) (r : row) : bool :=
  has_timestamp r
  && match row_hour getHours r with
     | Some k => Z.eqb k h
     | None => false
     end.

(** A row is parseable when its timestamp, if it has one, is a valid
    date. *)
Definition parseable (getHours : string -> option Z) (r : row) : bool :=
  negb (has_timestamp r)
  || match row_hour getHours r with Some _ => true | None => false end.

(** The buckets of hour [h]. *)
Definition bucket_of_hour (h : Z) (b : bucket) : bool :=
  JS.strict_eq b.(hour) (JS.of_Z h).

(** The counters that a list of rows adds up to. *)
Definition row_counters (parseInt : string -> option Z) (r : row)
  : nat * nat * nat * nat :=
  (1%nat, row_onTime r, row_locationAccurate parseInt r, row_delayed r).

Definition add4 (c d : nat * nat * nat * nat) : nat * nat * nat * nat :=
  let '(c1, c2, c3, c4) := c in
  let '(d1, d2, d3, d4) := d in
  (c1 + d1, c2 + d2, c3 + d3, c4 + d4)%nat.

Definition summary (parseInt : string -> option Z) (rs : list row)
  : nat * nat * nat * nat :=
  (List.length rs,
   list_sum (map row_onTime rs),
   list_sum (map (row_locationAccurate parseInt) rs),
   list_sum (map row_delayed rs)).

(** Strictly ascending hours, under the order [<] of the language. *)
Definition ascending (l : list bucket) : Prop :=
  StronglySorted (fun a b => JS.lt a.(hour) b.(hour) = true) l.

(** The integer of an hour that is one. *)
Definition hour_key (b : bucket) : Z :=
  match b.(hour) with JS.Fin q => Qfloor q | _ => 0%Z end.

Definition integer_hour (b : bucket) : Prop := b.(hour) = JS.of_Z (hour_key b).

Definition key_le (a b : bucket) : Prop := (hour_key a <= hour_key b)%Z.

(** Concrete rows and results for the evaluations below. *)
Definition G1_profile : guard_profile :=
  mkGuardProfile
    (mkGuard "G1" "G1" 2 1 1 0 0 0 [Some "Gate A"; Some "Gate B"]%string
       (JS.of_Z 0))
    (mkGuardMetrics (JS.of_Z 50) (JS.of_Z 0) 2 (JS.of_Z 35)).

Definition Gate_A_profile : location_profile :=
  mkLocationProfile
    (mkLocation "Gate A" 2 1 1 ["G1"]%string (JS.of_Z 0))
    (mkLocationMetrics (JS.of_Z 50) (JS.of_Z 100) None
       (JS.div (JS.of_Z 0) (JS.of_Z 10))).

(** An activity of guard G2, who has no attendance row. *)
Definition stray_activity : row :=
  (mkRow (Some "2024-10-19T08:15:00") (Some "On Time") (Some "5")
     (Some "G2") None (Some "Gate A") None None None)%string.

(** Two activities with valid timestamps, the later hour first. *)
Definition valid_rows : list row :=
  [activity_row "2024-10-19T09:15:00" "On Time";
   activity_row "2024-10-19T08:15:00" "Delayed"].

(** An activity whose timestamp cell holds a text that is no date, and the
    same followed by a valid one. *)
Definition undated_row : row := activity_row "N/A" "On Time".

Definition mixed_rows : list row :=
  [undated_row; activity_row "2024-10-19T08:15:00" "On Time"].

(** A bucket of each dashboard for the same hour. *)
Definition same_hour (b : bucket) (b' : App.bucket) : Prop :=
  b.(hour) = b'.(App.hour).

(** Strictly ascending numbers. *)
Definition ascending_hours (hs : list JS.number) : Prop :=
  StronglySorted (fun x y => JS.lt x y = true) hs.

(** The integer that a number is, when it is one. *)
Definition number_key (x : JS.number) : Z :=
  match x with JS.Fin q => Qfloor q | _ => 0%Z end.

Definition integer (x : JS.number) : Prop := x = JS.of_Z (number_key x).




(** [a] does not rank below [b] under the integer key [num]. *)
Definition key_ge (A : Type) (num : A -> JS.number) (a b : A) : Prop :=
  (number_key (num b) <= number_key (num a))%Z.

(** The identifiers of a list of guard profiles and the post names of a list
    of location profiles. *)
Definition guard_ids (guardStats : list guard_profile) : list string :=
  map (fun p => p.(profile_guard).(id)) guardStats.

Definition post_names (locations : list location_profile) : list string :=
  map (fun p => p.(profile_location).(loc_location)) locations.

(** A post name occurs in the attendance rows. *)
Definition posted (data : list row) (l : string) : bool :=
  existsb (at_post l) data.

(** What holds of every hourly bucket, in either dashboard. *)
Definition bucket_inv (b : bucket) : Prop :=
  (1 <= b.(total) /\ b.(onTime) <= b.(total)
   /\ b.(locationAccurate) <= b.(total) /\ b.(delayed) <= b.(total))%nat
  /\ (b.(complianceRate) = JS.of_Z 0 \/ b.(complianceRate) = JS.of_Z 50
      \/ b.(complianceRate) = JS.of_Z 100).

Definition alert_bucket_inv (b : App.bucket) : Prop :=
  (1 <= b.(App.count) /\ b.(App.criticalAlerts) <= b.(App.alerts)
   /\ b.(App.alerts) <= b.(App.count))%nat.

(** A bucket of each dashboard for the same hour and as many rows. *)
Definition same_bucket (b : bucket) (b' : App.bucket) : Prop :=
  b.(hour) = b'.(App.hour) /\ b.(total) = b'.(App.count).


(** The entry of post [l] in the coverage object of [App.js] after one more
    row, as [App.location_step] leaves it. *)
Definition coverage_entry_step (l : string) (cur : option App.location)
  (record : row) : option App.location :=
  if at_post l record then
    Some (App.location_shift
            (match cur with Some m => m | None => App.new_location end)
            record)
  else cur.

(** The rows of post [l] that carry an alert. *)
Definition alert_at (l : string) (record : row) : bool :=
  at_post l record && JS.truthy (Alert record).

(** The date of the examples, and activity rows of two dates. *)
Definition sample_date : string := "2024-10-19".

Definition dated_rows : list row :=
  [activity_row "2024-10-19T09:15:00" "On Time";
   activity_row "2024-10-20T08:15:00" "On Time";
   activity_row "2024-10-19T10:30:00" "Delayed"].

(** What holds of every entry of the guard statistics of [App.js] at every
    moment. *)
Definition guard_stat_inv (g : App.guard) : Prop :=
  (g.(App.onTimeActivities) + g.(App.lateActivities) = g.(App.totalActivities)
   /\ 1 <= g.(App.totalActivities)
   /\ g.(App.guard_criticalAlerts) <= g.(App.guard_alerts)
   /\ g.(App.guard_alerts) <= g.(App.totalActivities))%nat.

(** A service number occurs in the activity rows. *)
Definition active (activityData : list row) (guardId : string) : bool :=
  existsb (for_guard guardId) activityData.

Definition stat_ids (guardStats : list App.guard_statistics) : list string :=
  map (fun s => s.(App.stat_guard).(App.guard_id)) guardStats.

(** The activity rows of guard G2 alone. *)
Definition G2_activity : list row := [stray_activity].

(** Two timestamped activities that raised an alert, one of them critical,
    and one that raised none. *)
Definition alert_rows : list row :=
  [mkRow (Some "2024-10-19T09:15:00") (Some "On Time") None (Some "G1") None
     (Some "Gate A") None None (Some "Critical");
   mkRow (Some "2024-10-19T09:40:00") (Some "Delayed") None (Some "G1") None
     (Some "Gate A") None None (Some "Warning");
   mkRow (Some "2024-10-19T11:05:00") (Some "On Time") None (Some "G2") None
     (Some "Gate B") None None None]%string.

(** *** Notions of the aggregation as it runs *)


(** No own key of the object is the name of an inherited property. *)
Definition own_keys (V : Type) (inherited : string -> bool) (o : Obj.t V)
  : Prop :=
  forall k, inherited k = true -> Obj.get o k = None.

(** A guard entry without its duty hours, and a dictionary of such. *)
Definition without_hours (g : guard) : guard :=
  mkGuard g.(id) g.(name) g.(shifts_total) g.(shifts_onTime) g.(shifts_late)
    g.(activities_total) g.(activities_onTime)
    g.(activities_locationAccurate) g.(coverage) (JS.of_Z 0).

Definition map_values (V W : Type) (f : V -> W) (o : Obj.t V) : Obj.t W :=
  map (fun kv => (fst kv, f (snd kv))) o.

(** A parser that reads no number. *)
Definition no_hours (s : string) : JS.number := JS.NaN.

(** The rows on which the two passes of [processGuardData] throw. *)
Definition attendance_throws (inherited : string -> bool) (record : row)
  : bool :=
  JS.truthy (Full_Name record) && JS.truthy (Service_Number record)
  && inherited (text (Service_Number record)).

Definition activity_throws (inherited : string -> bool) (record : row)
  : bool :=
  JS.truthy (Service_Number record)
  && inherited (text (Service_Number record)).






(** The duty hours that a list of rows contributes: the cells that are
    truthy and parse to a number, in the order of the rows. *)
Definition duty_hours (parseFloat : string -> JS.number) (rows : list row)
  : list JS.number :=
  flat_map
    (fun r =>
       match Duty_Hours r with
       | Some s =>
           if String.eqb s EmptyString then []
           else match parseFloat s with
                | JS.NaN => []
                | hours => [hours]
                end
       | None => []
       end)
    rows.

(** The sum of a list of doubles, added from the left. *)
Definition double_sum (l : list JS.number) : JS.number :=
  fold_left Double.add l (JS.of_Z 0).

(** The entry of post [l] after one more row, as [Run.location_step]
    leaves it. *)
Definition location_entry_step (parseFloat : string -> JS.number)
  (l : string) (cur : option location) (record : row) : option location :=
  if at_post l record then
    Some (Run.location_shift parseFloat
            (match cur with Some m => m | None => new_location l end) record)
  else cur.

(** The rows on which [processLocationCoverage] throws. *)
Definition location_throws (inherited : string -> bool) (record : row)
  : bool :=
  JS.truthy (Post_Name record) && inherited (text (Post_Name record)).


(** The rows whose post name, if any, is not the name of an inherited
    property: the rows that the coverage object of [App.js] counts. *)
Definition own_posts (inherited : string -> bool) (data : list row)
  : list row :=
  filter (fun r => negb (location_throws inherited r)) data.

(** The rows on which the [processLocationCoverage] of [App.js] throws. *)
Definition coverage_throws (inherited : string -> bool) (record : row)
  : bool :=
  location_throws inherited record && JS.truthy (Full_Name record).

(** A row counts in the coverage object of [App.js] when it has a post name
    that is not the name of an inherited property. *)
Definition own_post (inherited : string -> bool) (record : row) : bool :=
  JS.truthy (Post_Name record)
  && negb (inherited (text (Post_Name record))).

(** A number that is zero, positive or plus infinity. *)
Definition nonneg (x : JS.number) : Prop :=
  x = JS.PosInf \/ exists q, x = JS.Fin q /\ 0 <= q.

(** The location accuracy of a row does not read as a negative integer. *)
Definition accuracy_nonneg (parseInt : string -> option Z) (record : row)
  : bool :=
  match parseInt (text (Location_Accuracy record)) with
  | Some z => negb (JS.truthy (Location_Accuracy record)) || (0 <=? z)%Z
  | None => true
  end.

(** ** Properties *)

(** *** Evaluations at concrete rows *)

(** C1.  Two activities logged in hour 8, the first on time and the second
    delayed, none with a location accuracy: the bucket ends with total 2 and
    onTime 1, for which the formula gives round(100 * 1 / 4) = 25, but its
    complianceRate is the 50 computed when the first row opened the bucket. *)
Theorem complianceRate_not_updated :
  let out :=
    processActivityData Host.getHours Host.parseInt
      [activity_row "2024-10-19T08:15:00" "On Time";
       activity_row "2024-10-19T08:45:00" "Delayed"] in
  out = [mkBucket (JS.of_Z 8) 2 1 0 1 (JS.of_Z 50)]
  /\ map spec_complianceRate out = [25%Z].
Proof. split; vm_compute; reflexivity. Qed.

(** C2.  With no location profile and no guard profile the overall value is
    the rounding of 0 / 0 times 100, which is NaN and not 0. *)
Theorem overall_of_empty_lists_is_NaN :
  forall activities : list bucket,
    overall (calculateComplianceMetrics activities [] []) = JS.NaN
    /\ overall (calculateComplianceMetrics activities [] []) <> JS.of_Z 0.
Proof. intros activities; split; [reflexivity | discriminate]. Qed.

(** C3.  On a date without any activity row or attendance row the pipeline
    yields an overall compliance value that is NaN, hence outside the
    interval from 0 to 100. *)
Theorem overall_out_of_range_without_rows :
  forall getHours parseInt parseFloat,
    let c := dashboard getHours parseInt parseFloat [] [] in
    overall c = JS.NaN /\ in_0_100 (overall c) = false.
Proof. intros; split; reflexivity. Qed.

(** *** Arrays and objects *)

Section ArrayFacts.
Variable A : Type.
Variable cmp : A -> A -> JS.number.

Lemma sort_insert_perm (x : A) (l : list A) :
  Permutation (Obj.sort_insert cmp x l) (x :: l).
Proof.
  induction l as [| y l IH]; simpl.
  - apply Permutation_refl.
  - destruct (Obj.cmp_le0 (cmp x y)).
    + apply Permutation_refl.
    + eapply perm_trans; [apply perm_skip, IH | apply perm_swap].
Qed.

(** Sorting rearranges the array and nothing else. *)
Lemma Array_sort_perm (l : list A) : Permutation (Obj.Array_sort cmp l) l.
Proof.
  induction l as [| x l IH]; simpl.
  - constructor.
  - eapply perm_trans; [apply sort_insert_perm | apply perm_skip, IH].
Qed.

Lemma Array_sort_In (l : list A) (x : A) :
  In x (Obj.Array_sort cmp l) <-> In x l.
Proof.
  split; apply Permutation_in;
    [apply Array_sort_perm | apply Permutation_sym, Array_sort_perm].
Qed.
End ArrayFacts.

Section DictFacts.
Variable V : Type.
Implicit Types (o : Obj.t V) (k : string) (v : V).

Lemma get_set_same o k v : Obj.get (Obj.set o k v) k = Some v.
Proof.
  induction o as [| [k' v'] o IH]; simpl.
  - now rewrite String.eqb_refl.
  - destruct (String.eqb k' k) eqn:E; simpl; rewrite E; auto.
Qed.

Lemma get_set_other o k k' v :
  k <> k' -> Obj.get (Obj.set o k v) k' = Obj.get o k'.
Proof.
  intros Hne; induction o as [| [k0 v0] o IH]; simpl.
  - destruct (String.eqb k k') eqn:E; auto.
    apply String.eqb_eq in E; contradiction.
  - destruct (String.eqb k0 k) eqn:E; simpl.
    + apply String.eqb_eq in E; subst k0.
      destruct (String.eqb k k') eqn:E'; auto.
      apply String.eqb_eq in E'; contradiction.
    + now rewrite IH.
Qed.

Lemma get_In o k v : Obj.get o k = Some v -> In (k, v) o.
Proof.
  induction o as [| [k' v'] o IH]; simpl; [discriminate |].
  destruct (String.eqb k' k) eqn:E.
  - apply String.eqb_eq in E; intros [= ->]; subst; now left.
  - intros H; right; auto.
Qed.

(** After [o[k] = v] every entry is the new one or an old one. *)
Lemma In_set o k v k' v' :
  In (k', v') (Obj.set o k v) -> (k' = k /\ v' = v) \/ In (k', v') o.
Proof.
  induction o as [| [k0 v0] o IH]; simpl.
  - intros [[= <- <-] | []]; auto.
  - destruct (String.eqb k0 k) eqn:E; simpl.
    + apply String.eqb_eq in E; subst k0.
      intros [[= <- <-] | H]; auto.
    + intros [H | H]; auto.
      destruct (IH H) as [? | ?]; auto.
Qed.

Lemma insert_index_perm (i : N) v (l : list (N * V)) :
  Permutation (Obj.insert_index i v l) ((i, v) :: l).
Proof.
  induction l as [| [j w] l IH]; simpl.
  - apply Permutation_refl.
  - destruct (i <=? j)%N.
    + apply Permutation_refl.
    + eapply perm_trans; [apply perm_skip, IH | apply perm_swap].
Qed.

Lemma index_entries_perm o :
  Permutation (map snd (Obj.index_entries o))
              (map snd (filter (@Obj.is_index V) o)).
Proof.
  induction o as [| [k v] o IH]; simpl.
  - constructor.
  - unfold Obj.is_index at 1; simpl.
    destruct (Obj.array_index k); simpl; auto.
    eapply perm_trans.
    + apply Permutation_map, insert_index_perm.
    + simpl; now apply perm_skip.
Qed.

Lemma filter_split_perm (A : Type) (p : A -> bool) (l : list A) :
  Permutation (filter p l ++ filter (fun x => negb (p x)) l) l.
Proof.
  induction l as [| x l IH]; simpl.
  - constructor.
  - destruct (p x); simpl.
    + now apply perm_skip.
    + eapply perm_trans; [apply Permutation_sym, Permutation_middle |].
      now apply perm_skip.
Qed.

(** [Object.values] lists exactly the values of the entries. *)
Lemma Object_values_perm o : Permutation (Obj.Object_values o) (map snd o).
Proof.
  unfold Obj.Object_values.
  eapply perm_trans.
  - apply Permutation_app_tail, index_entries_perm.
  - rewrite <- map_app. apply Permutation_map, filter_split_perm.
Qed.

Lemma Object_values_In o v :
  In v (Obj.Object_values o) <-> exists k, In (k, v) o.
Proof.
  split.
  - intros H.
    apply (Permutation_in _ (Object_values_perm o)) in H.
    apply in_map_iff in H as [[k v'] [E H]]; simpl in E; subst; eauto.
  - intros [k H].
    apply (Permutation_in _ (Permutation_sym (Object_values_perm o))).
    apply in_map_iff; exists (k, v); auto.
Qed.

Lemma set_keys_In o k v k' :
  In k' (map fst (Obj.set o k v)) -> k' = k \/ In k' (map fst o).
Proof.
  intros H. apply in_map_iff in H as [[k0 v0] [E H]]; simpl in E; subst k0.
  apply In_set in H as [[-> _] | H]; auto.
  right. apply in_map_iff. exists (k', v0); auto.
Qed.

(** Assignments never duplicate a key. *)
Lemma set_keys_NoDup o k v :
  NoDup (map fst o) -> NoDup (map fst (Obj.set o k v)).
Proof.
  induction o as [| [k0 v0] o IH]; simpl; intros H.
  - repeat constructor; simpl; tauto.
  - destruct (String.eqb k0 k) eqn:E; simpl; [assumption |].
    inversion H as [| ? ? Hnotin Hnodup]; subst.
    constructor; [| auto].
    intros Hin. apply set_keys_In in Hin as [-> | Hin]; [| contradiction].
    now rewrite String.eqb_refl in E.
Qed.

Lemma In_get o k v : NoDup (map fst o) -> In (k, v) o -> Obj.get o k = Some v.
Proof.
  induction o as [| [k0 v0] o IH]; simpl; intros Hnd Hin; [contradiction |].
  inversion Hnd as [| ? ? Hnotin Hnodup]; subst.
  destruct Hin as [[= -> ->] | Hin].
  - now rewrite String.eqb_refl.
  - destruct (String.eqb k0 k) eqn:E; [| auto].
    apply String.eqb_eq in E; subst k0.
    elim Hnotin. apply in_map_iff. exists (k, v); auto.
Qed.
End DictFacts.

(** *** Lists *)

Section ListFacts.
Variable A : Type.
Implicit Types (p q : A -> bool) (f : A -> A) (l : list A).

Lemma Permutation_filter p l l' :
  Permutation l l' -> Permutation (filter p l) (filter p l').
Proof.
  induction 1 as [| x l l' _ IH | x y l | l l' l'' _ IH1 _ IH2]; simpl.
  - constructor.
  - destruct (p x); auto.
  - destruct (p x), (p y); auto using perm_swap, Permutation_refl.
  - eapply perm_trans; eassumption.
Qed.

Lemma find_none_filter p l : find p l = None -> filter p l = [].
Proof.
  induction l as [| x l IH]; simpl; [reflexivity |].
  destruct (p x); [discriminate | assumption].
Qed.

Lemma find_some_filter p l x :
  find p l = Some x -> exists rest, filter p l = x :: rest.
Proof.
  induction l as [| y l IH]; simpl; [discriminate |].
  destruct (p y); [intros [= ->]; eauto | assumption].
Qed.

(** An update that [p] does not see, at an element that [p] rejects. *)
Lemma filter_update_other p q f l :
  (forall x, p (f x) = p x) ->
  (forall x, q x = true -> p x = false) ->
  filter p (Obj.update_first q f l) = filter p l.
Proof.
  intros Hf Hq. induction l as [| x l IH]; simpl; [reflexivity |].
  destruct (q x) eqn:E; simpl.
  - now rewrite Hf, (Hq _ E).
  - now rewrite IH.
Qed.

(** An update of the first element that [q] accepts. *)
Lemma filter_update_same q f l :
  (forall x, q (f x) = q x) ->
  filter q (Obj.update_first q f l)
  = match filter q l with
    | [] => []
    | x :: rest => f x :: rest
    end.
Proof.
  intros Hf. induction l as [| x l IH]; simpl; [reflexivity |].
  destruct (q x) eqn:E; simpl.
  - now rewrite Hf, E.
  - now rewrite E.
Qed.

Lemma filter_In_length p l x :
  In x l -> p x = true -> (1 <= List.length (filter p l))%nat.
Proof.
  intros Hin Hp.
  assert (In x (filter p l)) as H by (apply filter_In; auto).
  destruct (filter p l); [contradiction | simpl; lia].
Qed.
Lemma filter_filter p q l :
  filter q (filter p l) = filter (fun x => p x && q x) l.
Proof.
  induction l as [| x l IH]; simpl; [reflexivity |].
  destruct (p x); simpl; [destruct (q x) |]; now rewrite IH.
Qed.
End ListFacts.

Lemma fold_left_inv (A B : Type) (P : A -> Prop) (f : A -> B -> A) :
  (forall a b, P a -> P (f a b)) ->
  forall l a, P a -> P (fold_left f l a).
Proof.
  intros Hf l; induction l as [| b l IH]; simpl; auto.
Qed.

(** *** Numbers *)

Lemma Qnat_nonneg (n : nat) : 0 <= Qnat n.
Proof.
  unfold Qnat. change 0 with (inject_Z 0). rewrite <- Zle_Qle. lia.
Qed.

Lemma Qnat_pos (n : nat) : (0 < n)%nat -> 0 < Qnat n.
Proof.
  intros H. unfold Qnat. change 0 with (inject_Z 0). rewrite <- Zlt_Qlt. lia.
Qed.

Lemma Qnat_le (a b : nat) : (a <= b)%nat -> Qnat a <= Qnat b.
Proof. intros H. unfold Qnat. rewrite <- Zle_Qle. lia. Qed.

Lemma Qnat_add (a b : nat) : Qnat (a + b) == Qnat a + Qnat b.
Proof. unfold Qnat. now rewrite Nat2Z.inj_add, inject_Z_plus. Qed.

Lemma Qnat_double (a : nat) : Qnat (2 * a) == 2 * Qnat a.
Proof.
  unfold Qnat. rewrite Nat2Z.inj_mul, inject_Z_mult. reflexivity.
Qed.

(** Division of two counters with a positive divisor is the exact
    quotient. *)
Lemma div_of_nat (a b : nat) :
  (0 < b)%nat ->
  JS.div (JS.of_nat a) (JS.of_nat b) = JS.Fin (Qnat a / Qnat b).
Proof.
  intros Hb. unfold JS.div, JS.of_nat, JS.of_Z.
  destruct (Qeq_bool (inject_Z (Z.of_nat b)) 0) eqn:E; [| reflexivity].
  apply Qeq_bool_eq in E.
  pose proof (Qnat_pos Hb) as Hp. unfold Qnat in Hp.
  rewrite E in Hp. now apply Qlt_irrefl in Hp.
Qed.

Lemma spec_round_bounds (q : Q) (lo hi : Z) :
  inject_Z lo <= q -> q <= inject_Z hi -> (lo <= spec_round q <= hi)%Z.
Proof.
  intros Hlo Hhi. unfold spec_round.
  pose proof (Qfloor_le (q + (1 # 2))) as Hf.
  pose proof (Qlt_floor (q + (1 # 2))) as Hc.
  split.
  - assert (inject_Z lo < inject_Z (Qfloor (q + (1 # 2)) + 1)) as H by lra.
    rewrite <- Zlt_Qlt in H. lia.
  - assert (inject_Z (Qfloor (q + (1 # 2))) < inject_Z (hi + 1)) as H.
    { rewrite inject_Z_plus. change (inject_Z 1) with 1. lra. }
    rewrite <- Zlt_Qlt in H. lia.
Qed.

(** A quotient of counters [a <= b] scaled by [k] stays between 0 and
    [k]. *)
Lemma scaled_ratio_bounds (a b : nat) (k : Q) :
  (a <= b)%nat -> (0 < b)%nat -> 0 <= k ->
  0 <= Qnat a / Qnat b * k /\ Qnat a / Qnat b * k <= k.
Proof.
  intros Hab Hb Hk.
  pose proof (Qnat_pos Hb) as Hp.
  pose proof (Qnat_nonneg a) as Ha.
  pose proof (Qnat_le Hab) as Hle.
  assert (0 <= Qnat a / Qnat b) as H0.
  { apply Qle_shift_div_l; [exact Hp | lra]. }
  assert (Qnat a / Qnat b <= 1) as H1.
  { apply Qle_shift_div_r; [exact Hp | lra]. }
  split; nra.
Qed.

(** The percentage of two counters, as every rate of the dashboard computes
    it: [Math.round((a / b) * 100)]. *)
Lemma percent_value (a b : nat) :
  (0 < b)%nat ->
  JS.Math_round (JS.mul (JS.div (JS.of_nat a) (JS.of_nat b)) (JS.of_Z 100))
  = JS.of_Z (spec_round (Qnat a / Qnat b * 100)).
Proof. intros Hb. now rewrite div_of_nat. Qed.

Lemma percent_range (a b : nat) :
  (a <= b)%nat -> (0 < b)%nat ->
  (0 <= spec_round (Qnat a / Qnat b * 100) <= 100)%Z.
Proof.
  intros Hab Hb.
  destruct (@scaled_ratio_bounds a b 100 Hab Hb) as [H0 H1]; [lra |].
  apply spec_round_bounds; simpl; assumption.
Qed.

Lemma in_0_100_of_Z (z : Z) : (0 <= z <= 100)%Z -> in_0_100 (JS.of_Z z) = true.
Proof.
  intros [H0 H1]. unfold in_0_100, JS.le, JS.of_Z.
  apply andb_true_intro; split; apply Qle_bool_iff; rewrite <- Zle_Qle; lia.
Qed.

(** *** The guard aggregator *)

Section GuardFacts.
Variable parseInt : string -> option Z.
Variable parseFloat : string -> JS.number.

Local Open Scope nat_scope.

Lemma Set_add_NoDup (x : option string) (s : list (option string)) :
  NoDup s -> NoDup (Obj.Set_add Obj.opt_string_eqb x s).
Proof.
  intros H. unfold Obj.Set_add.
  destruct (existsb (Obj.opt_string_eqb x) s) eqn:E; [assumption |].
  apply NoDup_app; [assumption | repeat constructor; simpl; tauto |].
  intros y Hy [-> | []].
  assert (existsb (Obj.opt_string_eqb y) s = true) as Hex.
  { apply existsb_exists. exists y; split; [assumption |].
    destruct y; simpl; auto using String.eqb_refl. }
  congruence.
Qed.

Lemma Set_add_length (A : Type) (eqb : A -> A -> bool) x (s : list A) :
  List.length s <= List.length (Obj.Set_add eqb x s)
  /\ 1 <= List.length (Obj.Set_add eqb x s).
Proof.
  unfold Obj.Set_add. destruct (existsb (eqb x) s) eqn:E.
  - split; [lia |]. destruct s; [discriminate | simpl; lia].
  - rewrite length_app; simpl; lia.
Qed.

Lemma guard_shift_shifts (g : guard) (record : row) :
  g.(shifts_onTime) + g.(shifts_late) = g.(shifts_total) ->
  (guard_shift parseFloat g record).(shifts_onTime)
  + (guard_shift parseFloat g record).(shifts_late)
  = (guard_shift parseFloat g record).(shifts_total).
Proof.
  intros H; simpl.
  destruct (JS.str_is (Late_Hours record) "On-time"); simpl; lia.
Qed.

Lemma guard_shift_inv (g : guard) (record : row) :
  g.(shifts_onTime) + g.(shifts_late) = g.(shifts_total) ->
  g.(activities_onTime) <= g.(activities_total) ->
  g.(activities_locationAccurate) <= g.(activities_total) ->
  NoDup g.(coverage) ->
  guard_inv (guard_shift parseFloat g record).
Proof.
  intros Hs Ho Ha Hd.
  constructor; try (simpl; assumption).
  - now apply guard_shift_shifts.
  - simpl; lia.
  - simpl; now apply Set_add_NoDup.
  - simpl; apply Set_add_length.
Qed.

Lemma guard_activity_inv (g : guard) (record : row) :
  guard_inv g -> guard_inv (guard_activity parseInt g record).
Proof.
  intros [Hs H1 Ho Ha Hd Hc].
  constructor; simpl; try assumption.
  - destruct (JS.str_is (Time_Accuracy record) "On Time"); simpl; lia.
  - destruct (accurate parseInt record); simpl; lia.
Qed.

Lemma attendance_step_inv (o : Obj.t guard) (record : row) :
  all_guards guard_inv o -> all_guards guard_inv (attendance_step parseFloat o record).
Proof.
  intros Ho. unfold attendance_step.
  destruct (negb (JS.truthy (Full_Name record))
            || negb (JS.truthy (Service_Number record))); [assumption |].
  intros k g Hin. apply In_set in Hin as [[_ ->] | Hin]; [| eauto].
  destruct (Obj.get o (text (Service_Number record))) as [g0 |] eqn:E.
  - apply get_In in E. destruct (Ho _ _ E).
    now apply guard_shift_inv.
  - apply guard_shift_inv; simpl; auto using NoDup_nil.
Qed.

Lemma activity_step_inv (o : Obj.t guard) (record : row) :
  all_guards guard_inv o -> all_guards guard_inv (activity_step parseInt o record).
Proof.
  intros Ho. unfold activity_step.
  destruct (negb (JS.truthy (Service_Number record))); [assumption |].
  destruct (Obj.get o (text (Service_Number record))) as [g0 |] eqn:E;
    [| assumption].
  intros k g Hin. apply In_set in Hin as [[_ ->] | Hin]; [| eauto].
  apply guard_activity_inv. apply get_In in E. eauto.
Qed.

(** The attendance pass keeps the invariant, on every attendance list and
    therefore after every one of its rows. *)
Lemma attendance_pass_inv (attendanceData : list row) :
  all_guards guard_inv (fold_left (attendance_step parseFloat) attendanceData []).
Proof.
  apply fold_left_inv; [apply attendance_step_inv |].
  intros k g [].
Qed.

Lemma guardMetrics_inv (activityData attendanceData : list row) :
  all_guards guard_inv (guardMetrics_of parseInt parseFloat activityData attendanceData).
Proof.
  unfold guardMetrics_of.
  apply fold_left_inv; [apply activity_step_inv |].
  apply attendance_pass_inv.
Qed.

(** Every profile of the output is the result of an entry of
    [guardMetrics]. *)
Lemma processGuardData_In (activityData attendanceData : list row)
  (p : guard_profile) :
  In p (processGuardData parseInt parseFloat activityData attendanceData) ->
  exists k g,
    In (k, g) (guardMetrics_of parseInt parseFloat activityData attendanceData)
    /\ p = guard_result g.
Proof.
  intros H. unfold processGuardData in H. apply Array_sort_In in H.
  apply in_map_iff in H as [g [<- H]].
  apply Object_values_In in H as [k H]. eauto.
Qed.

(** C10.  After any number of attendance rows every entry of
    [guardMetrics] has onTime + late = total, and so has every profile of
    the output; one attendance row adds one to total and one to exactly
    one of onTime and late. *)
Theorem shifts_onTime_late_total :
  forall (activityData attendanceData : list row),
    (forall n k g,
        In (k, g)
          (fold_left (attendance_step parseFloat)
             (firstn n attendanceData) []) ->
        g.(shifts_onTime) + g.(shifts_late) = g.(shifts_total))
    /\ (forall p,
           In p (processGuardData parseInt parseFloat
                   activityData attendanceData) ->
           p.(profile_guard).(shifts_onTime)
           + p.(profile_guard).(shifts_late)
           = p.(profile_guard).(shifts_total))
    /\ (forall g record,
           let g' := guard_shift parseFloat g record in
           g'.(shifts_total) = g.(shifts_total) + 1
           /\ ((g'.(shifts_onTime) = g.(shifts_onTime) + 1
                /\ g'.(shifts_late) = g.(shifts_late))
               \/ (g'.(shifts_onTime) = g.(shifts_onTime)
                   /\ g'.(shifts_late) = g.(shifts_late) + 1))).
Proof.
  intros activityData attendanceData. split; [| split].
  - intros n k g H.
    now destruct (attendance_pass_inv _ _ _ H).
  - intros p H.
    apply processGuardData_In in H as [k [g [H ->]]]; simpl.
    now destruct (guardMetrics_inv _ _ _ _ H).
  - intros g record; simpl. split; [reflexivity |].
    destruct (JS.str_is (Late_Hours record) "On-time"); simpl; lia.
Qed.

(** The three partial scores are the rationals of the specification. *)
Lemma attendanceScore_spec (g : guard) :
  exists q, attendanceScore g = JS.Fin q
            /\ (q == spec_attendanceScore g.(shifts_onTime)
                       g.(shifts_total))%Q.
Proof.
  unfold attendanceScore, spec_attendanceScore.
  destruct g.(shifts_total) as [| t] eqn:E; simpl Nat.ltb; simpl Nat.eqb;
    cbv iota.
  - eexists; split; reflexivity.
  - rewrite div_of_nat by lia. eexists; split; [reflexivity |].
    change (inject_Z 30) with 30%Q.
    pose proof (@Qnat_pos (S t) ltac:(lia)).
    field. intros Hz; rewrite Hz in H; now apply Qlt_irrefl in H.
Qed.

Lemma activityScore_spec (g : guard) :
  exists q, activityScore g = JS.Fin q
            /\ (q == spec_activityScore g.(activities_onTime)
                       g.(activities_locationAccurate)
                       g.(activities_total))%Q.
Proof.
  unfold activityScore, spec_activityScore.
  destruct g.(activities_total) as [| t] eqn:E; simpl Nat.ltb;
    simpl Nat.eqb; cbv iota.
  - eexists; split; reflexivity.
  - rewrite div_of_nat by lia. eexists; split; [reflexivity |].
    change (inject_Z 40) with 40%Q.
    rewrite Qnat_add, Qnat_double.
    pose proof (@Qnat_pos (S t) ltac:(lia)).
    field. intros Hz; rewrite Hz in H; now apply Qlt_irrefl in H.
Qed.

Lemma coverageScore_spec (g : guard) :
  exists q, coverageScore g = JS.Fin q
            /\ (q == spec_coverageScore (List.length g.(coverage)))%Q.
Proof.
  unfold coverageScore, spec_coverageScore.
  set (n := List.length g.(coverage)).
  assert (JS.div (JS.of_nat n) (JS.of_Z 3) = JS.Fin (Qnat n / 3)) as ->
      by reflexivity.
  unfold JS.mul, JS.of_Z, JS.Math_min, JS.le.
  change (inject_Z 30) with 30%Q.
  destruct (Qle_bool (Qnat n / 3 * 30) 30) eqn:E.
  - eexists; split; [reflexivity |].
    apply Qle_bool_iff in E.
    rewrite Q.min_r; [field | ].
    setoid_replace (30 * Qnat n / 3)%Q with (Qnat n / 3 * 30)%Q by field.
    exact E.
  - eexists; split; [reflexivity |].
    assert (~ (Qnat n / 3 * 30 <= 30)%Q) as Hn.
    { intros H; apply Qle_bool_iff in H; congruence. }
    rewrite Q.min_l; [reflexivity |].
    setoid_replace (30 * Qnat n / 3)%Q with (Qnat n / 3 * 30)%Q by field.
    apply Qnot_le_lt in Hn. now apply Qlt_le_weak.
Qed.

Lemma performanceScore_spec (g : guard) :
  (guard_result g).(metrics).(performanceScore)
  = JS.of_Z (spec_performanceScore g).
Proof.
  unfold guard_result; cbn [metrics performanceScore].
  unfold spec_performanceScore.
  destruct (attendanceScore_spec g) as [qa [-> Ha]].
  destruct (activityScore_spec g) as [qb [-> Hb]].
  destruct (coverageScore_spec g) as [qc [-> Hc]].
  unfold JS.add, JS.Math_round, JS.of_Z, spec_round. do 2 f_equal.
  apply Qfloor_comp. now rewrite Ha, Hb, Hc.
Qed.

(** The entry of one guard evolves by [guard_entry_step] in the attendance
    pass and by [activity_entry_step] in the activity pass. *)
Lemma attendance_step_get (o : Obj.t guard) (record : row) (k : string) :
  Obj.get (attendance_step parseFloat o record) k
  = guard_entry_step parseFloat k (Obj.get o k) record.
Proof.
  unfold attendance_step, guard_entry_step, seeds.
  destruct (JS.truthy (Full_Name record)); simpl; [| reflexivity].
  destruct (JS.truthy (Service_Number record)); simpl; [| reflexivity].
  destruct (String.eqb_spec (text (Service_Number record)) k) as [-> | Hne].
  - now rewrite get_set_same.
  - now rewrite get_set_other.
Qed.

Lemma attendance_pass_get (attendanceData : list row) (k : string) :
  forall o,
    Obj.get (fold_left (attendance_step parseFloat) attendanceData o) k
    = fold_left (guard_entry_step parseFloat k) attendanceData
        (Obj.get o k).
Proof.
  induction attendanceData as [| r l IH]; intros o; simpl; [reflexivity |].
  now rewrite IH, attendance_step_get.
Qed.

Lemma guard_entry_fold (attendanceData : list row) (k : string) :
  forall cur,
    fold_left (guard_entry_step parseFloat k) attendanceData cur
    = match filter (seeds k) attendanceData with
      | [] => cur
      | first :: rest =>
          Some (fold_left (guard_shift parseFloat) (first :: rest)
                  (match cur with
                   | Some g => g
                   | None => new_guard k first
                   end))
      end.
Proof.
  induction attendanceData as [| r l IH]; intros cur; cbn [fold_left filter];
    [reflexivity |].
  rewrite IH. unfold guard_entry_step.
  destruct (seeds k r); [| reflexivity].
  now destruct (filter (seeds k) l).
Qed.

Lemma activity_step_get (o : Obj.t guard) (record : row) (k : string) :
  Obj.get (activity_step parseInt o record) k
  = activity_entry_step parseInt k (Obj.get o k) record.
Proof.
  unfold activity_step, activity_entry_step, for_guard.
  destruct (JS.truthy (Service_Number record)); simpl; [| reflexivity].
  destruct (String.eqb_spec (text (Service_Number record)) k) as [-> | Hne].
  - destruct (Obj.get o k) eqn:E; simpl; [| exact E].
    now rewrite get_set_same.
  - destruct (Obj.get o (text (Service_Number record))); [| reflexivity].
    now rewrite get_set_other.
Qed.

Lemma activity_pass_get (activityData : list row) (k : string) :
  forall o,
    Obj.get (fold_left (activity_step parseInt) activityData o) k
    = fold_left (activity_entry_step parseInt k) activityData (Obj.get o k).
Proof.
  induction activityData as [| r l IH]; intros o; simpl; [reflexivity |].
  now rewrite IH, activity_step_get.
Qed.

Lemma activity_entry_fold (activityData : list row) (k : string) :
  forall cur,
    fold_left (activity_entry_step parseInt k) activityData cur
    = option_map
        (fold_left (guard_activity parseInt)
           (filter (for_guard k) activityData))
        cur.
Proof.
  induction activityData as [| r l IH]; intros cur; cbn [fold_left filter].
  - now destruct cur.
  - rewrite IH. unfold activity_entry_step.
    destruct (for_guard k r); [| reflexivity].
    now destruct cur.
Qed.

Lemma Set_add_In (x y : option string) (s : list (option string)) :
  In y (Obj.Set_add Obj.opt_string_eqb x s) <-> y = x \/ In y s.
Proof.
  unfold Obj.Set_add.
  destruct (existsb (Obj.opt_string_eqb x) s) eqn:E.
  - split; [tauto |]. intros [-> | H]; [| assumption].
    apply existsb_exists in E as [z [Hz Ez]].
    destruct x as [a |], z as [b |]; simpl in Ez; try discriminate;
      [apply String.eqb_eq in Ez; subst |]; assumption.
  - rewrite in_app_iff. simpl. intuition congruence.
Qed.

(** The counters of an entry after a run of attendance rows of its guard,
    and after a run of its activity rows. *)
Lemma guard_shift_fold (rs : list row) :
  forall g,
    let g' := fold_left (guard_shift parseFloat) rs g in
    g'.(id) = g.(id)
    /\ g'.(shifts_total) = g.(shifts_total) + List.length rs
    /\ g'.(shifts_onTime)
       = g.(shifts_onTime) + List.length (filter shift_onTime rs)
    /\ g'.(shifts_late)
       = g.(shifts_late)
         + List.length (filter (fun r => negb (shift_onTime r)) rs)
    /\ g'.(activities_total) = g.(activities_total)
    /\ g'.(activities_onTime) = g.(activities_onTime)
    /\ g'.(activities_locationAccurate) = g.(activities_locationAccurate)
    /\ (forall x, In x g'.(coverage)
                  <-> In x g.(coverage) \/ In x (map Post_Name rs)).
Proof.
  induction rs as [| r rs IH]; intros g; cbn [fold_left].
  - cbn [List.length filter map].
    repeat (split; [solve [reflexivity | lia] |]).
    intros x; simpl; tauto.
  - destruct (IH (guard_shift parseFloat g r))
      as [H1 [H2 [H3 [H4 [H5 [H6 [H7 H8]]]]]]].
    cbv zeta. rewrite H1, H2, H3, H4, H5, H6, H7.
    assert (forall x,
               In x (coverage (fold_left (guard_shift parseFloat) rs
                                 (guard_shift parseFloat g r)))
               <-> In x g.(coverage) \/ In x (map Post_Name (r :: rs)))
      as Hcov.
    { intros x. rewrite H8. cbn [guard_shift coverage].
      rewrite Set_add_In. simpl. intuition auto. }
    cbn [guard_shift id shifts_total shifts_onTime shifts_late
           activities_total activities_onTime activities_locationAccurate
           List.length filter].
    unfold shift_onTime.
    destruct (JS.str_is (Late_Hours r) "On-time");
      cbn [negb b2n List.length];
      repeat (split; [solve [reflexivity | lia] |]); exact Hcov.
Qed.

Lemma guard_activity_fold (rs : list row) :
  forall g,
    let g' := fold_left (guard_activity parseInt) rs g in
    g'.(id) = g.(id)
    /\ g'.(shifts_total) = g.(shifts_total)
    /\ g'.(shifts_onTime) = g.(shifts_onTime)
    /\ g'.(shifts_late) = g.(shifts_late)
    /\ g'.(coverage) = g.(coverage)
    /\ g'.(activities_total) = g.(activities_total) + List.length rs
    /\ g'.(activities_onTime)
       = g.(activities_onTime) + List.length (filter activity_onTime rs)
    /\ g'.(activities_locationAccurate)
       = g.(activities_locationAccurate)
         + List.length (filter (accurate parseInt) rs).
Proof.
  induction rs as [| r rs IH]; intros g; cbn [fold_left].
  - cbn [List.length filter]. repeat split; lia.
  - destruct (IH (guard_activity parseInt g r))
      as [H1 [H2 [H3 [H4 [H5 [H6 [H7 H8]]]]]]].
    cbv zeta. rewrite H1, H2, H3, H4, H5, H6, H7, H8.
    cbn [guard_activity id shifts_total shifts_onTime shifts_late coverage
           activities_total activities_onTime activities_locationAccurate
           List.length filter].
    unfold activity_onTime.
    destruct (JS.str_is (Time_Accuracy r) "On Time");
      destruct (accurate parseInt r);
      cbn [b2n List.length]; repeat split; lia.
Qed.

Lemma guardMetrics_keys (activityData attendanceData : list row) :
  NoDup (map fst (guardMetrics_of parseInt parseFloat
                    activityData attendanceData)).
Proof.
  unfold guardMetrics_of.
  apply (@fold_left_inv _ _ (fun o : Obj.t guard => NoDup (map fst o))).
  - intros o r H. unfold activity_step.
    destruct (negb (JS.truthy (Service_Number r))); [assumption |].
    destruct (Obj.get o (text (Service_Number r))); [| assumption].
    now apply set_keys_NoDup.
  - apply (@fold_left_inv _ _ (fun o : Obj.t guard => NoDup (map fst o))).
    + intros o r H. unfold attendance_step.
      destruct (negb (JS.truthy (Full_Name r))
                || negb (JS.truthy (Service_Number r))); [assumption |].
      now apply set_keys_NoDup.
    + constructor.
Qed.

(** Every entry of [guardMetrics] holds the counts of its own guard. *)
Lemma guardMetrics_entry (activityData attendanceData : list row)
  (k : string) (g : guard) :
  In (k, g) (guardMetrics_of parseInt parseFloat
               activityData attendanceData) ->
  g.(id) = k
  /\ g.(shifts_total) = count (seeds k) attendanceData
  /\ g.(shifts_onTime)
     = count (fun r => seeds k r && shift_onTime r) attendanceData
  /\ g.(shifts_late)
     = count (fun r => seeds k r && negb (shift_onTime r)) attendanceData
  /\ g.(activities_total) = count (for_guard k) activityData
  /\ g.(activities_onTime)
     = count (fun r => for_guard k r && activity_onTime r) activityData
  /\ g.(activities_locationAccurate)
     = count (fun r => for_guard k r && accurate parseInt r) activityData
  /\ (forall x, In x g.(coverage)
                <-> exists r, In r attendanceData /\ seeds k r = true
                              /\ Post_Name r = x).
Proof.
  intros H. apply In_get in H; [| apply guardMetrics_keys].
  unfold guardMetrics_of in H.
  rewrite activity_pass_get, activity_entry_fold, attendance_pass_get,
    guard_entry_fold in H. cbn [Obj.get] in H.
  assert (exists first,
             g = fold_left (guard_activity parseInt)
                   (filter (for_guard k) activityData)
                   (fold_left (guard_shift parseFloat)
                      (filter (seeds k) attendanceData)
                      (new_guard k first))) as [first ->].
  { destruct (filter (seeds k) attendanceData) as [| first rest];
      [discriminate |].
    exists first. cbn [option_map] in H. injection H as <-. reflexivity. }
  destruct (guard_activity_fold (filter (for_guard k) activityData)
              (fold_left (guard_shift parseFloat)
                 (filter (seeds k) attendanceData) (new_guard k first)))
    as [A1 [A2 [A3 [A4 [A5 [A6 [A7 A8]]]]]]].
  destruct (guard_shift_fold (filter (seeds k) attendanceData)
              (new_guard k first))
    as [S1 [S2 [S3 [S4 [S5 [S6 [S7 S8]]]]]]].
  rewrite A1, A2, A3, A4, A5, A6, A7, A8, S1, S2, S3, S4, S5, S6, S7.
  unfold count. rewrite !filter_filter.
  cbn [new_guard id shifts_total shifts_onTime shifts_late
         activities_total activities_onTime activities_locationAccurate].
  repeat (split; [reflexivity |]).
  intros x. rewrite S8. cbn [new_guard coverage]. split.
  - intros [[] | Hx].
    apply in_map_iff in Hx as [r [Er Hr]].
    apply filter_In in Hr as [Hr Hs]. eauto.
  - intros [r [Hr [Hs Er]]]. right.
    apply in_map_iff. exists r. split; [assumption |].
    apply filter_In; auto.
Qed.

(** The keys of [guardMetrics] are the seeded service numbers. *)
Lemma get_set_None (V : Type) (o : Obj.t V) k v k' :
  Obj.get (Obj.set o k v) k' = None <-> Obj.get o k' = None /\ k <> k'.
Proof.
  destruct (string_dec k k') as [<- | Hne].
  - rewrite get_set_same. split; [discriminate | intros [_ H]; now elim H].
  - rewrite get_set_other by assumption. tauto.
Qed.

Lemma attendance_step_keys (o : Obj.t guard) (record : row) k :
  Obj.get (attendance_step parseFloat o record) k = None
  <-> Obj.get o k = None /\ seeds k record = false.
Proof.
  unfold attendance_step, seeds.
  destruct (JS.truthy (Full_Name record)); simpl; [| tauto].
  destruct (JS.truthy (Service_Number record)); simpl; [| tauto].
  rewrite get_set_None.
  destruct (String.eqb_spec (text (Service_Number record)) k); split;
    intros [? ?]; split; congruence.
Qed.

Lemma attendance_pass_keys (attendanceData : list row) k :
  forall o,
    Obj.get (fold_left (attendance_step parseFloat) attendanceData o) k
    = None
    <-> Obj.get o k = None /\ seeded attendanceData k = false.
Proof.
  induction attendanceData as [| r l IH]; intros o; simpl.
  - tauto.
  - rewrite IH, attendance_step_keys, orb_false_iff. tauto.
Qed.

Lemma activity_step_keys (o : Obj.t guard) (record : row) k :
  Obj.get (activity_step parseInt o record) k = None
  <-> Obj.get o k = None.
Proof.
  unfold activity_step.
  destruct (negb (JS.truthy (Service_Number record))); [tauto |].
  destruct (Obj.get o (text (Service_Number record))) eqn:E; [| tauto].
  rewrite get_set_None. split; [tauto |].
  intros H; split; [assumption | congruence].
Qed.

End GuardFacts.

Lemma shifts_onTime_late_total_witness :
  In G1_profile (processGuardData Host.parseInt Host.parseFloat [] G1_rows)
  /\ (G1_profile.(profile_guard).(shifts_onTime)
      + G1_profile.(profile_guard).(shifts_late)
      = G1_profile.(profile_guard).(shifts_total))%nat.
Proof.
  split.
  - left. vm_compute. reflexivity.
  - apply (proj1 (proj2 (shifts_onTime_late_total
                           Host.parseInt Host.parseFloat [] G1_rows))
             G1_profile).
    left. vm_compute. reflexivity.
Defined.

(** *** The location aggregator *)

Section LocationFacts.
Variable parseFloat : string -> JS.number.
Local Open Scope nat_scope.

Lemma location_shift_inv (m : location) (record : row) :
  m.(loc_shifts_covered) <= m.(loc_shifts_total) ->
  m.(loc_shifts_onTime) <= m.(loc_shifts_covered) ->
  location_inv (location_shift parseFloat m record).
Proof.
  intros Hc Ho. unfold location_shift.
  destruct (JS.truthy (Full_Name record)); constructor; simpl; try lia.
  destruct (JS.str_is (Late_Hours record) "On-time"); simpl; lia.
Qed.

Lemma location_step_inv (o : Obj.t location) (record : row) :
  (forall k m, In (k, m) o -> location_inv m) ->
  forall k m, In (k, m) (location_step parseFloat o record) ->
              location_inv m.
Proof.
  intros Ho. unfold location_step.
  destruct (negb (JS.truthy (Post_Name record))); [assumption |].
  intros k m Hin. apply In_set in Hin as [[_ ->] | Hin]; [| eauto].
  destruct (Obj.get o (text (Post_Name record))) as [m0 |] eqn:E.
  - apply get_In in E. destruct (Ho _ _ E).
    now apply location_shift_inv.
  - apply location_shift_inv; simpl; lia.
Qed.

Lemma locationMetrics_inv (data : list row) :
  forall k m, In (k, m) (locationMetrics_of parseFloat data) ->
              location_inv m.
Proof.
  unfold locationMetrics_of.
  apply (@fold_left_inv _ _
           (fun o => forall k m, In (k, m) o -> location_inv m)).
  - apply location_step_inv.
  - intros k m [].
Qed.

Lemma processLocationCoverage_In (data : list row) (p : location_profile) :
  In p (processLocationCoverage parseFloat data) ->
  exists k m,
    In (k, m) (locationMetrics_of parseFloat data)
    /\ p = location_result m.
Proof.
  intros H. unfold processLocationCoverage in H.
  apply Array_sort_In in H.
  apply in_map_iff in H as [m [<- H]].
  apply Object_values_In in H as [k H]. eauto.
Qed.

(** C9.  Every location profile of the output counts at least one shift,
    so the quotient covered / total has a positive divisor: it is not NaN,
    and coverageRate is an integer between 0 and 100. *)
Theorem location_total_positive :
  forall (data : list row) (p : location_profile),
    In p (processLocationCoverage parseFloat data) ->
    let m := p.(profile_location) in
    1 <= m.(loc_shifts_total)
    /\ JS.div (JS.of_nat m.(loc_shifts_covered))
         (JS.of_nat m.(loc_shifts_total))
       = JS.Fin (Qnat m.(loc_shifts_covered) / Qnat m.(loc_shifts_total))
    /\ exists z : Z,
         p.(loc_metrics).(coverageRate) = JS.of_Z z /\ (0 <= z <= 100)%Z.
Proof.
  intros data p H.
  apply processLocationCoverage_In in H as [k [m [H ->]]].
  destruct (locationMetrics_inv _ _ _ H) as [H1 Hc Ho]. simpl.
  split; [assumption |]. split; [now apply div_of_nat |].
  eexists; split; [now apply percent_value |].
  now apply percent_range.
Qed.

(** The entry of one post evolves by [entry_step], whatever happens to
    the other posts. *)
Lemma location_step_get (o : Obj.t location) (record : row) (l : string) :
  Obj.get (location_step parseFloat o record) l
  = entry_step parseFloat l (Obj.get o l) record.
Proof.
  unfold location_step, entry_step, at_post.
  destruct (JS.truthy (Post_Name record)); simpl; [| reflexivity].
  destruct (String.eqb_spec (text (Post_Name record)) l) as [-> | Hne].
  - now rewrite get_set_same.
  - now rewrite get_set_other.
Qed.

Lemma locationMetrics_get (data : list row) (l : string) :
  forall o,
    Obj.get (fold_left (location_step parseFloat) data o) l
    = fold_left (entry_step parseFloat l) data (Obj.get o l).
Proof.
  induction data as [| r data IH]; intros o; simpl; [reflexivity |].
  now rewrite IH, location_step_get.
Qed.

Lemma entry_fold (data : list row) (l : string) :
  forall cur,
    fold_left (entry_step parseFloat l) data cur
    = match filter (at_post l) data with
      | [] => cur
      | _ :: _ =>
          Some (fold_left (location_shift parseFloat)
                  (filter (at_post l) data)
                  (match cur with Some m => m | None => new_location l end))
      end.
Proof.
  induction data as [| r data IH]; intros cur; cbn [fold_left filter];
    [reflexivity |].
  rewrite IH. unfold entry_step.
  destruct (at_post l r); [| reflexivity].
  now destruct (filter (at_post l) data).
Qed.

(** The counters of an entry after a run of rows of its post. *)
Lemma location_shift_fold (rs : list row) :
  forall m,
    let m' := fold_left (location_shift parseFloat) rs m in
    m'.(loc_location) = m.(loc_location)
    /\ m'.(loc_shifts_total) = m.(loc_shifts_total) + List.length rs
    /\ m'.(loc_shifts_covered)
       = m.(loc_shifts_covered)
         + List.length (filter (fun r => JS.truthy (Full_Name r)) rs)
    /\ m'.(loc_shifts_onTime)
       = m.(loc_shifts_onTime)
         + List.length
             (filter (fun r => JS.truthy (Full_Name r)
                               && JS.str_is (Late_Hours r) "On-time") rs)
    /\ m'.(loc_shiftHours)
       = fold_left (add_duty_hours parseFloat)
           (filter (fun r => JS.truthy (Full_Name r)) rs)
           m.(loc_shiftHours).
Proof.
  induction rs as [| r rs IH]; intros m; simpl.
  - repeat split; lia.
  - destruct (IH (location_shift parseFloat m r))
      as [H1 [H2 [H3 [H4 H5]]]].
    rewrite H1, H2, H3, H4, H5. unfold location_shift.
    destruct (JS.truthy (Full_Name r)); simpl;
      [destruct (JS.str_is (Late_Hours r) "On-time"); simpl |];
      repeat split; lia.
Qed.

Lemma locationMetrics_keys (data : list row) :
  NoDup (map fst (locationMetrics_of parseFloat data)).
Proof.
  unfold locationMetrics_of.
  apply (@fold_left_inv _ _ (fun o : Obj.t location => NoDup (map fst o))).
  - intros o r H. unfold location_step.
    destruct (negb (JS.truthy (Post_Name r))); [assumption |].
    now apply set_keys_NoDup.
  - constructor.
Qed.

(** Every entry of [locationMetrics] holds the counts of its own post. *)
Lemma locationMetrics_entry (data : list row) (k : string) (m : location) :
  In (k, m) (locationMetrics_of parseFloat data) ->
  m.(loc_location) = k
  /\ m.(loc_shifts_total) = count (at_post k) data
  /\ m.(loc_shifts_covered) = count (covered_at k) data
  /\ m.(loc_shifts_onTime) = count (onTime_at k) data
  /\ m.(loc_shiftHours)
     = fold_left (add_duty_hours parseFloat)
         (filter (covered_at k) data) (JS.of_Z 0).
Proof.
  intros H. apply In_get in H; [| apply locationMetrics_keys].
  unfold locationMetrics_of in H.
  rewrite locationMetrics_get, entry_fold in H. cbn [Obj.get] in H.
  assert (m = fold_left (location_shift parseFloat)
                (filter (at_post k) data) (new_location k)) as ->.
  { destruct (filter (at_post k) data); [discriminate | now injection H]. }
  destruct (location_shift_fold (filter (at_post k) data) (new_location k))
    as [H1 [H2 [H3 [H4 H5]]]].
  rewrite H1, H2, H3, H4, H5. unfold count, covered_at, onTime_at.
  rewrite !filter_filter. simpl.
  repeat split; try reflexivity.
  f_equal. apply filter_ext. intros a. now rewrite andb_assoc.
Qed.

End LocationFacts.

Lemma location_total_positive_witness :
  In Gate_A_profile (processLocationCoverage Host.parseFloat Gate_A_rows)
  /\ (1 <= Gate_A_profile.(profile_location).(loc_shifts_total))%nat.
Proof.
  split.
  - left. vm_compute. reflexivity.
  - apply (location_total_positive Host.parseFloat Gate_A_rows
             Gate_A_profile).
    left. vm_compute. reflexivity.
Defined.

(** *** The hourly aggregator *)

Lemma strict_eq_NaN (x : JS.number) : JS.strict_eq x JS.NaN = false.
Proof. now destruct x. Qed.

Lemma strict_eq_of_Z (a b : Z) :
  JS.strict_eq (JS.of_Z a) (JS.of_Z b) = Z.eqb a b.
Proof.
  unfold JS.strict_eq, JS.of_Z.
  destruct (Z.eqb_spec a b) as [-> | Hne].
  - apply Qeq_bool_refl.
  - destruct (Qeq_bool (inject_Z a) (inject_Z b)) eqn:E; [| reflexivity].
    apply Qeq_bool_eq in E. elim Hne. now apply inject_Z_injective.
Qed.

(** Two integer hours accept the same bucket only when they are equal. *)
Lemma bucket_of_hour_unique (h k : Z) (b : bucket) :
  bucket_of_hour h b = true -> bucket_of_hour k b = true -> h = k.
Proof.
  unfold bucket_of_hour, JS.strict_eq, JS.of_Z.
  destruct b.(hour) as [| | | q]; try discriminate.
  intros H1 H2. apply Qeq_bool_eq in H1, H2.
  apply inject_Z_injective. now rewrite <- H1, <- H2.
Qed.

Section HourlyFacts.
Variable Date_getHours : string -> option Z.
Variable parseInt : string -> option Z.
Local Open Scope nat_scope.

(** The three behaviours of the callback of [reduce]. *)
Lemma hourly_step_skip (acc : list bucket) (curr : row) :
  has_timestamp curr = false ->
  hourly_step Date_getHours parseInt acc curr = acc.
Proof.
  unfold hourly_step, has_timestamp. now intros ->.
Qed.

Lemma hourly_step_invalid (acc : list bucket) (curr : row) :
  has_timestamp curr = true ->
  row_hour Date_getHours curr = None ->
  hourly_step Date_getHours parseInt acc curr
  = acc ++ [new_bucket parseInt JS.NaN curr].
Proof.
  unfold hourly_step, has_timestamp, row_hour. intros -> ->. simpl.
  assert (find (fun item : bucket => JS.strict_eq item.(hour) JS.NaN) acc
          = None) as ->; [| reflexivity].
  induction acc as [| b acc IH]; simpl; [reflexivity |].
  now rewrite strict_eq_NaN.
Qed.

Lemma hourly_step_valid (acc : list bucket) (curr : row) (k : Z) :
  has_timestamp curr = true ->
  row_hour Date_getHours curr = Some k ->
  hourly_step Date_getHours parseInt acc curr
  = match find (bucket_of_hour k) acc with
    | Some _ =>
        Obj.update_first (bucket_of_hour k) (add_to_bucket parseInt curr) acc
    | None => acc ++ [new_bucket parseInt (JS.of_Z k) curr]
    end.
Proof.
  unfold hourly_step, has_timestamp, row_hour. now intros -> ->.
Qed.

Lemma new_bucket_hour (curr : row) (h k : Z) :
  bucket_of_hour h (new_bucket parseInt (JS.of_Z k) curr) = Z.eqb k h.
Proof. unfold bucket_of_hour, new_bucket, hour. apply strict_eq_of_Z. Qed.

Lemma new_bucket_NaN (curr : row) (h : Z) :
  bucket_of_hour h (new_bucket parseInt JS.NaN curr) = false.
Proof. reflexivity. Qed.

(** The buckets of hour [h] after one more row. *)
Lemma hourly_step_select (acc : list bucket) (curr : row) (h : Z) :
  filter (bucket_of_hour h) (hourly_step Date_getHours parseInt acc curr)
  = if in_hour Date_getHours h curr then
      match filter (bucket_of_hour h) acc with
      | [] => [new_bucket parseInt (JS.of_Z h) curr]
      | b :: rest => add_to_bucket parseInt curr b :: rest
      end
    else filter (bucket_of_hour h) acc.
Proof.
  unfold in_hour.
  destruct (has_timestamp curr) eqn:Ht; simpl;
    [| now rewrite hourly_step_skip].
  destruct (row_hour Date_getHours curr) as [k |] eqn:Hk.
  - rewrite (hourly_step_valid acc Ht Hk).
    destruct (Z.eqb_spec k h) as [-> | Hne].
    + destruct (find (bucket_of_hour h) acc) eqn:Hf.
      * rewrite filter_update_same by (intros; reflexivity).
        destruct (find_some_filter _ _ Hf) as [rest ->]. reflexivity.
      * rewrite filter_app, (find_none_filter _ _ Hf). cbn [filter app].
        now rewrite new_bucket_hour, Z.eqb_refl.
    + destruct (find (bucket_of_hour k) acc) eqn:Hf.
      * apply filter_update_other; [reflexivity |].
        intros x Hx. destruct (bucket_of_hour h x) eqn:Hh; [| reflexivity].
        elim Hne. eapply bucket_of_hour_unique; eassumption.
      * rewrite filter_app. cbn [filter]. rewrite new_bucket_hour.
        destruct (Z.eqb_spec k h); [contradiction |]. apply app_nil_r.
  - rewrite (hourly_step_invalid acc Ht Hk), filter_app. cbn [filter].
    rewrite new_bucket_NaN. apply app_nil_r.
Qed.

Lemma hourlyData_snoc (data : list row) (r : row) :
  hourlyData Date_getHours parseInt (data ++ [r])
  = hourly_step Date_getHours parseInt
      (hourlyData Date_getHours parseInt data) r.
Proof. unfold hourlyData. now rewrite fold_left_app. Qed.

Lemma summary_snoc (rs : list row) (r : row) :
  summary parseInt (rs ++ [r])
  = add4 (summary parseInt rs) (row_counters parseInt r).
Proof.
  unfold summary, row_counters, add4.
  rewrite length_app, !map_app, !list_sum_app. simpl.
  rewrite !Nat.add_0_r. reflexivity.
Qed.

Lemma summary_one (r : row) :
  summary parseInt [r] = row_counters parseInt r.
Proof.
  unfold summary, row_counters. simpl. now rewrite !Nat.add_0_r.
Qed.

(** Before sorting: the buckets of hour [h] are none when no row has this
    hour, and otherwise a single bucket with the counts of these rows. *)
Lemma hourlyData_counters (data : list row) (h : Z) :
  map counters
    (filter (bucket_of_hour h) (hourlyData Date_getHours parseInt data))
  = match filter (in_hour Date_getHours h) data with
    | [] => []
    | _ :: _ => [summary parseInt (filter (in_hour Date_getHours h) data)]
    end.
Proof.
  induction data as [| r data IH] using rev_ind; [reflexivity |].
  rewrite hourlyData_snoc, hourly_step_select, filter_app. cbn [filter].
  destruct (in_hour Date_getHours h r) eqn:E;
    [| now rewrite app_nil_r].
  destruct (filter (bucket_of_hour h)
              (hourlyData Date_getHours parseInt data)) as [| b rest];
    destruct (filter (in_hour Date_getHours h) data) as [| r0 rs];
    try discriminate.
  - cbn [app map]. now rewrite summary_one.
  - cbn [map] in IH.
    assert (counters b = summary parseInt (r0 :: rs)) as Hb by congruence.
    assert (map counters rest = []) as Hrest by congruence.
    cbn [map]. rewrite Hrest.
    change ((r0 :: rs) ++ [r]) with (r0 :: (rs ++ [r])). cbv iota.
    change (r0 :: (rs ++ [r])) with ((r0 :: rs) ++ [r]).
    rewrite summary_snoc, <- Hb. reflexivity.
Qed.

Lemma hourlyData_skip (data : list row) :
  forall acc,
    fold_left (hourly_step Date_getHours parseInt) data acc
    = fold_left (hourly_step Date_getHours parseInt)
        (filter has_timestamp data) acc.
Proof.
  induction data as [| r data IH]; intros acc; simpl; [reflexivity |].
  destruct (has_timestamp r) eqn:E; simpl.
  - apply IH.
  - rewrite hourly_step_skip by exact E. apply IH.
Qed.

(** After sorting, the same holds of the output. *)
Lemma processActivityData_counters (data : list row) (h : Z) :
  map counters
    (filter (bucket_of_hour h)
       (processActivityData Date_getHours parseInt data))
  = match filter (in_hour Date_getHours h) data with
    | [] => []
    | _ :: _ => [summary parseInt (filter (in_hour Date_getHours h) data)]
    end.
Proof.
  assert (Permutation
            (map counters
               (filter (bucket_of_hour h)
                  (hourlyData Date_getHours parseInt data)))
            (map counters
               (filter (bucket_of_hour h)
                  (processActivityData Date_getHours parseInt data))))
    as HP.
  { apply Permutation_map, Permutation_filter, Permutation_sym.
    apply Array_sort_perm. }
  rewrite hourlyData_counters in HP.
  destruct (filter (in_hour Date_getHours h) data).
  - now apply Permutation_nil.
  - now apply Permutation_length_1_inv.
Qed.

Lemma one_bucket_per_hour (data : list row) (h : Z) :
  List.length
    (filter (bucket_of_hour h)
       (processActivityData Date_getHours parseInt data)) <= 1.
Proof.
  rewrite <- (length_map counters), processActivityData_counters.
  destruct (filter (in_hour Date_getHours h) data); simpl; lia.
Qed.

(** C6.  A row without a timestamp (the cell absent or empty) contributes
    to no bucket: the output is that of the rows that have one.  Every row
    whose timestamp parses contributes to the bucket of its hour and to no
    other: for each hour, the output has no bucket when no row is of that
    hour, and otherwise exactly one, whose counters are the counts over
    the rows of that hour. *)
Theorem rows_contribute_to_their_hour :
  forall (data : list row),
    processActivityData Date_getHours parseInt data
    = processActivityData Date_getHours parseInt
        (filter has_timestamp data)
    /\ forall h : Z,
         map counters
           (filter (bucket_of_hour h)
              (processActivityData Date_getHours parseInt data))
         = match filter (in_hour Date_getHours h) data with
           | [] => []
           | _ :: _ =>
               [summary parseInt (filter (in_hour Date_getHours h) data)]
           end.
Proof.
  intros data. split.
  - unfold processActivityData, hourlyData. now rewrite hourlyData_skip.
  - intros h. apply processActivityData_counters.
Qed.

(** With parseable rows every hour of the accumulator is an integer. *)
Lemma Forall_update_first (A : Type) (P : A -> Prop) (q : A -> bool)
  (f : A -> A) (l : list A) :
  (forall x, P x -> P (f x)) ->
  Forall P l -> Forall P (Obj.update_first q f l).
Proof.
  intros Hf. induction 1 as [| x l Hx Hl IH]; simpl; [constructor |].
  destruct (q x); constructor; auto.
Qed.

Lemma new_bucket_integer (curr : row) (k : Z) :
  integer_hour (new_bucket parseInt (JS.of_Z k) curr).
Proof.
  unfold integer_hour, hour_key, new_bucket, hour, JS.of_Z.
  now rewrite Qfloor_Z.
Qed.

Lemma hourly_step_integer (acc : list bucket) (curr : row) :
  parseable Date_getHours curr = true ->
  Forall integer_hour acc ->
  Forall integer_hour (hourly_step Date_getHours parseInt acc curr).
Proof.
  unfold parseable. intros Hp Hacc.
  destruct (has_timestamp curr) eqn:Ht; simpl in Hp;
    [| now rewrite hourly_step_skip].
  destruct (row_hour Date_getHours curr) as [k |] eqn:Hk; [| discriminate].
  rewrite (hourly_step_valid acc Ht Hk).
  destruct (find (bucket_of_hour k) acc).
  - apply Forall_update_first; [| assumption].
    intros x Hx. exact Hx.
  - apply Forall_app; split; [assumption |].
    constructor; [apply new_bucket_integer | constructor].
Qed.

Lemma hourlyData_integer (data : list row) :
  forallb (parseable Date_getHours) data = true ->
  forall acc,
    Forall integer_hour acc ->
    Forall integer_hour
      (fold_left (hourly_step Date_getHours parseInt) data acc).
Proof.
  induction data as [| r data IH]; simpl; intros Hp acc Hacc; [assumption |].
  apply andb_prop in Hp as [Hr Hp].
  apply IH; [assumption |]. now apply hourly_step_integer.
Qed.

End HourlyFacts.

(** Sorting integer hours with [(a, b) => a.hour - b.hour]. *)
Lemma by_hour_integer (a b : bucket) :
  integer_hour a -> integer_hour b ->
  Obj.cmp_le0 (JS.sub a.(hour) b.(hour)) = (hour_key a <=? hour_key b)%Z.
Proof.
  unfold integer_hour. intros -> ->.
  unfold JS.sub, JS.of_Z, Obj.cmp_le0.
  destruct (Z.leb_spec (hour_key a) (hour_key b)) as [H | H].
  - apply Qle_bool_iff. rewrite Zle_Qle in H. lra.
  - destruct (Qle_bool (inject_Z (hour_key a) - inject_Z (hour_key b)) 0)
      eqn:E; [| reflexivity].
    apply Qle_bool_iff in E. rewrite Zlt_Qlt in H. lra.
Qed.

Lemma lt_integer (a b : bucket) :
  integer_hour a -> integer_hour b ->
  (hour_key a < hour_key b)%Z -> JS.lt a.(hour) b.(hour) = true.
Proof.
  unfold integer_hour. intros -> -> H. unfold JS.lt, JS.of_Z.
  destruct (Qle_bool (inject_Z (hour_key b)) (inject_Z (hour_key a))) eqn:E;
    [| reflexivity].
  apply Qle_bool_iff in E. rewrite <- Zle_Qle in E. lia.
Qed.

Lemma lt_irrefl (x : JS.number) : JS.lt x x = false.
Proof.
  destruct x as [| | | q]; simpl; try reflexivity.
  apply negb_false_iff, Qle_bool_iff, Qle_refl.
Qed.

Lemma sort_insert_sorted (x : bucket) (l : list bucket) :
  integer_hour x -> Forall integer_hour l ->
  StronglySorted key_le l ->
  StronglySorted key_le
    (Obj.sort_insert (fun a b => JS.sub a.(hour) b.(hour)) x l).
Proof.
  intros Hx Hl Hs. induction Hs as [| y l Hs IH Hy]; simpl.
  - repeat constructor.
  - inversion Hl as [| ? ? Hyi Hli]; subst.
    rewrite (by_hour_integer Hx Hyi).
    destruct (Z.leb_spec (hour_key x) (hour_key y)) as [H | H].
    + constructor; [now constructor |].
      constructor; [exact H |].
      eapply Forall_impl; [| exact Hy]. unfold key_le; intros; lia.
    + constructor; [now apply IH |].
      rewrite Forall_forall in *. intros z Hz.
      apply (Permutation_in _ (sort_insert_perm _ x l)) in Hz.
      destruct Hz as [<- | Hz]; [unfold key_le; lia | auto].
Qed.

Lemma Array_sort_sorted (l : list bucket) :
  Forall integer_hour l ->
  StronglySorted key_le
    (Obj.Array_sort (fun a b => JS.sub a.(hour) b.(hour)) l).
Proof.
  induction 1 as [| x l Hx Hl IH]; simpl; [constructor |].
  apply sort_insert_sorted; [assumption | | assumption].
  rewrite Forall_forall in *. intros y Hy. apply Hl.
  now apply Array_sort_In in Hy.
Qed.

Lemma bucket_of_hour_integer (h : Z) (b : bucket) :
  integer_hour b -> bucket_of_hour h b = Z.eqb (hour_key b) h.
Proof.
  unfold integer_hour, bucket_of_hour. intros H.
  rewrite H at 1. apply strict_eq_of_Z.
Qed.

(** Sorted integer hours without a repeated hour are strictly ascending. *)
Lemma sorted_strict (l : list bucket) :
  StronglySorted key_le l ->
  Forall integer_hour l ->
  (forall h, (List.length (filter (bucket_of_hour h) l) <= 1)%nat) ->
  ascending l.
Proof.
  unfold ascending.
  induction 1 as [| x l Hs IH Hx]; intros Hi Hu; [constructor |].
  inversion Hi as [| ? ? Hxi Hli]; subst.
  assert (bucket_of_hour (hour_key x) x = true) as Hxx.
  { rewrite bucket_of_hour_integer by assumption. apply Z.eqb_refl. }
  constructor.
  - apply IH; [assumption |].
    intros h. specialize (Hu h). simpl in Hu.
    destruct (bucket_of_hour h x); simpl in Hu; lia.
  - rewrite Forall_forall in *. intros y Hy.
    apply lt_integer; [assumption | now apply Hli |].
    specialize (Hx _ Hy). unfold key_le in Hx.
    destruct (Z.eq_dec (hour_key x) (hour_key y)) as [E | E]; [| lia].
    exfalso. specialize (Hu (hour_key x)). simpl in Hu. rewrite Hxx in Hu.
    assert (bucket_of_hour (hour_key x) y = true) as Hyy.
    { rewrite bucket_of_hour_integer by auto. now apply Z.eqb_eq. }
    pose proof (filter_In_length _ _ _ Hy Hyy). simpl in Hu. lia.
Qed.

Lemma ascending_NoDup (l : list bucket) : ascending l -> NoDup (map hour l).
Proof.
  unfold ascending. induction 1 as [| x l Hs IH Hx]; simpl; constructor; auto.
  intros Hin. apply in_map_iff in Hin as [y [E Hy]].
  rewrite Forall_forall in Hx. specialize (Hx _ Hy).
  rewrite E, lt_irrefl in Hx. discriminate.
Qed.

(** The two dashboards build buckets for the same hours, in the same
    order. *)
Section SameHours.
Variable Date_getHours : string -> option Z.
Variable parseInt : string -> option Z.

Lemma find_same_hour (h : JS.number) (acc : list bucket)
  (acc' : list App.bucket) :
  Forall2 same_hour acc acc' ->
  (find (fun item => JS.strict_eq item.(hour) h) acc = None
   <-> find (fun item => JS.strict_eq item.(App.hour) h) acc' = None).
Proof.
  induction 1 as [| b b' acc acc' Hb Hacc IH]; simpl; [tauto |].
  unfold same_hour in Hb. rewrite <- Hb.
  destruct (JS.strict_eq b.(hour) h); [| exact IH].
  split; discriminate.
Qed.

Lemma update_same_hour (h : JS.number) (curr : row) (acc : list bucket)
  (acc' : list App.bucket) :
  Forall2 same_hour acc acc' ->
  Forall2 same_hour
    (Obj.update_first (fun item => JS.strict_eq item.(hour) h)
       (add_to_bucket parseInt curr) acc)
    (Obj.update_first (fun item => JS.strict_eq item.(App.hour) h)
       (App.add_to_bucket curr) acc').
Proof.
  induction 1 as [| b b' acc acc' Hb Hacc IH]; simpl; [constructor |].
  unfold same_hour in Hb. rewrite <- Hb.
  destruct (JS.strict_eq b.(hour) h); constructor; auto.
Qed.

Lemma hourly_step_same_hour (curr : row) (acc : list bucket)
  (acc' : list App.bucket) :
  Forall2 same_hour acc acc' ->
  Forall2 same_hour
    (hourly_step Date_getHours parseInt acc curr)
    (App.hourly_step Date_getHours acc' curr).
Proof.
  intros H. unfold hourly_step, App.hourly_step.
  destruct (negb (JS.truthy (Date_Time curr))); [assumption |].
  cbv zeta.
  set (h := int_or_NaN (Date_getHours (text (Date_Time curr)))).
  pose proof (find_same_hour h H) as Hfind.
  destruct (find (fun item => JS.strict_eq item.(hour) h) acc) eqn:E;
    destruct (find (fun item => JS.strict_eq item.(App.hour) h) acc') eqn:E'.
  - now apply update_same_hour.
  - destruct Hfind as [_ Hf]. discriminate (Hf eq_refl).
  - destruct Hfind as [Hf _]. discriminate (Hf eq_refl).
  - apply Forall2_app; [assumption |]. repeat constructor.
Qed.

Lemma hourlyData_same_hour (data : list row) :
  forall acc acc',
    Forall2 same_hour acc acc' ->
    Forall2 same_hour
      (fold_left (hourly_step Date_getHours parseInt) data acc)
      (fold_left (App.hourly_step Date_getHours) data acc').
Proof.
  induction data as [| r data IH]; simpl; intros acc acc' H; [assumption |].
  apply IH. now apply hourly_step_same_hour.
Qed.

Lemma sort_insert_same_hour (b : bucket) (b' : App.bucket)
  (l : list bucket) (l' : list App.bucket) :
  same_hour b b' -> Forall2 same_hour l l' ->
  Forall2 same_hour
    (Obj.sort_insert (fun x y => JS.sub x.(hour) y.(hour)) b l)
    (Obj.sort_insert (fun x y => JS.sub x.(App.hour) y.(App.hour)) b' l').
Proof.
  intros Hb. induction 1 as [| c c' l l' Hc Hl IH]; simpl.
  - repeat constructor; assumption.
  - unfold same_hour in Hb, Hc. rewrite <- Hb, <- Hc.
    destruct (Obj.cmp_le0 (JS.sub b.(hour) c.(hour)));
      repeat constructor; assumption.
Qed.

Lemma Array_sort_same_hour (l : list bucket) (l' : list App.bucket) :
  Forall2 same_hour l l' ->
  Forall2 same_hour
    (Obj.Array_sort (fun x y => JS.sub x.(hour) y.(hour)) l)
    (Obj.Array_sort (fun x y => JS.sub x.(App.hour) y.(App.hour)) l').
Proof.
  induction 1 as [| b b' l l' Hb Hl IH]; simpl; [constructor |].
  now apply sort_insert_same_hour.
Qed.

Lemma processActivityData_same_hours (data : list row) :
  map App.hour (App.processActivityData Date_getHours data)
  = map hour (processActivityData Date_getHours parseInt data).
Proof.
  assert (Forall2 same_hour
            (processActivityData Date_getHours parseInt data)
            (App.processActivityData Date_getHours data)) as H.
  { apply Array_sort_same_hour, hourlyData_same_hour. constructor. }
  induction H as [| b b' l l' Hb Hl IH]; simpl; [reflexivity |].
  unfold same_hour in Hb. now rewrite Hb, IH.
Qed.

End SameHours.

Lemma ascending_map (l : list bucket) :
  ascending l <-> ascending_hours (map hour l).
Proof.
  unfold ascending, ascending_hours. split.
  - induction 1 as [| b l Hs IH Hb]; simpl; constructor; auto.
    now apply Forall_map.
  - induction l as [| b l IH]; simpl; intros H; [constructor |].
    inversion H as [| ? ? Hs Hb]; subst.
    constructor; [auto | now apply Forall_map in Hb].
Qed.

(** C5.  When every timestamp that is present parses, the hourly buckets
    come out in strictly ascending order of their hour, with at most one
    bucket for an hour and no hour repeated; this holds of the aggregator
    of either dashboard. *)
Theorem hourly_buckets_ascending :
  forall (Date_getHours parseInt : string -> option Z) (data : list row),
    forallb (parseable Date_getHours) data = true ->
    let out := processActivityData Date_getHours parseInt data in
    let out' := App.processActivityData Date_getHours data in
    (ascending out
     /\ (forall h : Z,
            (List.length (filter (bucket_of_hour h) out) <= 1)%nat)
     /\ NoDup (map hour out))
    /\ (ascending_hours (map App.hour out') /\ NoDup (map App.hour out')).
Proof.
  intros Date_getHours parseInt data Hp out out'.
  assert (ascending out) as Ha.
  { apply sorted_strict.
    - apply Array_sort_sorted.
      apply hourlyData_integer; [assumption | constructor].
    - rewrite Forall_forall. intros b Hb. apply Array_sort_In in Hb.
      revert b Hb. rewrite <- Forall_forall.
      apply hourlyData_integer; [assumption | constructor].
    - intros h. apply one_bucket_per_hour. }
  split; [split; [assumption | split] |].
  - intros h. apply one_bucket_per_hour.
  - now apply ascending_NoDup.
  - unfold out'. rewrite (processActivityData_same_hours _ parseInt).
    split; [now apply ascending_map | now apply ascending_NoDup].
Qed.

Lemma hourly_buckets_ascending_witness :
  forallb (parseable Host.getHours) valid_rows = true
  /\ ascending (processActivityData Host.getHours Host.parseInt valid_rows)
  /\ ascending_hours
       (map App.hour (App.processActivityData Host.getHours valid_rows)).
Proof.
  split; [reflexivity |].
  pose proof (hourly_buckets_ascending Host.getHours Host.parseInt valid_rows
                eq_refl) as H.
  split; [exact (proj1 (proj1 H)) | exact (proj1 (proj2 H))].
Defined.

(** The claim C5 as stated fails: with one timestamp that does not parse,
    the output holds a bucket whose hour is NaN beside the bucket of hour 8,
    and neither order of the two is ascending; the same happens in the
    other dashboard. *)
Lemma hourly_buckets_not_ascending :
  processActivityData Host.getHours Host.parseInt mixed_rows
  = [mkBucket JS.NaN 1 1 0 0 (JS.of_Z 50);
     mkBucket (JS.of_Z 8) 1 1 0 0 (JS.of_Z 50)]
  /\ App.processActivityData Host.getHours mixed_rows
     = [App.mkBucket JS.NaN 1 0 0; App.mkBucket (JS.of_Z 8) 1 0 0]
  /\ ~ ascending (processActivityData Host.getHours Host.parseInt mixed_rows)
  /\ ~ ascending
        (rev (processActivityData Host.getHours Host.parseInt mixed_rows)).
Proof.
  split; [vm_compute; reflexivity |].
  split; [vm_compute; reflexivity |].
  assert (processActivityData Host.getHours Host.parseInt mixed_rows
          = [mkBucket JS.NaN 1 1 0 0 (JS.of_Z 50);
             mkBucket (JS.of_Z 8) 1 1 0 0 (JS.of_Z 50)]) as E
      by (vm_compute; reflexivity).
  rewrite E.
  split; intros H; inversion H as [| ? ? _ HF]; subst;
    inversion HF as [| ? ? Hlt _]; discriminate Hlt.
Qed.

(** The claim C6 as stated fails: a row whose timestamp is present but does
    not parse is not skipped, it opens a bucket of its own. *)
Lemma invalid_timestamp_opens_a_bucket :
  has_timestamp undated_row = true
  /\ row_hour Host.getHours undated_row = None
  /\ processActivityData Host.getHours Host.parseInt [undated_row]
     = [mkBucket JS.NaN 1 1 0 0 (JS.of_Z 50)]
  /\ processActivityData Host.getHours Host.parseInt [undated_row]
     <> processActivityData Host.getHours Host.parseInt [].
Proof.
  repeat split; try (vm_compute; reflexivity).
  vm_compute. discriminate.
Qed.

(** *** The compliance evaluator and the range of the rates *)

Lemma b2n_le_1 (b : bool) : (b2n b <= 1)%nat.
Proof. destruct b; simpl; lia. Qed.

Lemma in_0_100_percent (a b : nat) :
  (a <= b)%nat -> (0 < b)%nat ->
  in_0_100
    (JS.Math_round (JS.mul (JS.div (JS.of_nat a) (JS.of_nat b)) (JS.of_Z 100)))
  = true.
Proof.
  intros Hab Hb. rewrite percent_value by assumption.
  apply in_0_100_of_Z. now apply percent_range.
Qed.

Lemma tally_locations (locations : list location_profile) :
  forall m,
    let m' := fold_left tally_location (map location_checks locations) m in
    (m.(passedChecks) <= m.(totalChecks) ->
     m'.(passedChecks) <= m'.(totalChecks))%nat
    /\ (m'.(totalChecks) = m.(totalChecks) + 3 * List.length locations)%nat.
Proof.
  induction locations as [| l ls IH]; intros m; simpl; [lia |].
  destruct (IH (tally_location m (location_checks l))) as [H1 H2].
  split.
  - intros H. apply H1. unfold tally_location, tally, location_checks.
    cbn [passedChecks totalChecks lc_coverageCompliance
           lc_punctualityCompliance lc_staffingCompliance].
    pose proof (b2n_le_1 (JS.ge l.(loc_metrics).(coverageRate) (JS.of_Z 95))).
    pose proof (b2n_le_1 (JS.ge l.(loc_metrics).(punctualityRate)
                            (JS.of_Z 90))).
    pose proof (b2n_le_1 (JS.ge (to_number l.(loc_metrics).(guardCount))
                            (JS.of_Z 2))).
    lia.
  - rewrite H2. unfold tally_location, tally. cbn [totalChecks List.length].
    lia.
Qed.

Lemma tally_guards (guards : list guard_profile) :
  forall m,
    let m' := fold_left tally_guard (map guard_checks guards) m in
    (m.(passedChecks) <= m.(totalChecks) ->
     m'.(passedChecks) <= m'.(totalChecks))%nat
    /\ (m'.(totalChecks) = m.(totalChecks) + 3 * List.length guards)%nat.
Proof.
  induction guards as [| g gs IH]; intros m; simpl; [lia |].
  destruct (IH (tally_guard m (guard_checks g))) as [H1 H2].
  split.
  - intros H. apply H1. unfold tally_guard, tally, guard_checks.
    cbn [passedChecks totalChecks gc_attendanceCompliance
           gc_activityCompliance gc_coverageCompliance].
    pose proof (b2n_le_1 (JS.ge g.(metrics).(attendanceRate) (JS.of_Z 95))).
    pose proof (b2n_le_1 (JS.ge g.(metrics).(activityComplianceRate)
                            (JS.of_Z 90))).
    pose proof (b2n_le_1 (JS.ge (JS.of_nat g.(metrics).(coverageCount))
                            (JS.of_Z 1))).
    lia.
  - rewrite H2. unfold tally_guard, tally. cbn [totalChecks List.length].
    lia.
Qed.

(** With at least one profile the overall value is in range; without any
    it is NaN. *)
Lemma overall_in_range (activities : list bucket)
  (locations : list location_profile) (guards : list guard_profile) :
  (0 < List.length locations + List.length guards)%nat ->
  in_0_100 (overall (calculateComplianceMetrics activities locations guards))
  = true.
Proof.
  intros Hn. unfold calculateComplianceMetrics; cbn [overall].
  destruct (tally_locations locations (mkOverall 0 0)) as [L1 L2].
  destruct (tally_guards guards
              (fold_left tally_location (map location_checks locations)
                 (mkOverall 0 0))) as [G1 G2].
  simpl in L1, L2.
  apply in_0_100_percent.
  - apply G1, L1. lia.
  - rewrite G2, L2. lia.
Qed.

Lemma spec_scores_bounds (g : guard) :
  guard_inv g ->
  (0 <= spec_attendanceScore g.(shifts_onTime) g.(shifts_total) <= 30
   /\ 0 <= spec_activityScore g.(activities_onTime)
             g.(activities_locationAccurate) g.(activities_total) <= 40
   /\ 0 <= spec_coverageScore (List.length g.(coverage)) <= 30)%Q.
Proof.
  intros [Hs H1 Ho Ha Hd Hc]. split; [| split].
  - unfold spec_attendanceScore.
    destruct (Nat.eqb_spec g.(shifts_total) 0) as [E | E]; [lra |].
    destruct (@scaled_ratio_bounds g.(shifts_onTime) g.(shifts_total) 30)
      as [B0 B1]; [lia | lia | lra |].
    setoid_replace (30 * Qnat (shifts_onTime g) / Qnat (shifts_total g))%Q
      with (Qnat (shifts_onTime g) / Qnat (shifts_total g) * 30)%Q;
      [split; assumption |].
    field. pose proof (@Qnat_pos g.(shifts_total) ltac:(lia)) as Hp.
    intros Hz; rewrite Hz in Hp; now apply Qlt_irrefl in Hp.
  - unfold spec_activityScore.
    destruct (Nat.eqb_spec g.(activities_total) 0) as [E | E]; [lra |].
    destruct (@scaled_ratio_bounds
                (g.(activities_onTime) + g.(activities_locationAccurate))
                (2 * g.(activities_total)) 40)
      as [B0 B1]; [lia | lia | lra |].
    rewrite Qnat_add, Qnat_double in B0, B1.
    setoid_replace
      (40 * (Qnat (activities_onTime g)
             + Qnat (activities_locationAccurate g))
       / (2 * Qnat (activities_total g)))%Q
      with ((Qnat (activities_onTime g)
             + Qnat (activities_locationAccurate g))
            / (2 * Qnat (activities_total g)) * 40)%Q;
      [split; assumption |].
    field. pose proof (@Qnat_pos g.(activities_total) ltac:(lia)) as Hp.
    intros Hz; rewrite Hz in Hp; now apply Qlt_irrefl in Hp.
  - unfold spec_coverageScore. split.
    + apply Q.min_glb; [lra |].
      pose proof (Qnat_nonneg (List.length g.(coverage))).
      apply Qle_shift_div_l; lra.
    + apply Q.le_min_l.
Qed.

(** Every rate of a profile lies between 0 and 100, for every input; so
    does the overall value as soon as there is a profile. *)
Theorem rates_in_range :
  forall (Date_getHours parseInt : string -> option Z)
         (parseFloat : string -> JS.number)
         (activityData attendanceData : list row),
    (forall p,
        In p (processLocationCoverage parseFloat attendanceData) ->
        in_0_100 p.(loc_metrics).(coverageRate) = true
        /\ in_0_100 p.(loc_metrics).(punctualityRate) = true)
    /\ (forall p,
           In p (processGuardData parseInt parseFloat
                   activityData attendanceData) ->
           in_0_100 p.(metrics).(attendanceRate) = true
           /\ in_0_100 p.(metrics).(activityComplianceRate) = true
           /\ in_0_100 p.(metrics).(performanceScore) = true)
    /\ (processLocationCoverage parseFloat attendanceData <> []
        \/ processGuardData parseInt parseFloat activityData attendanceData
           <> [] ->
        in_0_100
          (overall (dashboard Date_getHours parseInt parseFloat
                      activityData attendanceData)) = true).
Proof.
  intros Date_getHours parseInt parseFloat activityData attendanceData.
  split; [| split].
  - intros p H.
    apply processLocationCoverage_In in H as [k [m [H ->]]].
    apply locationMetrics_inv in H. destruct H as [H1 Hc Ho]. simpl. split.
    + now apply in_0_100_percent.
    + destruct (Nat.ltb_spec 0 m.(loc_shifts_covered)); [| reflexivity].
      now apply in_0_100_percent.
  - intros p H.
    apply processGuardData_In in H as [k [g [H ->]]].
    apply guardMetrics_inv in H. destruct H as [Hs H1 Ho Ha Hd Hc].
    split; [| split].
    + simpl. destruct (Nat.ltb_spec 0 g.(shifts_total)); [| reflexivity].
      apply in_0_100_percent; lia.
    + simpl. destruct (Nat.ltb_spec 0 g.(activities_total)); [| reflexivity].
      unfold rate2. apply in_0_100_percent; lia.
    + rewrite performanceScore_spec. apply in_0_100_of_Z.
      unfold spec_performanceScore.
      destruct (@spec_scores_bounds g) as [[A0 A1] [[B0 B1] [C0 C1]]].
      { constructor; assumption. }
      apply spec_round_bounds;
        [change (inject_Z 0) with 0%Q | change (inject_Z 100) with 100%Q];
        lra.
  - intros Hne. unfold dashboard. apply overall_in_range.
    destruct Hne as [Hne | Hne];
      [destruct (processLocationCoverage parseFloat attendanceData)
      | destruct (processGuardData parseInt parseFloat
                    activityData attendanceData)];
      try congruence; simpl; lia.
Qed.

(** ** Further properties of the aggregation functions *)

(** *** The order of the profile lists *)

Lemma integer_of_Z (z : Z) : integer (JS.of_Z z).
Proof. unfold integer, number_key, JS.of_Z. now rewrite Qfloor_Z. Qed.

Lemma le_integer (x y : JS.number) :
  integer x -> integer y ->
  JS.le x y = (number_key x <=? number_key y)%Z.
Proof.
  unfold integer. intros Hx Hy. rewrite Hx, Hy at 1.
  unfold JS.le, JS.of_Z.
  destruct (Z.leb_spec (number_key x) (number_key y)) as [H | H].
  - apply Qle_bool_iff. now rewrite <- Zle_Qle.
  - destruct (Qle_bool (inject_Z (number_key x)) (inject_Z (number_key y)))
      eqn:E; [| reflexivity].
    apply Qle_bool_iff in E. rewrite <- Zle_Qle in E. lia.
Qed.

Section SortDescending.
Variable A : Type.
Variable num : A -> JS.number.

Lemma descending_cmp (a b : A) :
  integer (num a) -> integer (num b) ->
  Obj.cmp_le0 (JS.sub (num b) (num a))
  = (number_key (num b) <=? number_key (num a))%Z.
Proof.
  unfold integer. intros Ha Hb. rewrite Ha, Hb at 1.
  unfold JS.sub, JS.of_Z, Obj.cmp_le0.
  destruct (Z.leb_spec (number_key (num b)) (number_key (num a))) as [H | H].
  - apply Qle_bool_iff. rewrite Zle_Qle in H. lra.
  - match goal with |- Qle_bool ?q 0 = false =>
      destruct (Qle_bool q 0) eqn:E; [| reflexivity] end.
    apply Qle_bool_iff in E. rewrite Zlt_Qlt in H. lra.
Qed.

Lemma sort_insert_descending (x : A) (l : list A) :
  integer (num x) -> Forall (fun a => integer (num a)) l ->
  StronglySorted (key_ge num) l ->
  StronglySorted (key_ge num)
    (Obj.sort_insert (fun a b => JS.sub (num b) (num a)) x l).
Proof.
  intros Hx Hl Hs. induction Hs as [| y l Hs IH Hy]; simpl.
  - repeat constructor.
  - inversion Hl as [| ? ? Hyi Hli]; subst.
    rewrite (descending_cmp Hx Hyi).
    destruct (Z.leb_spec (number_key (num y)) (number_key (num x)))
      as [H | H].
    + constructor; [now constructor |].
      constructor; [exact H |].
      eapply Forall_impl; [| exact Hy]. unfold key_ge; intros; lia.
    + constructor; [now apply IH |].
      rewrite Forall_forall in *. intros z Hz.
      apply (Permutation_in _ (sort_insert_perm _ x l)) in Hz.
      destruct Hz as [<- | Hz]; [unfold key_ge; lia | auto].
Qed.

(** Sorting integers with [(a, b) => b.key - a.key] leaves no element
    before a larger one. *)
Lemma Array_sort_descending (l : list A) :
  Forall (fun a => integer (num a)) l ->
  StronglySorted (fun a b => JS.le (num b) (num a) = true)
    (Obj.Array_sort (fun a b => JS.sub (num b) (num a)) l).
Proof.
  intros Hl.
  assert (Forall (fun a => integer (num a))
            (Obj.Array_sort (fun a b => JS.sub (num b) (num a)) l)) as Hi.
  { rewrite Forall_forall in *. intros a Ha. apply Hl.
    now apply Array_sort_In in Ha. }
  assert (StronglySorted (key_ge num)
            (Obj.Array_sort (fun a b => JS.sub (num b) (num a)) l)) as Hs.
  { clear Hi. induction Hl as [| x l Hx Hl IH]; simpl; [constructor |].
    apply sort_insert_descending; [assumption | | assumption].
    rewrite Forall_forall in *. intros y Hy. apply Hl.
    now apply Array_sort_In in Hy. }
  induction Hs as [| x s Hs IH Hx]; [constructor |].
  inversion Hi as [| ? ? Hxi Hsi]; subst.
  constructor; [now apply IH |].
  rewrite Forall_forall in *. intros y Hy.
  rewrite le_integer by auto. apply Z.leb_le. now apply Hx.
Qed.

End SortDescending.






(** *** The keys of the two dictionaries *)

Lemma keys_get (V : Type) (o : Obj.t V) (k : string) :
  In k (map fst o) <-> Obj.get o k <> None.
Proof.
  induction o as [| [k0 v0] o IH]; simpl.
  - split; [contradiction | intros H; now elim H].
  - destruct (String.eqb_spec k0 k) as [-> | Hne].
    + split; [discriminate | auto].
    + rewrite <- IH. split; [intros [E | H]; [contradiction | exact H] | auto].
Qed.

Lemma guardMetrics_get_None (parseInt : string -> option Z)
  (parseFloat : string -> JS.number) (activityData attendanceData : list row)
  (k : string) :
  Obj.get (guardMetrics_of parseInt parseFloat activityData attendanceData) k
  = None
  <-> seeded attendanceData k = false.
Proof.
  unfold guardMetrics_of.
  assert (forall l o,
             Obj.get (fold_left (activity_step parseInt) l o) k = None
             <-> Obj.get o k = None) as Hact.
  { induction l as [| r l IH]; intros o; simpl; [tauto |].
    now rewrite IH, (activity_step_keys parseInt parseFloat). }
  rewrite Hact, (attendance_pass_keys parseInt parseFloat). simpl.
  intuition auto.
Qed.

Lemma locationMetrics_get_None (parseFloat : string -> JS.number)
  (data : list row) (l : string) :
  Obj.get (locationMetrics_of parseFloat data) l = None
  <-> posted data l = false.
Proof.
  unfold locationMetrics_of, posted.
  rewrite locationMetrics_get, entry_fold. cbn [Obj.get].
  induction data as [| r data IH]; simpl; [tauto |].
  destruct (at_post l r); simpl; [split; discriminate | exact IH].
Qed.

(** *** The hourly buckets: counts and invariants *)

Lemma list_sum_perm (l l' : list nat) :
  Permutation l l' -> list_sum l = list_sum l'.
Proof.
  induction 1 as [| x l l' _ IH | x y l | l l' l'' _ IH1 _ IH2]; simpl; lia.
Qed.

Lemma sum_update_first (A : Type) (f : A -> nat) (p : A -> bool)
  (g : A -> A) (d : nat) (l : list A) :
  (forall x, f (g x) = (f x + d)%nat) ->
  find p l <> None ->
  list_sum (map f (Obj.update_first p g l)) = (list_sum (map f l) + d)%nat.
Proof.
  intros Hg. induction l as [| x l IH]; simpl; intros Hf; [now elim Hf |].
  destruct (p x); simpl; [rewrite Hg; lia |].
  rewrite IH by assumption. lia.
Qed.

Section HourlyCounts.
Variable Date_getHours : string -> option Z.
Variable parseInt : string -> option Z.
Local Open Scope nat_scope.

Lemma hourly_step_total (acc : list bucket) (curr : row) :
  list_sum (map total (hourly_step Date_getHours parseInt acc curr))
  = list_sum (map total acc) + b2n (has_timestamp curr).
Proof.
  unfold hourly_step, has_timestamp.
  destruct (JS.truthy (Date_Time curr)); simpl; [| lia].
  match goal with |- context [find ?p acc] =>
    destruct (find p acc) eqn:E end.
  - apply sum_update_first; [reflexivity | congruence].
  - rewrite map_app, list_sum_app. simpl. lia.
Qed.

Lemma hourlyData_total (data : list row) :
  forall acc,
    list_sum (map total
                (fold_left (hourly_step Date_getHours parseInt) data acc))
    = list_sum (map total acc) + count has_timestamp data.
Proof.
  unfold count.
  induction data as [| r data IH]; intros acc; simpl; [lia |].
  rewrite IH, hourly_step_total.
  destruct (has_timestamp r); simpl; lia.
Qed.

Lemma processActivityData_total (data : list row) :
  list_sum (map total (processActivityData Date_getHours parseInt data))
  = count has_timestamp data.
Proof.
  unfold processActivityData, hourlyData.
  rewrite (list_sum_perm
             (Permutation_map total (Array_sort_perm _ _))).
  now rewrite hourlyData_total.
Qed.

Lemma rate2_first_row (a b : bool) :
  rate2 (b2n a) (b2n b) 1 = JS.of_Z 0
  \/ rate2 (b2n a) (b2n b) 1 = JS.of_Z 50
  \/ rate2 (b2n a) (b2n b) 1 = JS.of_Z 100.
Proof.
  destruct a, b; [right; right | right; left | right; left | left];
    vm_compute; reflexivity.
Qed.

Lemma hourly_step_inv (acc : list bucket) (curr : row) :
  Forall bucket_inv acc ->
  Forall bucket_inv (hourly_step Date_getHours parseInt acc curr).
Proof.
  intros Hacc. unfold hourly_step.
  destruct (negb (JS.truthy (Date_Time curr))); [assumption |]. cbv zeta.
  match goal with |- context [find ?p acc] => destruct (find p acc) end.
  - apply Forall_update_first; [| assumption].
    intros x [[H1 [H2 [H3 H4]]] Hr].
    unfold bucket_inv, add_to_bucket, row_onTime, row_locationAccurate,
      row_delayed; cbn [total onTime locationAccurate delayed complianceRate].
    split; [| exact Hr].
    pose proof (b2n_le_1 (JS.str_is (Time_Accuracy curr) "On Time")).
    pose proof (b2n_le_1 (within_20 parseInt (Location_Accuracy curr))).
    pose proof (b2n_le_1 match Time_Accuracy curr with
                         | Some s => JS.includes s "Delay"
                         | None => false
                         end).
    lia.
  - apply Forall_app; split; [assumption |].
    constructor; [| constructor].
    unfold bucket_inv, new_bucket, row_onTime, row_locationAccurate,
      row_delayed; cbn [total onTime locationAccurate delayed complianceRate].
    split; [| apply rate2_first_row].
    pose proof (b2n_le_1 (JS.str_is (Time_Accuracy curr) "On Time")).
    pose proof (b2n_le_1 (within_20 parseInt (Location_Accuracy curr))).
    pose proof (b2n_le_1 match Time_Accuracy curr with
                         | Some s => JS.includes s "Delay"
                         | None => false
                         end).
    lia.
Qed.

Lemma alert_step_inv (acc : list App.bucket) (curr : row) :
  Forall alert_bucket_inv acc ->
  Forall alert_bucket_inv (App.hourly_step Date_getHours acc curr).
Proof.
  intros Hacc. unfold App.hourly_step.
  destruct (negb (JS.truthy (Date_Time curr))); [assumption |]. cbv zeta.
  assert (JS.str_is (Alert curr) "Critical" = true ->
          JS.truthy (Alert curr) = true) as Hcrit.
  { destruct (Alert curr) as [s |]; simpl; [| discriminate].
    intros H. apply String.eqb_eq in H. now subst. }
  match goal with |- context [find ?p acc] => destruct (find p acc) end.
  - apply Forall_update_first; [| assumption].
    intros x [H1 [H2 H3]].
    unfold alert_bucket_inv, App.add_to_bucket;
      cbn [App.count App.alerts App.criticalAlerts].
    destruct (JS.str_is (Alert curr) "Critical");
      [rewrite Hcrit by reflexivity; simpl; lia |].
    pose proof (b2n_le_1 (JS.truthy (Alert curr))). lia.
  - apply Forall_app; split; [assumption |].
    constructor; [| constructor].
    unfold alert_bucket_inv, App.new_bucket;
      cbn [App.count App.alerts App.criticalAlerts].
    destruct (JS.str_is (Alert curr) "Critical");
      [rewrite Hcrit by reflexivity; simpl; lia |].
    pose proof (b2n_le_1 (JS.truthy (Alert curr))). simpl. lia.
Qed.

(** The two dashboards put the same rows into the same buckets. *)
Lemma find_same_bucket (h : JS.number) (acc : list bucket)
  (acc' : list App.bucket) :
  Forall2 same_bucket acc acc' ->
  (find (fun item => JS.strict_eq item.(hour) h) acc = None
   <-> find (fun item => JS.strict_eq item.(App.hour) h) acc' = None).
Proof.
  induction 1 as [| b b' acc acc' [Hb _] Hacc IH]; simpl; [tauto |].
  rewrite <- Hb.
  destruct (JS.strict_eq b.(hour) h); [| exact IH].
  split; discriminate.
Qed.

Lemma update_same_bucket (h : JS.number) (curr : row) (acc : list bucket)
  (acc' : list App.bucket) :
  Forall2 same_bucket acc acc' ->
  Forall2 same_bucket
    (Obj.update_first (fun item => JS.strict_eq item.(hour) h)
       (add_to_bucket parseInt curr) acc)
    (Obj.update_first (fun item => JS.strict_eq item.(App.hour) h)
       (App.add_to_bucket curr) acc').
Proof.
  induction 1 as [| b b' acc acc' [Hb Hc] Hacc IH]; simpl; [constructor |].
  rewrite <- Hb.
  destruct (JS.strict_eq b.(hour) h); constructor; auto;
    split; simpl; congruence.
Qed.

Lemma hourly_step_same_bucket (curr : row) (acc : list bucket)
  (acc' : list App.bucket) :
  Forall2 same_bucket acc acc' ->
  Forall2 same_bucket
    (hourly_step Date_getHours parseInt acc curr)
    (App.hourly_step Date_getHours acc' curr).
Proof.
  intros H. unfold hourly_step, App.hourly_step.
  destruct (negb (JS.truthy (Date_Time curr))); [assumption |].
  cbv zeta.
  set (h := int_or_NaN (Date_getHours (text (Date_Time curr)))).
  pose proof (find_same_bucket h H) as Hfind.
  destruct (find (fun item => JS.strict_eq item.(hour) h) acc) eqn:E;
    destruct (find (fun item => JS.strict_eq item.(App.hour) h) acc') eqn:E'.
  - now apply update_same_bucket.
  - destruct Hfind as [_ Hf]. discriminate (Hf eq_refl).
  - destruct Hfind as [Hf _]. discriminate (Hf eq_refl).
  - apply Forall2_app; [assumption |]. repeat constructor.
Qed.

Lemma sort_insert_same_bucket (b : bucket) (b' : App.bucket)
  (l : list bucket) (l' : list App.bucket) :
  same_bucket b b' -> Forall2 same_bucket l l' ->
  Forall2 same_bucket
    (Obj.sort_insert (fun x y => JS.sub x.(hour) y.(hour)) b l)
    (Obj.sort_insert (fun x y => JS.sub x.(App.hour) y.(App.hour)) b' l').
Proof.
  intros Hb. induction 1 as [| c c' l l' Hc Hl IH]; simpl.
  - constructor; [assumption | constructor].
  - assert (b.(hour) = b'.(App.hour)) as Eb by apply Hb.
    assert (c.(hour) = c'.(App.hour)) as Ec by apply Hc.
    rewrite <- Eb, <- Ec.
    destruct (Obj.cmp_le0 (JS.sub b.(hour) c.(hour))).
    + constructor; [assumption |]. constructor; assumption.
    + constructor; [assumption | apply IH].
Qed.

Lemma processActivityData_same_buckets (data : list row) :
  Forall2 same_bucket
    (processActivityData Date_getHours parseInt data)
    (App.processActivityData Date_getHours data).
Proof.
  unfold processActivityData, App.processActivityData, hourlyData,
    App.hourlyData.
  assert (forall acc acc',
             Forall2 same_bucket acc acc' ->
             Forall2 same_bucket
               (fold_left (hourly_step Date_getHours parseInt) data acc)
               (fold_left (App.hourly_step Date_getHours) data acc')) as Hf.
  { induction data as [| r data IH]; simpl; intros acc acc' H; [assumption |].
    apply IH. now apply hourly_step_same_bucket. }
  specialize (Hf [] [] (Forall2_nil _)).
  induction Hf as [| b b' l l' Hb Hl IH]; simpl; [constructor |].
  now apply sort_insert_same_bucket.
Qed.

End HourlyCounts.

(** X5.  No activity row is lost or counted twice by the hourly
    aggregator of either dashboard: the totals of the buckets add up to the
    number of rows that have a timestamp. *)
Theorem hourly_totals_add_up :
  forall (Date_getHours parseInt : string -> option Z) (data : list row),
    list_sum (map total (processActivityData Date_getHours parseInt data))
    = count has_timestamp data
    /\ list_sum (map App.count (App.processActivityData Date_getHours data))
       = count has_timestamp data.
Proof.
  intros Date_getHours parseInt data.
  split; [apply processActivityData_total |].
  rewrite <- (processActivityData_total Date_getHours parseInt data).
  f_equal.
  pose proof (processActivityData_same_buckets Date_getHours parseInt data)
    as H.
  induction H as [| b b' l l' [_ Hb] Hl IH]; simpl; [reflexivity |].
  now rewrite Hb, IH.
Qed.

(** X6.  Every hourly bucket of the compliance dashboard holds at least one
    row, its onTime, locationAccurate and delayed counts never exceed its
    total, and its complianceRate is 0, 50 or 100. *)
Theorem hourly_bucket_invariant :
  forall (Date_getHours parseInt : string -> option Z) (data : list row),
    Forall bucket_inv (processActivityData Date_getHours parseInt data).
Proof.
  intros Date_getHours parseInt data.
  rewrite Forall_forall. intros b Hb.
  unfold processActivityData in Hb. apply Array_sort_In in Hb.
  revert b Hb. rewrite <- Forall_forall. unfold hourlyData.
  apply (@fold_left_inv _ _ (Forall bucket_inv)); [| constructor].
  intros acc r. apply hourly_step_inv.
Qed.

(** X7.  Every hourly bucket of the other dashboard holds at least one row,
    counts no more alerts than rows and no more critical alerts than
    alerts. *)
Theorem alert_bucket_invariant :
  forall (Date_getHours : string -> option Z) (data : list row),
    Forall alert_bucket_inv (App.processActivityData Date_getHours data).
Proof.
  intros Date_getHours data.
  rewrite Forall_forall. intros b Hb.
  unfold App.processActivityData in Hb. apply Array_sort_In in Hb.
  revert b Hb. rewrite <- Forall_forall. unfold App.hourlyData.
  apply (@fold_left_inv _ _ (Forall alert_bucket_inv)); [| constructor].
  intros acc r. apply alert_step_inv.
Qed.

(** X8.  The two dashboards bucket the activity rows alike: their outputs
    list the same hours in the same order, with the same number of rows in
    corresponding buckets. *)
Theorem dashboards_bucket_alike :
  forall (Date_getHours parseInt : string -> option Z) (data : list row),
    map (fun b => (b.(App.hour), b.(App.count)))
      (App.processActivityData Date_getHours data)
    = map (fun b => (b.(hour), b.(total)))
        (processActivityData Date_getHours parseInt data).
Proof.
  intros Date_getHours parseInt data.
  pose proof (processActivityData_same_buckets Date_getHours parseInt data)
    as H.
  induction H as [| b b' l l' [Hh Hb] Hl IH]; simpl; [reflexivity |].
  now rewrite Hh, Hb, IH.
Qed.

(** *** The checks of the compliance evaluator *)

Lemma score3_values (a b c : bool) :
  score3 (b2n a) (b2n b) (b2n c)
  = JS.of_Z (match (b2n a + b2n b + b2n c)%nat with
             | 0%nat => 0
             | 1%nat => 33
             | 2%nat => 67
             | _ => 100
             end).
Proof. destruct a, b, c; vm_compute; reflexivity. Qed.

(** X9.  No location profile of the aggregator ever passes the staffing
    check: its guardCount is read from a property that the set of guards
    does not have, so staffingCompliance is 0 for every location and the
    complianceScore of a location is 0, 33 or 67, never 100. *)
Theorem staffing_check_never_passes :
  forall (parseFloat : string -> JS.number) (data : list row)
         (activities : list bucket) (guards : list guard_profile),
    Forall
      (fun c =>
         c.(lc_staffingCompliance) = 0%nat
         /\ (c.(lc_complianceScore) = JS.of_Z 0
             \/ c.(lc_complianceScore) = JS.of_Z 33
             \/ c.(lc_complianceScore) = JS.of_Z 67))
      (calculateComplianceMetrics activities
         (processLocationCoverage parseFloat data) guards).(byLocation).
Proof.
  intros parseFloat data activities guards.
  unfold calculateComplianceMetrics; cbn [byLocation].
  rewrite Forall_forall. intros c Hc.
  apply in_map_iff in Hc as [p [<- Hp]].
  apply processLocationCoverage_In in Hp as [k [m [_ ->]]].
  unfold location_checks, location_result;
    cbn [loc_metrics guardCount to_number lc_staffingCompliance
           lc_complianceScore].
  change (b2n (JS.ge JS.NaN (JS.of_Z 2))) with (b2n false).
  split; [reflexivity |].
  rewrite score3_values.
  match goal with |- context [(b2n ?x + b2n ?y + b2n false)%nat] =>
    destruct x, y end; simpl; auto.
Qed.

(** X10.  Every guard profile of the aggregator passes the coverage check:
    a profile exists only through an attendance row, whose post is added to
    the covered set, so coverageCompliance is 1 for every guard and the
    complianceScore of a guard is 33, 67 or 100, never 0. *)
Theorem coverage_check_always_passes :
  forall (parseInt : string -> option Z) (parseFloat : string -> JS.number)
         (activityData attendanceData : list row)
         (activities : list bucket) (locations : list location_profile),
    Forall
      (fun c =>
         c.(gc_coverageCompliance) = 1%nat
         /\ (c.(gc_complianceScore) = JS.of_Z 33
             \/ c.(gc_complianceScore) = JS.of_Z 67
             \/ c.(gc_complianceScore) = JS.of_Z 100))
      (calculateComplianceMetrics activities locations
         (processGuardData parseInt parseFloat activityData attendanceData))
      .(byGuard).
Proof.
  intros parseInt parseFloat activityData attendanceData activities locations.
  unfold calculateComplianceMetrics; cbn [byGuard].
  rewrite Forall_forall. intros c Hc.
  apply in_map_iff in Hc as [p [<- Hp]].
  apply processGuardData_In in Hp as [k [g [Hg ->]]].
  apply guardMetrics_inv in Hg. destruct Hg as [_ _ _ _ _ Hcov].
  unfold guard_checks; cbn [gc_coverageCompliance gc_complianceScore].
  assert (JS.ge (JS.of_nat (guard_result g).(metrics).(coverageCount))
            (JS.of_Z 1) = true) as ->.
  { cbn [guard_result metrics coverageCount].
    unfold JS.ge, JS.le, JS.of_nat, JS.of_Z.
    apply Qle_bool_iff. rewrite <- Zle_Qle. lia. }
  split; [reflexivity |].
  rewrite score3_values.
  match goal with |- context [(b2n ?x + b2n ?y + b2n true)%nat] =>
    destruct x, y end; simpl; auto.
Qed.

(** *** The data load of the compliance dashboard *)

Lemma includes_empty (s : string) : JS.includes s "" = true.
Proof. destruct s; reflexivity. Qed.

Lemma includes_truthy (s d : string) :
  JS.includes s d = true -> d <> EmptyString -> JS.truthy (Some s) = true.
Proof.
  intros H Hd. destruct s as [| c s]; [| reflexivity].
  destruct d as [| c d]; [now elim Hd | discriminate].
Qed.

Lemma filter_all (A : Type) (p : A -> bool) (l : list A) :
  (forall x, In x l -> p x = true) -> filter p l = l.
Proof.
  induction l as [| x l IH]; simpl; intros H; [reflexivity |].
  rewrite (H x (or_introl eq_refl)). f_equal. apply IH. auto.
Qed.

(** X12.  With a date selected, every activity row that passes the date
    filter has a timestamp, so the hourly aggregation skips none of them:
    the totals of the buckets of the loaded state add up to the number of
    activity rows of that date.  With the date cleared, the filter lets
    every row through that has the cell at all. *)
Theorem loaded_totals_count_the_date :
  (forall (Date_getHours parseInt : string -> option Z)
          (parseFloat : string -> JS.number)
          (Login_Date : row -> option string) (selectedDate : string)
          (activityResults attendanceResults : list row),
      selectedDate <> EmptyString ->
      list_sum
        (map total
           (loadData Date_getHours parseInt parseFloat Login_Date
              selectedDate activityResults attendanceResults)
           .(state_activityData))
      = List.length (filter (on_date Date_Time selectedDate) activityResults))
  /\ (forall (column : row -> option string) (data : list row),
         filter (on_date column EmptyString) data
         = filter (fun r => match column r with
                            | Some _ => true
                            | None => false
                            end) data).
Proof.
  split.
  - intros Date_getHours parseInt parseFloat Login_Date selectedDate
      activityResults attendanceResults Hd.
    unfold loadData; cbn [state_activityData].
    rewrite processActivityData_total. unfold count.
    rewrite filter_all; [reflexivity |].
    intros r Hr. apply filter_In in Hr as [_ Hr].
    unfold on_date in Hr. unfold has_timestamp.
    destruct (Date_Time r) as [s |]; [| discriminate].
    eapply includes_truthy; eassumption.
  - intros column data. apply filter_ext. intros r. unfold on_date.
    destruct (column r); [apply includes_empty | reflexivity].
Qed.

Lemma loaded_totals_count_the_date_witness :
  sample_date <> EmptyString
  /\ list_sum
       (map total
          (loadData Host.getHours Host.parseInt Host.parseFloat
             (fun _ => None) sample_date dated_rows [])
          .(state_activityData))
     = List.length (filter (on_date Date_Time sample_date) dated_rows).
Proof.
  split.
  - discriminate.
  - apply (proj1 loaded_totals_count_the_date). discriminate.
Defined.

Lemma filter_partition_length (A : Type) (p : A -> bool) (l : list A) :
  (List.length (filter p l) + List.length (filter (fun x => negb (p x)) l)
   = List.length l)%nat.
Proof.
  induction l as [| x l IH]; simpl; [reflexivity |].
  destruct (p x); simpl; lia.
Qed.

Lemma filter_length_le (A : Type) (p : A -> bool) (l : list A) :
  (List.length (filter p l) <= List.length l)%nat.
Proof.
  induction l as [| x l IH]; simpl; [lia |].
  destruct (p x); simpl; lia.
Qed.

Lemma onTime_rate_range (onTime totalShifts : nat) :
  (onTime <= totalShifts)%nat ->
  in_0_100 (onTime_rate onTime totalShifts) = (0 <? totalShifts)%nat.
Proof.
  intros Hle. unfold onTime_rate.
  destruct (Nat.ltb_spec 0 totalShifts) as [H | H].
  - now apply in_0_100_percent.
  - assert (totalShifts = 0%nat) as -> by lia.
    assert (onTime = 0%nat) as -> by lia. reflexivity.
Qed.

(** *** The coverage object of [App.js] *)

Lemma count_le (p q : row -> bool) (data : list row) :
  (forall r, p r = true -> q r = true) ->
  (count p data <= count q data)%nat.
Proof.
  intros H. unfold count.
  induction data as [| r data IH]; simpl; [lia |].
  destruct (p r) eqn:E; [rewrite (H r E); simpl; lia |].
  destruct (q r); simpl; lia.
Qed.

Lemma coverage_step_get (o : Obj.t App.location) (record : row)
  (l : string) :
  Obj.get (App.location_step o record) l
  = coverage_entry_step l (Obj.get o l) record.
Proof.
  unfold App.location_step, coverage_entry_step, at_post.
  destruct (JS.truthy (Post_Name record)); simpl; [| reflexivity].
  destruct (String.eqb_spec (text (Post_Name record)) l) as [-> | Hne].
  - now rewrite get_set_same.
  - now rewrite get_set_other.
Qed.

Lemma coverage_get (data : list row) (l : string) :
  forall o,
    Obj.get (fold_left App.location_step data o) l
    = fold_left (coverage_entry_step l) data (Obj.get o l).
Proof.
  induction data as [| r data IH]; intros o; simpl; [reflexivity |].
  now rewrite IH, coverage_step_get.
Qed.

Lemma coverage_entry_fold (data : list row) (l : string) :
  forall cur,
    fold_left (coverage_entry_step l) data cur
    = match filter (at_post l) data with
      | [] => cur
      | _ :: _ =>
          Some (fold_left App.location_shift (filter (at_post l) data)
                  (match cur with
                   | Some m => m
                   | None => App.new_location
                   end))
      end.
Proof.
  induction data as [| r data IH]; intros cur; cbn [fold_left filter];
    [reflexivity |].
  rewrite IH. unfold coverage_entry_step.
  destruct (at_post l r); [| reflexivity].
  now destruct (filter (at_post l) data).
Qed.

Lemma coverage_shift_fold (rs : list row) :
  forall m,
    let m' := fold_left App.location_shift rs m in
    (m'.(App.location_total) = m.(App.location_total) + List.length rs
     /\ m'.(App.location_covered)
        = m.(App.location_covered)
          + List.length (filter (fun r => JS.truthy (Full_Name r)) rs)
     /\ m'.(App.location_alerts)
        = m.(App.location_alerts)
          + List.length (filter (fun r => JS.truthy (Alert r)) rs))%nat.
Proof.
  induction rs as [| r rs IH]; intros m; cbn [fold_left].
  - cbn [List.length filter]. repeat split; lia.
  - destruct (IH (App.location_shift m r)) as [H1 [H2 H3]].
    cbv zeta. rewrite H1, H2, H3.
    cbn [App.location_shift App.location_total App.location_covered
           App.location_alerts List.length filter].
    destruct (JS.truthy (Full_Name r)), (JS.truthy (Alert r));
      cbn [List.length]; repeat split; lia.
Qed.

Lemma coverage_keys (data : list row) :
  NoDup (map fst (App.processLocationCoverage data)).
Proof.
  unfold App.processLocationCoverage.
  apply (@fold_left_inv _ _
           (fun o : Obj.t App.location => NoDup (map fst o))).
  - intros o r H. unfold App.location_step.
    destruct (negb (JS.truthy (Post_Name r))); [assumption |].
    now apply set_keys_NoDup.
  - constructor.
Qed.

(** The entry of a post holds the counts of the rows of that post. *)
Lemma coverage_entry (data : list row) (l : string) :
  Obj.get (App.processLocationCoverage data) l
  = if posted data l then
      Some (fold_left App.location_shift (filter (at_post l) data)
              App.new_location)
    else None.
Proof.
  unfold App.processLocationCoverage, posted.
  rewrite coverage_get, coverage_entry_fold. cbn [Obj.get].
  induction data as [| r data IH]; simpl; [reflexivity |].
  destruct (at_post l r); simpl; [reflexivity | exact IH].
Qed.

Lemma coverage_entry_counts (data : list row) (l : string)
  (m : App.location) :
  Obj.get (App.processLocationCoverage data) l = Some m ->
  m.(App.location_total) = count (at_post l) data
  /\ m.(App.location_covered) = count (covered_at l) data
  /\ m.(App.location_alerts) = count (alert_at l) data.
Proof.
  rewrite coverage_entry. destruct (posted data l); [| discriminate].
  intros [= <-].
  destruct (coverage_shift_fold (filter (at_post l) data) App.new_location)
    as [H1 [H2 H3]].
  rewrite H1, H2, H3. unfold count, covered_at, alert_at.
  rewrite !filter_filter. repeat split; reflexivity.
Qed.

Lemma coverage_entries_count_their_post_aux (data : list row) :
  NoDup (map fst (App.processLocationCoverage data))
  /\ Forall
       (fun entry =>
          (1 <= (snd entry).(App.location_total)
           /\ (snd entry).(App.location_covered)
              <= (snd entry).(App.location_total)
           /\ (snd entry).(App.location_alerts)
              <= (snd entry).(App.location_total))%nat)
       (App.processLocationCoverage data).
Proof.
  split; [apply coverage_keys |].
  rewrite Forall_forall. intros [l m] Hin. cbn [fst snd].
  apply In_get in Hin; [| apply coverage_keys].
  destruct (coverage_entry_counts _ _ Hin) as [H1 [H2 H3]].
  assert (1 <= count (at_post l) data)%nat as Hpos.
  { rewrite coverage_entry in Hin.
    destruct (posted data l) eqn:E; [| discriminate].
    apply existsb_exists in E as [r [Hr Hat]].
    unfold count. apply (filter_In_length _ _ _ Hr Hat). }
  assert (count (covered_at l) data <= count (at_post l) data)%nat as Hc.
  { apply count_le. unfold covered_at. intros r H.
    now apply andb_prop in H. }
  assert (count (alert_at l) data <= count (at_post l) data)%nat as Ha.
  { apply count_le. unfold alert_at. intros r H.
    now apply andb_prop in H. }
  rewrite H1, H2, H3. repeat split; assumption.
Qed.

(** X15.  The two dashboards count the shifts of a post alike: every
    location profile of the compliance dashboard has an entry in the
    coverage object of [App.js] for the same post, with the same total and
    the same covered count. *)
Theorem dashboards_count_posts_alike :
  forall (parseFloat : string -> JS.number) (data : list row),
    Forall
      (fun p =>
         exists m,
           Obj.get (App.processLocationCoverage data)
             p.(profile_location).(loc_location) = Some m
           /\ m.(App.location_total) = p.(profile_location).(loc_shifts_total)
           /\ m.(App.location_covered)
              = p.(profile_location).(loc_shifts_covered))
      (processLocationCoverage parseFloat data).
Proof.
  intros parseFloat data. rewrite Forall_forall. intros p Hp.
  apply processLocationCoverage_In in Hp as [k [m [Hin ->]]].
  cbn [location_result profile_location].
  destruct (locationMetrics_entry _ _ _ _ Hin) as [E0 [E1 [E2 _]]].
  assert (posted data k = true) as Hposted.
  { apply (In_get _ _ _ (locationMetrics_keys parseFloat data)) in Hin.
    destruct (posted data k) eqn:E; [reflexivity |].
    pose proof (proj2 (locationMetrics_get_None parseFloat data k) E).
    congruence. }
  rewrite E0.
  destruct (Obj.get (App.processLocationCoverage data) k) as [m' |] eqn:Eg.
  - exists m'. destruct (coverage_entry_counts _ _ Eg) as [H1 [H2 _]].
    split; [reflexivity |]. split; congruence.
  - rewrite coverage_entry, Hposted in Eg. discriminate.
Qed.

(** *** The attendance summary of [App.js] *)

Lemma coverage_empty (data : list row) :
  App.processLocationCoverage data = []
  <-> existsb (fun r => JS.truthy (Post_Name r)) data = false.
Proof.
  split.
  - intros E.
    destruct (existsb (fun r => JS.truthy (Post_Name r)) data) eqn:Ex;
      [| reflexivity].
    apply existsb_exists in Ex as [r [Hr Ht]].
    assert (posted data (text (Post_Name r)) = true) as Hp.
    { apply existsb_exists. exists r. split; [assumption |].
      unfold at_post. now rewrite Ht, String.eqb_refl. }
    pose proof (coverage_entry data (text (Post_Name r))) as Hget.
    rewrite Hp, E in Hget. discriminate.
  - intros Ex.
    destruct (App.processLocationCoverage data) as [| [l m] o] eqn:E;
      [reflexivity |].
    pose proof (coverage_entry data l) as Hget.
    rewrite E in Hget. cbn [Obj.get] in Hget.
    rewrite String.eqb_refl in Hget.
    destruct (posted data l) eqn:Hp; [| discriminate].
    apply existsb_exists in Hp as [r [Hr Hat]].
    assert (existsb (fun r => JS.truthy (Post_Name r)) data = true) as Hex.
    { apply existsb_exists. exists r. split; [assumption |].
      unfold at_post in Hat. now apply andb_prop in Hat. }
    congruence.
Qed.

(** *** The guard statistics of [App.js] *)

Section GuardStatistics.
Variable parseInt : string -> option Z.
Variable User_Name : row -> option string.
Local Open Scope nat_scope.

Lemma stat_activity_inv (g : App.guard) (record : row) :
  g.(App.onTimeActivities) + g.(App.lateActivities) = g.(App.totalActivities) ->
  g.(App.guard_criticalAlerts) <= g.(App.guard_alerts) ->
  g.(App.guard_alerts) <= g.(App.totalActivities) ->
  guard_stat_inv (App.guard_activity parseInt g record).
Proof.
  intros H1 H2 H3. unfold guard_stat_inv, App.guard_activity.
  cbn [App.onTimeActivities App.lateActivities App.totalActivities
         App.guard_criticalAlerts App.guard_alerts].
  destruct (JS.str_is (Time_Accuracy record) "On Time");
    destruct (JS.truthy (Alert record));
    destruct (JS.str_is (Alert record) "Critical"); simpl; lia.
Qed.

Lemma guard_step_inv (o : Obj.t App.guard) (record : row) :
  (forall k g, In (k, g) o -> guard_stat_inv g /\ g.(App.guard_id) = k) ->
  forall k g,
    In (k, g) (App.guard_step parseInt User_Name o record) ->
    guard_stat_inv g /\ g.(App.guard_id) = k.
Proof.
  intros Ho. unfold App.guard_step.
  destruct (negb (JS.truthy (Service_Number record))); [assumption |].
  intros k g Hin. apply In_set in Hin as [[-> ->] | Hin]; [| eauto].
  destruct (Obj.get o (text (Service_Number record))) as [g0 |] eqn:E.
  - apply get_In in E. destruct (Ho _ _ E) as [[H1 [H2 [H3 H4]]] Hid].
    split; [now apply stat_activity_inv | exact Hid].
  - split; [apply stat_activity_inv; simpl; lia | reflexivity].
Qed.

Lemma guardStats_inv (activityData : list row) :
  forall k g,
    In (k, g) (App.guardStats_of parseInt User_Name activityData) ->
    guard_stat_inv g /\ g.(App.guard_id) = k.
Proof.
  unfold App.guardStats_of.
  apply (@fold_left_inv _ _
           (fun o => forall k g, In (k, g) o ->
                                 guard_stat_inv g /\ g.(App.guard_id) = k)).
  - apply guard_step_inv.
  - intros k g [].
Qed.

Lemma guardStats_keys (activityData : list row) :
  NoDup (map fst (App.guardStats_of parseInt User_Name activityData)).
Proof.
  unfold App.guardStats_of.
  apply (@fold_left_inv _ _ (fun o : Obj.t App.guard => NoDup (map fst o))).
  - intros o r H. unfold App.guard_step.
    destruct (negb (JS.truthy (Service_Number r))); [assumption |].
    now apply set_keys_NoDup.
  - constructor.
Qed.

Lemma guard_step_keys (o : Obj.t App.guard) (record : row) (k : string) :
  Obj.get (App.guard_step parseInt User_Name o record) k = None
  <-> Obj.get o k = None /\ for_guard k record = false.
Proof.
  unfold App.guard_step, for_guard.
  destruct (JS.truthy (Service_Number record)); simpl; [| tauto].
  destruct (String.eqb_spec (text (Service_Number record)) k) as [-> | Hne].
  - rewrite get_set_same. split; [discriminate | intros [_ H]; discriminate].
  - rewrite get_set_other by assumption. tauto.
Qed.

Lemma guardStats_get_None (activityData : list row) (k : string) :
  Obj.get (App.guardStats_of parseInt User_Name activityData) k = None
  <-> active activityData k = false.
Proof.
  unfold App.guardStats_of, active.
  assert (forall l o,
             Obj.get (fold_left (App.guard_step parseInt User_Name) l o) k
             = None
             <-> Obj.get o k = None /\ existsb (for_guard k) l = false) as H.
  { induction l as [| r l IH]; intros o; simpl; [tauto |].
    rewrite IH, guard_step_keys, orb_false_iff. tauto. }
  rewrite H. simpl. intuition auto.
Qed.

Lemma processGuardStatistics_In (activityData attendanceData : list row)
  (s : App.guard_statistics) :
  In s (App.processGuardStatistics parseInt User_Name
          activityData attendanceData) ->
  exists k g,
    In (k, g) (App.guardStats_of parseInt User_Name activityData)
    /\ s = App.guard_result g.
Proof.
  intros H. unfold App.processGuardStatistics in H.
  apply Array_sort_In in H.
  apply in_map_iff in H as [g [<- H]].
  apply Object_values_In in H as [k H]. eauto.
Qed.

End GuardStatistics.

(** X16.  Every finished entry of the guard statistics of [App.js] has at
    least one activity, each of them counted as on time or as late; it
    counts no more alerts than activities and no more critical alerts than
    alerts.  Its punctualityRate and its alertRate are therefore numbers
    between 0 and 100, and its status is a warning exactly when it has a
    critical alert. *)
Theorem guard_statistics_invariant :
  forall (parseInt : string -> option Z) (User_Name : row -> option string)
         (activityData attendanceData : list row),
    Forall
      (fun s =>
         guard_stat_inv s.(App.stat_guard)
         /\ in_0_100 s.(App.punctualityRate) = true
         /\ in_0_100 s.(App.alertRate) = true
         /\ (s.(App.status) = "warning"%string
             <-> (0 < s.(App.stat_guard).(App.guard_criticalAlerts))%nat))
      (App.processGuardStatistics parseInt User_Name
         activityData attendanceData).
Proof.
  intros parseInt User_Name activityData attendanceData.
  rewrite Forall_forall. intros s Hs.
  apply processGuardStatistics_In in Hs as [k [g [Hin ->]]].
  destruct (guardStats_inv _ _ _ _ _ Hin) as [Hinv _].
  pose proof Hinv as [H1 [H2 [H3 H4]]].
  cbn [App.guard_result App.stat_guard App.punctualityRate App.alertRate
         App.status].
  split; [exact Hinv |]. split; [| split].
  - apply in_0_100_percent; lia.
  - apply in_0_100_percent; lia.
  - destruct (Nat.ltb_spec 0 g.(App.guard_criticalAlerts)).
    + split; auto.
    + split; [discriminate | lia].
Qed.

(** *** The attendance summary and the performance metrics of [App.js] *)






(** ** The aggregation as it runs *)

(** *** Rounding to the nearest double *)

Lemma pow2_pos (e : Z) : 0 < Double.pow2 e.
Proof. apply Qpower_0_lt. reflexivity. Qed.

Lemma pow2_add (a b : Z) : Double.pow2 (a + b) == Double.pow2 a * Double.pow2 b.
Proof. apply Qpower_plus. discriminate. Qed.

Lemma pow2_le (a b : Z) : (a <= b)%Z -> Double.pow2 a <= Double.pow2 b.
Proof. intros H. apply Qpower_le_compat_l; [assumption | discriminate]. Qed.

Lemma pow2_lt (a b : Z) : (a < b)%Z -> Double.pow2 a < Double.pow2 b.
Proof. intros H. apply Qpower_lt_compat_l; [assumption | reflexivity]. Qed.

Lemma pow2_lt_inv (a b : Z) : Double.pow2 a < Double.pow2 b -> (a < b)%Z.
Proof. intros H. apply (Qpower_lt_compat_l_inv 2); [assumption | reflexivity]. Qed.

Lemma pow2_Z (e : Z) : (0 <= e)%Z -> Double.pow2 e == inject_Z (2 ^ e).
Proof. intros H. unfold Double.pow2. now rewrite Zpower_Qpower. Qed.

Lemma pow2_succ (e : Z) : Double.pow2 (e + 1) == 2 * Double.pow2 e.
Proof. rewrite pow2_add. change (Double.pow2 1) with 2. ring. Qed.

Lemma pow2_pred (e : Z) : Double.pow2 (e - 1) == (1 # 2) * Double.pow2 e.
Proof.
  assert (Double.pow2 e == 2 * Double.pow2 (e - 1)) as ->.
  { rewrite <- pow2_succ. now replace (e - 1 + 1)%Z with e by lia. }
  field.
Qed.

(** The exponent brackets the number. *)
Lemma ilog2_spec (q : Q) :
  0 < q -> Double.pow2 (Double.ilog2 q) <= q /\ q < Double.pow2 (Double.ilog2 q + 1).
Proof.
  intros Hq. destruct q as [a b]. unfold Double.ilog2. cbn [Qnum Qden].
  assert (0 < a)%Z as Ha.
  { unfold Qlt in Hq. simpl in Hq. lia. }
  set (la := Z.log2 a). set (lb := Z.log2 (Zpos b)).
  destruct (Z.log2_spec a Ha) as [A1 A2].
  destruct (Z.log2_spec (Zpos b) ltac:(lia)) as [B1 B2].
  fold la in A1, A2. fold lb in B1, B2.
  assert (0 <= la)%Z as Hla by apply Z.log2_nonneg.
  assert (0 <= lb)%Z as Hlb by apply Z.log2_nonneg.
  assert (a # b == inject_Z a / inject_Z (Zpos b)) as Eq by apply Qmake_Qdiv.
  assert (0 < inject_Z (Zpos b)) as Hb.
  { change 0 with (inject_Z 0). rewrite <- Zlt_Qlt. lia. }
  assert (Double.pow2 la <= inject_Z a) as A1'.
  { rewrite pow2_Z by assumption. now rewrite <- Zle_Qle. }
  assert (inject_Z a < Double.pow2 (la + 1)) as A2'.
  { rewrite pow2_Z by lia. rewrite <- Zlt_Qlt. exact A2. }
  assert (Double.pow2 lb <= inject_Z (Zpos b)) as B1'.
  { rewrite pow2_Z by assumption. now rewrite <- Zle_Qle. }
  assert (inject_Z (Zpos b) < Double.pow2 (lb + 1)) as B2'.
  { rewrite pow2_Z by lia. rewrite <- Zlt_Qlt. exact B2. }
  pose proof (pow2_pos la) as Pla. pose proof (pow2_pos lb) as Plb.
  assert (a # b < Double.pow2 (la - lb + 1)) as Hup.
  { rewrite Eq. apply Qlt_shift_div_r; [assumption |].
    replace (la - lb + 1)%Z with ((la + 1) + - lb)%Z by lia.
    rewrite pow2_add.
    assert (Double.pow2 (- lb) * Double.pow2 lb == 1) as E.
    { rewrite <- pow2_add. now replace (- lb + lb)%Z with 0%Z by lia. }
    pose proof (pow2_pos (- lb)) as Pn. pose proof (pow2_pos (la + 1)) as Pa.
    set (A := Double.pow2 (la + 1)) in *. set (N := Double.pow2 (- lb)) in *.
    set (L := Double.pow2 lb) in *. set (B := inject_Z (Z.pos b)) in *.
    set (a' := inject_Z a) in *.
    assert (1 <= N * B) as H1 by nra.
    assert (A <= A * (N * B)) as H2 by nra.
    lra. }
  assert (Double.pow2 (la - lb - 1) < a # b) as Hlo.
  { rewrite Eq. apply Qlt_shift_div_l; [assumption |].
    replace (la - lb - 1)%Z with (la + - (lb + 1))%Z by lia.
    rewrite pow2_add.
    assert (Double.pow2 (- (lb + 1)) * Double.pow2 (lb + 1) == 1) as E.
    { rewrite <- pow2_add. now replace (- (lb + 1) + (lb + 1))%Z with 0%Z by lia. }
    pose proof (pow2_pos (- (lb + 1))) as Pn.
    set (A := Double.pow2 la) in *. set (N := Double.pow2 (- (lb + 1))) in *.
    set (L := Double.pow2 (lb + 1)) in *. set (B := inject_Z (Z.pos b)) in *.
    set (a' := inject_Z a) in *.
    assert (N * B < 1) as H1 by nra.
    assert (A * (N * B) < A) as H2 by nra.
    lra. }
  destruct (Qle_bool (Double.pow2 (la - lb)) (a # b)) eqn:E.
  - apply Qle_bool_iff in E. split; assumption.
  - assert (~ Double.pow2 (la - lb) <= a # b) as Hn.
    { intros H; apply Qle_bool_iff in H; congruence. }
    apply Qnot_le_lt in Hn. split.
    + now apply Qlt_le_weak.
    + now replace (la - lb - 1 + 1)%Z with (la - lb)%Z by lia.
Qed.

Lemma ilog2_le (q : Q) (k : Z) : 0 < q -> q < Double.pow2 (k + 1) -> (Double.ilog2 q <= k)%Z.
Proof.
  intros Hq H. destruct (ilog2_spec Hq) as [L _].
  assert (Double.pow2 (Double.ilog2 q) < Double.pow2 (k + 1)) as Hlt by lra.
  apply pow2_lt_inv in Hlt. lia.
Qed.

(** The nearest integer is within one half. *)
Lemma nearest_even_spec (q : Q) :
  q - (1 # 2) <= inject_Z (Double.nearest_even q)
  /\ inject_Z (Double.nearest_even q) <= q + (1 # 2).
Proof.
  unfold Double.nearest_even.
  pose proof (Qfloor_le q) as Hf. pose proof (Qlt_floor q) as Hc.
  rewrite inject_Z_plus in Hc. change (inject_Z 1) with 1 in Hc.
  destruct (Qcompare (q - inject_Z (Qfloor q)) (1 # 2)) eqn:E.
  - apply Qeq_alt in E.
    destruct (Z.even (Qfloor q)).
    + split; lra.
    + rewrite inject_Z_plus. change (inject_Z 1) with 1. split; lra.
  - apply Qlt_alt in E. split; lra.
  - apply Qgt_alt in E. rewrite inject_Z_plus. change (inject_Z 1) with 1.
    split; lra.
Qed.

Lemma nearest_even_le (q : Q) (z : Z) :
  q <= inject_Z z -> (Double.nearest_even q <= z)%Z.
Proof.
  intros H. destruct (nearest_even_spec q) as [_ U].
  assert (inject_Z (Double.nearest_even q) < inject_Z (z + 1)) as Hlt.
  { rewrite inject_Z_plus. change (inject_Z 1) with 1. lra. }
  rewrite <- Zlt_Qlt in Hlt. lia.
Qed.

Lemma nearest_even_ge (q : Q) (z : Z) :
  inject_Z z <= q -> (z <= Double.nearest_even q)%Z.
Proof.
  intros H. destruct (nearest_even_spec q) as [L _].
  assert (inject_Z (z - 1) < inject_Z (Double.nearest_even q)) as Hlt.
  { unfold Z.sub. rewrite inject_Z_plus.
    change (inject_Z (- (1))) with (- (1)). lra. }
  rewrite <- Zlt_Qlt in Hlt. lia.
Qed.

Lemma Qred_Z (q : Q) (z : Z) : q == inject_Z z -> Qred q = inject_Z z.
Proof.
  intros H. rewrite (Qred_complete _ _ H).
  unfold Qred, inject_Z.
  pose proof (Z.ggcd_gcd z 1) as Hg.
  pose proof (Z.ggcd_correct_divisors z 1) as Hd.
  destruct (Z.ggcd z 1) as [g [aa bb]]. cbn [fst snd] in *.
  rewrite Z.gcd_1_r in Hg. subst g. destruct Hd as [Ha Hb].
  assert (aa = z) as -> by lia. assert (bb = 1%Z) as -> by lia.
  reflexivity.
Qed.

(** The parts of a rounding: the quantum, the integer significand and the
    value. *)
Lemma round_parts (q : Q) :
  ~ q == 0 ->
  let x := Double.quantum q in
  let n := Double.nearest_even (q / Double.pow2 x) in
  Double.round q
  = if Qle_bool (Double.pow2 1024) (Qabs (inject_Z n * Double.pow2 x))
    then (if (0 <? n)%Z then JS.PosInf else JS.NegInf)
    else JS.Fin (Qred (inject_Z n * Double.pow2 x)).
Proof.
  intros Hq. unfold Double.round.
  destruct (Qeq_bool q 0) eqn:E; [| reflexivity].
  apply Qeq_bool_eq in E. contradiction.
Qed.

Lemma quantum_le (q : Q) (k : Z) :
  ~ q == 0 -> Qabs q < Double.pow2 (k + 1) -> (-1022 <= k)%Z ->
  (Double.quantum q <= k - 52)%Z.
Proof.
  intros Hq H Hk. unfold Double.quantum.
  assert (0 < Qabs q) as Hpos.
  { pose proof (Qabs_nonneg q) as H0.
    destruct (Qeq_dec (Qabs q) 0) as [E | E]; [| lra].
    exfalso. apply Hq.
    assert (Qabs q <= 0) as Hle by lra.
    apply Qabs_Qle_condition in Hle. lra. }
  pose proof (@ilog2_le _ k Hpos H). lia.
Qed.

Lemma pow2_opp (e : Z) : Double.pow2 (- e) == / Double.pow2 e.
Proof. apply Qpower_opp. Qed.

(** Between two integers of less than 54 bits a rounding stays between
    them. *)
Lemma round_between (q : Q) (lo hi : Z) :
  (- 2 ^ 53 < lo)%Z -> (hi < 2 ^ 53)%Z ->
  inject_Z lo <= q -> q <= inject_Z hi ->
  exists r, Double.round q = JS.Fin (Qred r) /\ inject_Z lo <= r /\ r <= inject_Z hi.
Proof.
  intros Hlo Hhi L U.
  destruct (Qeq_dec q 0) as [E | Hq].
  - exists 0. unfold Double.round.
    rewrite (proj2 (Qeq_bool_iff q 0) E). split; [reflexivity |]. lra.
  - rewrite (round_parts Hq). cbv zeta.
    set (x := Double.quantum q). set (n := Double.nearest_even (q / Double.pow2 x)).
    assert (Qabs q < Double.pow2 (52 + 1)) as Hb.
    { change (Double.pow2 (52 + 1)) with (inject_Z (2 ^ 53)).
      apply Qabs_Qlt_condition. split.
      - apply Qlt_le_trans with (inject_Z lo); [| assumption].
        change (- inject_Z (2 ^ 53)) with (inject_Z (- 2 ^ 53)).
        now rewrite <- Zlt_Qlt.
      - apply Qle_lt_trans with (inject_Z hi); [assumption |].
        now rewrite <- Zlt_Qlt. }
    assert (x <= 0)%Z as Hx.
    { pose proof (@quantum_le q 52 Hq Hb ltac:(lia)). subst x. lia. }
    pose proof (pow2_pos x) as Px.
    assert (forall z : Z, inject_Z z / Double.pow2 x == inject_Z (z * 2 ^ (- x))) as Ez.
    { intros z. rewrite inject_Z_mult, <- pow2_Z by lia.
      unfold Qdiv. now rewrite pow2_opp. }
    assert (forall z : Z, inject_Z (z * 2 ^ (- x)) * Double.pow2 x == inject_Z z) as Ew.
    { intros z. rewrite <- Ez. field. lra. }
    assert (lo * 2 ^ (- x) <= n)%Z as Hn1.
    { apply nearest_even_ge. rewrite <- Ez.
      unfold Qdiv. apply Qmult_le_compat_r; [assumption |].
      apply Qlt_le_weak, Qinv_lt_0_compat, Px. }
    assert (n <= hi * 2 ^ (- x))%Z as Hn2.
    { apply nearest_even_le. rewrite <- Ez.
      unfold Qdiv. apply Qmult_le_compat_r; [assumption |].
      apply Qlt_le_weak, Qinv_lt_0_compat, Px. }
    assert (inject_Z lo <= inject_Z n * Double.pow2 x) as R1.
    { rewrite <- (Ew lo). apply Qmult_le_compat_r; [| lra].
      now rewrite <- Zle_Qle. }
    assert (inject_Z n * Double.pow2 x <= inject_Z hi) as R2.
    { rewrite <- (Ew hi). apply Qmult_le_compat_r; [| lra].
      now rewrite <- Zle_Qle. }
    assert (Qle_bool (Double.pow2 1024) (Qabs (inject_Z n * Double.pow2 x)) = false) as ->.
    { destruct (Qle_bool (Double.pow2 1024) (Qabs (inject_Z n * Double.pow2 x))) eqn:E;
        [| reflexivity].
      apply Qle_bool_iff in E.
      assert (Qabs (inject_Z n * Double.pow2 x) < Double.pow2 53) as Hlt.
      { change (Double.pow2 53) with (inject_Z (2 ^ 53)).
        apply Qabs_Qlt_condition. split.
        - apply Qlt_le_trans with (inject_Z lo); [| assumption].
          change (- inject_Z (2 ^ 53)) with (inject_Z (- 2 ^ 53)).
          now rewrite <- Zlt_Qlt.
        - apply Qle_lt_trans with (inject_Z hi); [assumption |].
          now rewrite <- Zlt_Qlt. }
      pose proof (@pow2_lt 53 1024 ltac:(lia)). lra. }
    exists (inject_Z n * Double.pow2 x). auto.
Qed.

Lemma round_range (q : Q) (lo hi : Z) :
  (- 2 ^ 53 < lo)%Z -> (hi < 2 ^ 53)%Z ->
  inject_Z lo <= q -> q <= inject_Z hi ->
  exists r, Double.round q = JS.Fin r /\ inject_Z lo <= r /\ r <= inject_Z hi.
Proof.
  intros Hlo Hhi L U.
  destruct (round_between Hlo Hhi L U) as [r [E [R1 R2]]].
  exists (Qred r). pose proof (Qred_correct r) as Er.
  split; [assumption |]. split; lra.
Qed.

(** Integers of less than 54 bits are doubles. *)
Lemma round_Z (z : Z) :
  (- 2 ^ 53 < z < 2 ^ 53)%Z -> Double.round (inject_Z z) = JS.of_Z z.
Proof.
  intros [H1 H2].
  destruct (@round_between (inject_Z z) z z H1 H2) as [r [E [R1 R2]]];
    try apply Qle_refl.
  rewrite E. unfold JS.of_Z. f_equal. apply Qred_Z. lra.
Qed.

(** A rounding is off by half a unit in the last place at most. *)
Lemma round_error (q : Q) (k : Z) :
  Qabs q < Double.pow2 (k + 1) -> (-1022 <= k <= 1022)%Z ->
  exists r, Double.round q = JS.Fin r /\ Qabs (r - q) <= Double.pow2 (k - 53).
Proof.
  intros Hb Hk.
  destruct (Qeq_dec q 0) as [E | Hq].
  - exists 0. unfold Double.round.
    rewrite (proj2 (Qeq_bool_iff q 0) E). split; [reflexivity |].
    rewrite E. pose proof (pow2_pos (k - 53)). simpl. lra.
  - rewrite (round_parts Hq). cbv zeta.
    set (x := Double.quantum q). set (n := Double.nearest_even (q / Double.pow2 x)).
    assert (x <= k - 52)%Z as Hx.
    { apply quantum_le; [assumption | assumption | lia]. }
    pose proof (pow2_pos x) as Px.
    destruct (nearest_even_spec (q / Double.pow2 x)) as [N1 N2]. fold n in N1, N2.
    assert (Qabs (inject_Z n * Double.pow2 x - q) <= Double.pow2 (x - 1)) as Herr.
    { rewrite pow2_pred. apply Qabs_Qle_condition.
      assert (q == q / Double.pow2 x * Double.pow2 x) as Eq by (field; lra).
      set (t := q / Double.pow2 x) in *. set (P := Double.pow2 x) in *.
      set (m := inject_Z n) in *.
      assert (0 <= (m - t + (1 # 2)) * P) as A1.
      { apply Qmult_le_0_compat; lra. }
      assert (0 <= (t + (1 # 2) - m) * P) as A2.
      { apply Qmult_le_0_compat; lra. }
      clearbody m t P. split; lra. }
    assert (Double.pow2 (x - 1) <= Double.pow2 (k - 53)) as Hp by (apply pow2_le; lia).
    assert (Qle_bool (Double.pow2 1024) (Qabs (inject_Z n * Double.pow2 x)) = false) as ->.
    { destruct (Qle_bool (Double.pow2 1024) (Qabs (inject_Z n * Double.pow2 x))) eqn:E;
        [| reflexivity].
      apply Qle_bool_iff in E.
      pose proof (Qabs_triangle (inject_Z n * Double.pow2 x - q) q) as T.
      assert (inject_Z n * Double.pow2 x - q + q == inject_Z n * Double.pow2 x) as Es by ring.
      rewrite Es in T.
      assert (Double.pow2 (k - 53) < Double.pow2 (k + 1)) as H1 by (apply pow2_lt; lia).
      assert (Double.pow2 (k + 1 + 1) <= Double.pow2 1024) as H2 by (apply pow2_le; lia).
      rewrite pow2_succ in H2. lra. }
    exists (Qred (inject_Z n * Double.pow2 x)). split; [reflexivity |].
    pose proof (Qred_correct (inject_Z n * Double.pow2 x)) as Er.
    assert (Qred (inject_Z n * Double.pow2 x) - q == inject_Z n * Double.pow2 x - q) as ->
        by (rewrite Er; reflexivity).
    lra.
Qed.

(** From a non-negative integer on, a rounding does not fall below it. *)
Lemma round_lower (q : Q) (lo : Z) :
  (0 <= lo < 2 ^ 53)%Z -> inject_Z lo <= q ->
  Double.round q = JS.PosInf \/ exists r, Double.round q = JS.Fin r /\ inject_Z lo <= r.
Proof.
  intros [H0 Hlo] L.
  assert (0 <= inject_Z lo) as L0.
  { change 0 with (inject_Z 0). now rewrite <- Zle_Qle. }
  destruct (Qeq_dec q 0) as [E | Hq].
  - right. exists 0. unfold Double.round.
    rewrite (proj2 (Qeq_bool_iff q 0) E). split; [reflexivity |]. lra.
  - rewrite (round_parts Hq). cbv zeta.
    set (x := Double.quantum q). set (n := Double.nearest_even (q / Double.pow2 x)).
    pose proof (pow2_pos x) as Px.
    assert (0 < q) as Hpos.
    { destruct (Qlt_le_dec 0 q) as [H | H]; [assumption |].
      exfalso. apply Hq. lra. }
    assert (inject_Z lo <= inject_Z n * Double.pow2 x) as R1.
    { destruct (Z_le_gt_dec x 0) as [Hx | Hx].
      - assert (inject_Z lo / Double.pow2 x == inject_Z (lo * 2 ^ (- x))) as Ez.
        { rewrite inject_Z_mult, <- pow2_Z by lia.
          unfold Qdiv. now rewrite pow2_opp. }
        assert (inject_Z (lo * 2 ^ (- x)) * Double.pow2 x == inject_Z lo) as Ew.
        { rewrite <- Ez. field. lra. }
        assert (lo * 2 ^ (- x) <= n)%Z as Hn1.
        { apply nearest_even_ge. rewrite <- Ez.
          unfold Qdiv. apply Qmult_le_compat_r; [assumption |].
          apply Qlt_le_weak, Qinv_lt_0_compat, Px. }
        rewrite <- Ew. apply Qmult_le_compat_r; [| lra].
        now rewrite <- Zle_Qle.
      - assert (Qabs q == q) as Ea by (apply Qabs_pos; lra).
        assert (0 < Qabs q) as Hap by lra.
        destruct (ilog2_spec Hap) as [I1 _].
        assert (x + 52 <= Double.ilog2 (Qabs q))%Z as Hi.
        { subst x. unfold Double.quantum in *. lia. }
        assert (Double.pow2 (x + 52) <= q) as Hq2.
        { rewrite <- Ea. eapply Qle_trans; [| exact I1]. now apply pow2_le. }
        assert (2 ^ 52 <= n)%Z as Hn.
        { apply nearest_even_ge.
          change (inject_Z (2 ^ 52)) with (Double.pow2 52).
          apply Qle_shift_div_l; [assumption |].
          rewrite <- pow2_add. now rewrite Z.add_comm. }
        assert (Double.pow2 52 <= inject_Z n) as Hn'.
        { change (Double.pow2 52) with (inject_Z (2 ^ 52)). now rewrite <- Zle_Qle. }
        assert (2 <= Double.pow2 x) as H1.
        { change 2 with (Double.pow2 1). apply pow2_le. lia. }
        assert (inject_Z lo < 2 * Double.pow2 52) as Hl.
        { change (2 * Double.pow2 52) with (inject_Z (2 ^ 53)).
          now rewrite <- Zlt_Qlt. }
        pose proof (pow2_pos 52) as P52.
        set (P := Double.pow2 x) in *. set (m := inject_Z n) in *.
        set (c := Double.pow2 52) in *.
        assert (2 * c <= m * P) by nra. lra. }
    destruct (Qle_bool (Double.pow2 1024) (Qabs (inject_Z n * Double.pow2 x))) eqn:E.
    + left. assert ((0 <? n)%Z = true) as ->; [| reflexivity].
      apply Z.ltb_lt.
      apply Qle_bool_iff in E.
      destruct (Z_lt_le_dec 0 n) as [Hn | Hn]; [assumption | exfalso].
      assert (inject_Z n <= 0) as Hn'.
      { change 0 with (inject_Z 0). now rewrite <- Zle_Qle. }
      assert (inject_Z n * Double.pow2 x == 0) as Ez by nra.
      rewrite Ez in E. pose proof (pow2_pos 1024). simpl in E. lra.
    + right. exists (Qred (inject_Z n * Double.pow2 x)). split; [reflexivity |].
      pose proof (Qred_correct (inject_Z n * Double.pow2 x)) as Er. lra.
Qed.

(** *** The doubles of the kernel *)

(** The operations of [Double] give what the binary64 arithmetic of the
    kernel gives, at the quotients and sums on which the properties below
    turn, at an integer beyond [2^53], at an overflow and at a tie among the
    subnormal numbers. *)
Lemma doubles_as_the_processor :
  Double.div (JS.of_Z 15) (JS.of_Z 28) = Double.of_float (15 / 28)
  /\ Double.mul (Double.div (JS.of_Z 15) (JS.of_Z 28)) (JS.of_Z 30)
     = Double.of_float (15 / 28 * 30)
  /\ Double.add
       (Double.add
          (Double.mul (Double.div (JS.of_Z 15) (JS.of_Z 28)) (JS.of_Z 30))
          (Double.mul (Double.div (JS.of_Z 1) (JS.of_Z 28)) (JS.of_Z 40)))
       (JS.of_Z 10)
     = Double.of_float (15 / 28 * 30 + 1 / 28 * 40 + 10)
  /\ Double.mul (Double.div (JS.of_Z 23) (JS.of_Z 40)) (JS.of_Z 100)
     = Double.of_float (23 / 40 * 100)
  /\ Double.add (Double.div (JS.of_Z 81) (JS.of_Z 10))
       (Double.div (JS.of_Z 82) (JS.of_Z 10))
     = Double.of_float (81 / 10 + 82 / 10)
  /\ Double.div (JS.of_Z 1) (JS.of_Z 3) = Double.of_float (1 / 3)
  /\ Double.Number (2 ^ 53 + 1) = Double.of_float (9007199254740992)
  /\ Double.Number (10 ^ 400) = Double.of_float infinity
  /\ Double.round (1 # 2 ^ 1075) = Double.of_float (0x1p-1074 / 2).
Proof. vm_compute. repeat split. Qed.

(** *** The rates and the scores in doubles *)

(** A value between 0 and a small integer rounds to a double in the same
    range, half a unit in the last place away at most. *)
Lemma round_small (q : Q) (B k : Z) :
  0 <= q -> q <= inject_Z B -> (B < 2 ^ (k + 1))%Z -> (0 <= k <= 51)%Z ->
  exists r, Double.round q = JS.Fin r /\ 0 <= r /\ r <= inject_Z B
            /\ Qabs (r - q) <= Double.pow2 (k - 53).
Proof.
  intros H0 HB Hk Hr.
  assert (2 ^ (k + 1) <= 2 ^ 52)%Z as Hp.
  { apply Z.pow_le_mono_r; lia. }
  destruct (@round_range q 0 B) as [r [E [R1 R2]]]; try assumption; try lia.
  destruct (@round_error q k) as [r' [E' Herr]]; try lia.
  { rewrite Qabs_pos by assumption.
    apply Qle_lt_trans with (inject_Z B); [assumption |].
    rewrite pow2_Z by lia. now rewrite <- Zlt_Qlt. }
  rewrite E in E'. injection E' as <-.
  exists r. auto.
Qed.

Lemma double_div_counters (a b : nat) :
  (a <= b)%nat -> (0 < b)%nat ->
  exists r, Double.div (JS.of_nat a) (JS.of_nat b) = JS.Fin r
            /\ 0 <= r /\ r <= 1
            /\ Qabs (r - Qnat a / Qnat b) <= 1 # 2 ^ 53.
Proof.
  intros Hab Hb. unfold Double.div. rewrite div_of_nat by assumption.
  cbn [Double.rounded].
  destruct (@scaled_ratio_bounds a b 1 Hab Hb) as [L U]; [lra |].
  rewrite Qmult_1_r in L, U.
  assert (Qnat a / Qnat b <= inject_Z 1) as U' by exact U.
  assert (0 <= Qnat a / Qnat b) as L' by exact L.
  destruct (@round_small (Qnat a / Qnat b) 1 0 L' U' ltac:(lia) ltac:(lia))
    as [r [E [R0 [R1 Herr]]]].
  exists r. repeat split; assumption.
Qed.

Lemma double_mul_const (r : Q) (c k : Z) :
  0 <= r -> r <= 1 -> (0 <= c < 2 ^ (k + 1))%Z -> (0 <= k <= 51)%Z ->
  exists r', Double.mul (JS.Fin r) (JS.of_Z c) = JS.Fin r'
             /\ 0 <= r' /\ r' <= inject_Z c
             /\ Qabs (r' - r * inject_Z c) <= Double.pow2 (k - 53).
Proof.
  intros R0 R1 [C0 C1] Hk. unfold Double.mul, JS.of_Z. cbn [JS.mul Double.rounded].
  assert (0 <= inject_Z c) as Hc.
  { change 0 with (inject_Z 0). now rewrite <- Zle_Qle. }
  assert (0 <= r * inject_Z c) as L by (apply Qmult_le_0_compat; assumption).
  assert (r * inject_Z c <= inject_Z c) as U by nra.
  apply (round_small L U C1 Hk).
Qed.

(** [(a / b) * c] in doubles, for counters [a <= b] and a small constant:
    between 0 and [c] and close to the exact value. *)
Lemma double_scaled_ratio (a b : nat) (c k : Z) :
  (a <= b)%nat -> (0 < b)%nat -> (0 <= c < 2 ^ (k + 1))%Z ->
  (0 <= k <= 51)%Z ->
  exists r, Double.mul (Double.div (JS.of_nat a) (JS.of_nat b)) (JS.of_Z c)
            = JS.Fin r
            /\ 0 <= r /\ r <= inject_Z c
            /\ Qabs (r - Qnat a / Qnat b * inject_Z c)
               <= inject_Z c * (1 # 2 ^ 53) + Double.pow2 (k - 53).
Proof.
  intros Hab Hb Hc Hk.
  destruct (double_div_counters Hab Hb) as [r1 [-> [A0 [A1 Ae]]]].
  destruct (double_mul_const A0 A1 Hc Hk) as [r [-> [B0 [B1 Be]]]].
  exists r. repeat split; try assumption.
  set (t := Qnat a / Qnat b) in *. clearbody t.
  assert (0 <= inject_Z c) as Hc0.
  { change 0 with (inject_Z 0). rewrite <- Zle_Qle. lia. }
  set (C := inject_Z c) in *. clearbody C.
  set (e := Double.pow2 (k - 53)) in *. clearbody e.
  apply Qabs_Qle_condition in Ae. apply Qabs_Qle_condition in Be.
  apply Qabs_Qle_condition.
  destruct Ae as [Ae1 Ae2]. destruct Be as [Be1 Be2].
  assert (0 <= (r1 - t + (1 # 2 ^ 53)) * C) as P1
      by (apply Qmult_le_0_compat; lra).
  assert (0 <= (t + (1 # 2 ^ 53) - r1) * C) as P2
      by (apply Qmult_le_0_compat; lra).
  split; lra.
Qed.



(** A percentage of two counters in doubles: the rounding of a value close
    to the exact percentage, an integer between 0 and 100. *)
Lemma percent_double (a b : nat) :
  (a <= b)%nat -> (0 < b)%nat ->
  exists p, Run.percent a b = JS.of_Z (spec_round p)
            /\ Qabs (p - 100 * Qnat a / Qnat b) <= 1 # 2 ^ 40
            /\ (0 <= spec_round p <= 100)%Z.
Proof.
  intros Hab Hb. unfold Run.percent.
  destruct (@double_scaled_ratio a b 100 6 Hab Hb ltac:(lia) ltac:(lia))
    as [r [-> [R0 [R1 Re]]]].
  exists r. split; [reflexivity |]. split.
  - assert (100 * Qnat a / Qnat b == Qnat a / Qnat b * inject_Z 100) as ->.
    { change (inject_Z 100) with 100. field.
      pose proof (Qnat_pos Hb) as Hp. intros Hz. rewrite Hz in Hp.
      now apply Qlt_irrefl in Hp. }
    eapply Qle_trans; [exact Re |]. vm_compute. discriminate.
  - apply spec_round_bounds; assumption.
Qed.







(** *** Loops that may throw, and the guard aggregator as it runs *)

Section OutcomeFacts.
Variables A S : Type.
Variable step : S -> A -> outcome S.

Lemma for_each_Throws (l : list A) :
  fold_left (fun acc a => bind acc (fun s' => step s' a)) l Throws = Throws.
Proof. induction l as [| a l IH]; simpl; auto. Qed.

Lemma for_each_cons (a : A) (l : list A) (s : S) :
  for_each step (a :: l) s = bind (step s a) (for_each step l).
Proof.
  unfold for_each. simpl. destruct (step s a) as [s' |]; simpl.
  - reflexivity.
  - apply for_each_Throws.
Qed.


(** A property that every returning step keeps holds of what the loop
    returns. *)
Lemma for_each_inv (P : S -> Prop) :
  (forall s a s', P s -> step s a = Returns s' -> P s') ->
  forall l s s', P s -> for_each step l s = Returns s' -> P s'.
Proof.
  intros Hstep l. induction l as [| a l IH]; intros s s' Hs H.
  - injection H as <-. assumption.
  - rewrite for_each_cons in H.
    destruct (step s a) as [s1 |] eqn:E; simpl in H; [| discriminate].
    eapply IH; [| exact H]. eapply Hstep; eauto.
Qed.

(** The loop throws exactly when it meets a row on which the step
    throws. *)
Lemma for_each_throws (P : S -> Prop) (hit : A -> bool) :
  (forall s a s', P s -> step s a = Returns s' -> P s') ->
  (forall s a, P s -> (step s a = Throws <-> hit a = true)) ->
  forall l s, P s -> (for_each step l s = Throws <-> existsb hit l = true).
Proof.
  intros Hkeep Hhit l. induction l as [| a l IH]; intros s Hs.
  - simpl. split; discriminate.
  - rewrite for_each_cons. simpl existsb. rewrite orb_true_iff.
    destruct (step s a) as [s1 |] eqn:E; simpl.
    + rewrite (IH s1) by (eapply Hkeep; eauto).
      assert (hit a = false) as Ha.
      { destruct (hit a) eqn:Eh; [| reflexivity].
        apply (Hhit s a Hs) in Eh. congruence. }
      rewrite Ha. split; [auto | intros [? | ?]; [discriminate | assumption]].
    + split; [| reflexivity]. intros _. left. now apply (Hhit s a Hs).
Qed.

(** A loop over a simulated step returns a simulated result. *)
Lemma for_each_sim (T : Type) (f : S -> T) (pure : T -> A -> T) :
  (forall s a s', step s a = Returns s' -> f s' = pure (f s) a) ->
  forall l s s', for_each step l s = Returns s' ->
                 f s' = fold_left pure l (f s).
Proof.
  intros Hstep l. induction l as [| a l IH]; intros s s' H.
  - injection H as <-. reflexivity.
  - rewrite for_each_cons in H.
    destruct (step s a) as [s1 |] eqn:E; simpl in H; [| discriminate].
    simpl. rewrite <- (Hstep _ _ _ E). now apply IH.
Qed.

End OutcomeFacts.

Section LookupFacts.
Variable V : Type.
Variable inherited : string -> bool.

Lemma lookup_own_keys (o : Obj.t V) (k : string) :
  own_keys inherited o ->
  lookup inherited o k = Inherited <-> inherited k = true.
Proof.
  intros Ho. unfold lookup. split.
  - destruct (Obj.get o k); [discriminate |].
    destruct (inherited k); [reflexivity | discriminate].
  - intros H. now rewrite (Ho k H), H.
Qed.

Lemma own_keys_set (o : Obj.t V) (k : string) (v : V) :
  own_keys inherited o -> lookup inherited o k <> Inherited ->
  own_keys inherited (Obj.set o k v).
Proof.
  intros Ho Hk k' Hi.
  destruct (string_dec k k') as [-> | Hne].
  - elim Hk. now apply lookup_own_keys.
  - rewrite get_set_other by assumption. auto.
Qed.

Lemma own_keys_empty : own_keys inherited (@nil (string * V)).
Proof. intros k _. reflexivity. Qed.

End LookupFacts.

Section MapValues.
Variables V W : Type.
Variable f : V -> W.

Lemma get_map_values (o : Obj.t V) (k : string) :
  Obj.get (map_values f o) k = option_map f (Obj.get o k).
Proof.
  induction o as [| [k' v] o IH]; simpl; [reflexivity |].
  destruct (String.eqb k' k); [reflexivity | exact IH].
Qed.

Lemma set_map_values (o : Obj.t V) (k : string) (v : V) :
  map_values f (Obj.set o k v) = Obj.set (map_values f o) k (f v).
Proof.
  induction o as [| [k' v'] o IH]; simpl; [reflexivity |].
  destruct (String.eqb k' k); simpl; [reflexivity | now rewrite IH].
Qed.

Lemma keys_map_values (o : Obj.t V) : map fst (map_values f o) = map fst o.
Proof. unfold map_values. rewrite map_map. reflexivity. Qed.

Lemma In_map_values (o : Obj.t V) (k : string) (v : V) :
  In (k, v) o -> In (k, f v) (map_values f o).
Proof.
  intros H. unfold map_values. apply in_map_iff. exists (k, v). auto.
Qed.

End MapValues.

Section RunGuardFacts.
Variable inherited : string -> bool.
Variable parseInt : string -> option Z.
Variable parseFloat : string -> JS.number.

Lemma without_hours_shift (g : guard) (record : row) :
  without_hours (Run.guard_shift parseFloat g record)
  = guard_shift no_hours (without_hours g) record.
Proof.
  unfold without_hours, Run.guard_shift, guard_shift, add_duty_hours,
    no_hours; simpl.
  now destruct (JS.truthy (Duty_Hours record)).
Qed.

Lemma attendance_step_sim (o : Obj.t guard) (record : row) (o' : Obj.t guard) :
  Run.attendance_step inherited parseFloat o record = Returns o' ->
  map_values without_hours o'
  = attendance_step no_hours (map_values without_hours o) record.
Proof.
  unfold Run.attendance_step, attendance_step, lookup.
  destruct (negb (JS.truthy (Full_Name record))
            || negb (JS.truthy (Service_Number record))).
  - now intros [= <-].
  - rewrite get_map_values.
    destruct (Obj.get o (text (Service_Number record))) as [g |]; simpl.
    + intros [= <-]. now rewrite set_map_values, without_hours_shift.
    + destruct (inherited (text (Service_Number record))); [discriminate |].
      intros [= <-]. now rewrite set_map_values, without_hours_shift.
Qed.

Lemma activity_step_sim (o : Obj.t guard) (record : row) (o' : Obj.t guard) :
  Run.activity_step inherited parseInt o record = Returns o' ->
  map_values without_hours o'
  = activity_step parseInt (map_values without_hours o) record.
Proof.
  unfold Run.activity_step, activity_step, lookup.
  destruct (negb (JS.truthy (Service_Number record))).
  - now intros [= <-].
  - rewrite get_map_values.
    destruct (Obj.get o (text (Service_Number record))) as [g |]; simpl.
    + intros [= <-]. now rewrite set_map_values.
    + destruct (inherited (text (Service_Number record))); [discriminate |].
      now intros [= <-].
Qed.

Lemma attendance_step_keep (o : Obj.t guard) (record : row) (o' : Obj.t guard) :
  own_keys inherited o ->
  Run.attendance_step inherited parseFloat o record = Returns o' ->
  own_keys inherited o'.
Proof.
  intros Ho. unfold Run.attendance_step.
  destruct (negb (JS.truthy (Full_Name record))
            || negb (JS.truthy (Service_Number record)));
    [now intros [= <-] |].
  destruct (lookup inherited o (text (Service_Number record))) eqn:E;
    [| discriminate |]; intros [= <-];
    (apply own_keys_set; [assumption | congruence]).
Qed.

Lemma activity_step_keep (o : Obj.t guard) (record : row) (o' : Obj.t guard) :
  own_keys inherited o ->
  Run.activity_step inherited parseInt o record = Returns o' ->
  own_keys inherited o'.
Proof.
  intros Ho. unfold Run.activity_step.
  destruct (negb (JS.truthy (Service_Number record)));
    [now intros [= <-] |].
  destruct (lookup inherited o (text (Service_Number record))) eqn:E;
    [| discriminate |]; intros [= <-]; [| assumption].
  apply own_keys_set; [assumption | congruence].
Qed.

Lemma attendance_step_throws (o : Obj.t guard) (record : row) :
  own_keys inherited o ->
  Run.attendance_step inherited parseFloat o record = Throws
  <-> attendance_throws inherited record = true.
Proof.
  intros Ho. unfold Run.attendance_step, attendance_throws.
  destruct (JS.truthy (Full_Name record)); simpl;
    [| split; discriminate].
  destruct (JS.truthy (Service_Number record)); simpl;
    [| split; discriminate].
  rewrite <- (lookup_own_keys (text (Service_Number record)) Ho).
  destruct (lookup inherited o (text (Service_Number record)));
    split; congruence.
Qed.

Lemma activity_step_throws (o : Obj.t guard) (record : row) :
  own_keys inherited o ->
  Run.activity_step inherited parseInt o record = Throws
  <-> activity_throws inherited record = true.
Proof.
  intros Ho. unfold Run.activity_step, activity_throws.
  destruct (JS.truthy (Service_Number record)); simpl;
    [| split; discriminate].
  rewrite <- (lookup_own_keys (text (Service_Number record)) Ho).
  destruct (lookup inherited o (text (Service_Number record)));
    split; congruence.
Qed.

(** The two passes throw on the rows that name an inherited property, and
    otherwise build the dictionary of the aggregation, duty hours apart. *)
Lemma guardMetrics_outcome (activityData attendanceData : list row) :
  (Run.guardMetrics_of inherited parseInt parseFloat
     activityData attendanceData = Throws
   <-> existsb (attendance_throws inherited) attendanceData
       || existsb (activity_throws inherited) activityData = true)
  /\ (forall o,
         Run.guardMetrics_of inherited parseInt parseFloat
           activityData attendanceData = Returns o ->
         map_values without_hours o
         = guardMetrics_of parseInt no_hours activityData attendanceData).
Proof.
  unfold Run.guardMetrics_of, guardMetrics_of.
  pose proof (@for_each_throws _ _
                (Run.attendance_step inherited parseFloat)
                (own_keys inherited) (attendance_throws inherited)
                (@attendance_step_keep)
                (@attendance_step_throws)
                attendanceData [] (@own_keys_empty _ _)) as Hatt.
  destruct (for_each (Run.attendance_step inherited parseFloat)
              attendanceData []) as [o1 |] eqn:E1; simpl.
  - assert (own_keys inherited o1) as Ho1.
    { apply (@for_each_inv _ _ (Run.attendance_step inherited parseFloat)
               (own_keys inherited) (@attendance_step_keep)
               attendanceData [] o1 (@own_keys_empty _ _) E1). }
    assert (existsb (attendance_throws inherited) attendanceData = false)
      as ->.
    { destruct (existsb (attendance_throws inherited) attendanceData);
        [| reflexivity].
      destruct Hatt as [_ H]. discriminate (H eq_refl). }
    simpl. split.
    + apply (@for_each_throws _ _ (Run.activity_step inherited parseInt)
               (own_keys inherited) (activity_throws inherited)
               (@activity_step_keep) (@activity_step_throws)); assumption.
    + intros o H.
      rewrite (@for_each_sim _ _ (Run.activity_step inherited parseInt) _
                 (map_values without_hours)
                 (activity_step parseInt) (@activity_step_sim)
                 activityData o1 o H).
      f_equal.
      apply (@for_each_sim _ _ (Run.attendance_step inherited parseFloat) _
               (map_values without_hours)
               (attendance_step no_hours) (@attendance_step_sim)
               attendanceData [] o1 E1).
  - split; [| discriminate].
    destruct Hatt as [H _]. rewrite (H eq_refl). simpl. tauto.
Qed.

End RunGuardFacts.

Section RunGuardOutput.
Variable inherited : string -> bool.
Variable parseInt : string -> option Z.
Variable parseFloat : string -> JS.number.


End RunGuardOutput.




Section RunGuardKeys.
Variable inherited : string -> bool.
Variable parseInt : string -> option Z.
Variable parseFloat : string -> JS.number.






End RunGuardKeys.




Section RunGuardIds.
Variable inherited : string -> bool.
Variable parseInt : string -> option Z.
Variable parseFloat : string -> JS.number.

Lemma processGuardData_throws (activityData attendanceData : list row) :
  Run.processGuardData inherited parseInt parseFloat
    activityData attendanceData = Throws
  <-> existsb (attendance_throws inherited) attendanceData
      || existsb (activity_throws inherited) activityData = true.
Proof.
  rewrite <- (proj1 (guardMetrics_outcome inherited parseInt parseFloat
                       activityData attendanceData)).
  unfold Run.processGuardData.
  destruct (Run.guardMetrics_of inherited parseInt parseFloat
              activityData attendanceData); simpl; split; congruence.
Qed.

Lemma Run_guard_ids_perm (activityData attendanceData : list row)
  (guardStats : list guard_profile) :
  Run.processGuardData inherited parseInt parseFloat
    activityData attendanceData = Returns guardStats ->
  Permutation (guard_ids guardStats)
    (map fst (guardMetrics_of parseInt no_hours activityData attendanceData)).
Proof.
  unfold Run.processGuardData. intros H.
  destruct (Run.guardMetrics_of inherited parseInt parseFloat
              activityData attendanceData) as [o |] eqn:E; [| discriminate].
  simpl in H. injection H as <-.
  rewrite <- (proj2 (guardMetrics_outcome inherited parseInt parseFloat
                       activityData attendanceData) o E).
  rewrite keys_map_values.
  unfold guard_ids.
  eapply perm_trans; [apply Permutation_map, Array_sort_perm |].
  rewrite map_map. cbn [Run.guard_result profile_guard].
  eapply perm_trans; [apply Permutation_map, Object_values_perm |].
  rewrite map_map.
  assert (forall kv, In kv o -> (snd kv).(id) = fst kv) as Hid.
  { intros [k g] Hin. simpl.
    apply (In_map_values without_hours) in Hin.
    rewrite (proj2 (guardMetrics_outcome inherited parseInt parseFloat
                      activityData attendanceData) o E) in Hin.
    now destruct (@guardMetrics_entry _ _ _ _ _ _ Hin) as [E0 _]. }
  rewrite (map_ext_in _ _ _ Hid). apply Permutation_refl.
Qed.

End RunGuardIds.

(** The profiles that [processGuardData] returns are those of the seeded
    service numbers, one for each. *)
Lemma Run_guard_ids_spec (inherited : string -> bool)
  (parseInt : string -> option Z) (parseFloat : string -> JS.number)
  (activityData attendanceData : list row) (guardStats : list guard_profile) :
  Run.processGuardData inherited parseInt parseFloat
    activityData attendanceData = Returns guardStats ->
  NoDup (guard_ids guardStats)
  /\ (forall k, In k (guard_ids guardStats)
                <-> seeded attendanceData k = true).
Proof.
  intros H.
  pose proof (@Run_guard_ids_perm _ _ _ _ _ _ H) as Hperm.
  split.
  - apply (Permutation_NoDup (Permutation_sym Hperm)).
    apply guardMetrics_keys.
  - intros k. split.
    + intros Hk. apply (Permutation_in _ Hperm) in Hk.
      apply keys_get in Hk.
      destruct (seeded attendanceData k) eqn:Es; [reflexivity |].
      elim Hk. now apply guardMetrics_get_None.
    + intros Hs. apply (Permutation_in _ (Permutation_sym Hperm)).
      apply keys_get. intros Hn.
      apply guardMetrics_get_None in Hn. congruence.
Qed.

Lemma Run_no_attendance (inherited : string -> bool)
  (parseInt : string -> option Z) (parseFloat : string -> JS.number)
  (activityData : list row) :
  existsb (activity_throws inherited) activityData = false ->
  Run.processGuardData inherited parseInt parseFloat activityData []
  = Returns [].
Proof.
  intros Hno.
  destruct (Run.processGuardData inherited parseInt parseFloat
              activityData []) as [out |] eqn:E.
  - pose proof (@Run_guard_ids_perm _ _ _ _ _ _ E) as Hperm.
    assert (guardMetrics_of parseInt no_hours activityData [] = []) as Hnil.
    { destruct (guardMetrics_of parseInt no_hours activityData [])
        as [| [k g] o] eqn:Eo; [reflexivity |].
      assert (Obj.get (guardMetrics_of parseInt no_hours activityData []) k
              = None) as Hk by now apply guardMetrics_get_None.
      rewrite Eo in Hk. simpl in Hk. now rewrite String.eqb_refl in Hk. }
    rewrite Hnil in Hperm. apply Permutation_sym in Hperm.
    apply Permutation_nil in Hperm.
    destruct out; [reflexivity | discriminate].
  - apply processGuardData_throws in E. simpl in E. congruence.
Qed.

(** X3.  [processGuardData] throws exactly when an attendance row with a
    guard name, or an activity row, has a service number that is the name
    of an inherited property.  When it returns, it returns one profile for
    each service number that the attendance rows seeded and no other; and
    without attendance rows it returns no profile, whatever the activity
    rows (that do not make it throw). *)
Theorem one_profile_per_seeded_guard :
  forall (inherited : string -> bool) (parseInt : string -> option Z)
         (parseFloat : string -> JS.number)
         (activityData attendanceData : list row),
    (Run.processGuardData inherited parseInt parseFloat
       activityData attendanceData = Throws
     <-> existsb (attendance_throws inherited) attendanceData
         || existsb (activity_throws inherited) activityData = true)
    /\ (forall guardStats,
           Run.processGuardData inherited parseInt parseFloat
             activityData attendanceData = Returns guardStats ->
           NoDup (guard_ids guardStats)
           /\ (forall k, In k (guard_ids guardStats)
                         <-> seeded attendanceData k = true))
    /\ (existsb (activity_throws inherited) activityData = false ->
        Run.processGuardData inherited parseInt parseFloat activityData []
        = Returns []).
Proof.
  intros inherited parseInt parseFloat activityData attendanceData.
  split; [apply processGuardData_throws |]. split.
  - intros guardStats. apply Run_guard_ids_spec.
  - apply Run_no_attendance.
Qed.

(** *** The location aggregator as it runs *)

Section RunLocationFacts.
Variable inherited : string -> bool.
Variable parseFloat : string -> JS.number.

Local Open Scope nat_scope.

Lemma Run_location_step_get (l : string) (o : Obj.t location) (record : row)
  (o' : Obj.t location) :
  Run.location_step inherited parseFloat o record = Returns o' ->
  Obj.get o' l = location_entry_step parseFloat l (Obj.get o l) record.
Proof.
  unfold Run.location_step, location_entry_step, at_post, lookup.
  destruct (JS.truthy (Post_Name record)); simpl; [| now intros [= <-]].
  destruct (Obj.get o (text (Post_Name record))) as [m |] eqn:E.
  - intros [= <-].
    destruct (String.eqb_spec (text (Post_Name record)) l) as [<- | Hne].
    + now rewrite get_set_same, E.
    + now rewrite get_set_other.
  - destruct (inherited (text (Post_Name record))); [discriminate |].
    intros [= <-].
    destruct (String.eqb_spec (text (Post_Name record)) l) as [<- | Hne].
    + now rewrite get_set_same, E.
    + now rewrite get_set_other.
Qed.

Lemma Run_locationMetrics_get (data : list row) (l : string)
  (o : Obj.t location) :
  Run.locationMetrics_of inherited parseFloat data = Returns o ->
  Obj.get o l = fold_left (location_entry_step parseFloat l) data None.
Proof.
  intros H. unfold Run.locationMetrics_of in H.
  apply (@for_each_sim _ _ (Run.location_step inherited parseFloat) _
           (fun o => Obj.get o l) (location_entry_step parseFloat l)
           (@Run_location_step_get l) data [] o H).
Qed.

Lemma location_entry_fold (data : list row) (l : string) :
  forall cur,
    fold_left (location_entry_step parseFloat l) data cur
    = match filter (at_post l) data with
      | [] => cur
      | _ :: _ =>
          Some (fold_left (Run.location_shift parseFloat)
                  (filter (at_post l) data)
                  (match cur with Some m => m | None => new_location l end))
      end.
Proof.
  induction data as [| r data IH]; intros cur; cbn [fold_left filter];
    [reflexivity |].
  rewrite IH. unfold location_entry_step.
  destruct (at_post l r); [| reflexivity].
  now destruct (filter (at_post l) data).
Qed.

(** The counters and the duty hours of an entry after a run of rows of its
    post. *)
Lemma Run_location_shift_fold (rs : list row) :
  forall m,
    let m' := fold_left (Run.location_shift parseFloat) rs m in
    m'.(loc_location) = m.(loc_location)
    /\ m'.(loc_shifts_total) = m.(loc_shifts_total) + List.length rs
    /\ m'.(loc_shifts_covered)
       = m.(loc_shifts_covered)
         + List.length (filter (fun r => JS.truthy (Full_Name r)) rs)
    /\ m'.(loc_shifts_onTime)
       = m.(loc_shifts_onTime)
         + List.length
             (filter (fun r => JS.truthy (Full_Name r)
                               && JS.str_is (Late_Hours r) "On-time") rs)
    /\ m'.(loc_shiftHours)
       = fold_left Double.add
           (duty_hours parseFloat
              (filter (fun r => JS.truthy (Full_Name r)) rs))
           m.(loc_shiftHours).
Proof.
  induction rs as [| r rs IH]; intros m; simpl.
  - repeat split; lia.
  - destruct (IH (Run.location_shift parseFloat m r))
      as [H1 [H2 [H3 [H4 H5]]]].
    rewrite H1, H2, H3, H4, H5. unfold Run.location_shift.
    destruct (JS.truthy (Full_Name r)) eqn:En; simpl;
      [destruct (JS.str_is (Late_Hours r) "On-time"); simpl |];
      (repeat (split; [solve [reflexivity | lia] |])); try reflexivity.
    all: unfold duty_hours; cbn [flat_map]; rewrite fold_left_app;
      f_equal; unfold Run.add_duty_hours, JS.truthy;
      destruct (Duty_Hours r) as [s |]; [| reflexivity];
      destruct (String.eqb s EmptyString); [reflexivity |];
      cbn [negb text]; now destruct (parseFloat s).
Qed.

Lemma Run_location_step_keys (o : Obj.t location) (record : row)
  (o' : Obj.t location) :
  NoDup (map fst o) ->
  Run.location_step inherited parseFloat o record = Returns o' ->
  NoDup (map fst o').
Proof.
  intros Ho. unfold Run.location_step.
  destruct (negb (JS.truthy (Post_Name record))); [now intros [= <-] |].
  destruct (lookup inherited o (text (Post_Name record)));
    [| discriminate |]; intros [= <-]; now apply set_keys_NoDup.
Qed.

Lemma Run_locationMetrics_keys (data : list row) (o : Obj.t location) :
  Run.locationMetrics_of inherited parseFloat data = Returns o ->
  NoDup (map fst o).
Proof.
  intros H.
  apply (@for_each_inv _ _ (Run.location_step inherited parseFloat)
           (fun o : Obj.t location => NoDup (map fst o))
           (@Run_location_step_keys) data [] o (NoDup_nil _) H).
Qed.

(** Every entry of [locationMetrics] holds the counts and the duty hours
    of its own post. *)
Lemma Run_locationMetrics_entry (data : list row) (o : Obj.t location)
  (k : string) (m : location) :
  Run.locationMetrics_of inherited parseFloat data = Returns o ->
  In (k, m) o ->
  m.(loc_location) = k
  /\ m.(loc_shifts_total) = count (at_post k) data
  /\ m.(loc_shifts_covered) = count (covered_at k) data
  /\ m.(loc_shifts_onTime) = count (onTime_at k) data
  /\ m.(loc_shiftHours)
     = double_sum (duty_hours parseFloat (filter (covered_at k) data))
  /\ 1 <= count (at_post k) data.
Proof.
  intros Ho H. apply In_get in H; [| now apply (Run_locationMetrics_keys data)].
  rewrite (Run_locationMetrics_get data k Ho), location_entry_fold in H.
  assert (m = fold_left (Run.location_shift parseFloat)
                (filter (at_post k) data) (new_location k)
          /\ 1 <= count (at_post k) data) as [-> Hpos].
  { unfold count. destruct (filter (at_post k) data); [discriminate |].
    split; [now injection H | simpl; lia]. }
  destruct (Run_location_shift_fold (filter (at_post k) data)
              (new_location k))
    as [H1 [H2 [H3 [H4 H5]]]].
  rewrite H1, H2, H3, H4, H5. unfold count, covered_at, onTime_at, double_sum.
  rewrite !filter_filter. simpl.
  repeat split; try reflexivity; try assumption.
  f_equal. apply filter_ext. intros a. now rewrite andb_assoc.
Qed.

End RunLocationFacts.

Section RunLocationOutput.
Variable inherited : string -> bool.
Variable parseFloat : string -> JS.number.

Lemma Run_location_step_keep (o : Obj.t location) (record : row)
  (o' : Obj.t location) :
  own_keys inherited o ->
  Run.location_step inherited parseFloat o record = Returns o' ->
  own_keys inherited o'.
Proof.
  intros Ho. unfold Run.location_step.
  destruct (negb (JS.truthy (Post_Name record))); [now intros [= <-] |].
  destruct (lookup inherited o (text (Post_Name record))) eqn:E;
    [| discriminate |]; intros [= <-];
    (apply own_keys_set; [assumption | congruence]).
Qed.

Lemma Run_location_step_throws (o : Obj.t location) (record : row) :
  own_keys inherited o ->
  Run.location_step inherited parseFloat o record = Throws
  <-> location_throws inherited record = true.
Proof.
  intros Ho. unfold Run.location_step, location_throws.
  destruct (JS.truthy (Post_Name record)); simpl; [| split; discriminate].
  rewrite <- (lookup_own_keys (text (Post_Name record)) Ho).
  destruct (lookup inherited o (text (Post_Name record)));
    split; congruence.
Qed.

Lemma processLocationCoverage_throws (data : list row) :
  Run.processLocationCoverage inherited parseFloat data = Throws
  <-> existsb (location_throws inherited) data = true.
Proof.
  rewrite <- (@for_each_throws _ _ (Run.location_step inherited parseFloat)
                (own_keys inherited) (location_throws inherited)
                (@Run_location_step_keep) (@Run_location_step_throws)
                data [] (@own_keys_empty _ _)).
  unfold Run.processLocationCoverage, Run.locationMetrics_of.
  destruct (for_each (Run.location_step inherited parseFloat) data []);
    simpl; split; congruence.
Qed.


Lemma Run_locationMetrics_get_None (data : list row) (o : Obj.t location)
  (k : string) :
  Run.locationMetrics_of inherited parseFloat data = Returns o ->
  Obj.get o k = None <-> posted data k = false.
Proof.
  intros H.
  rewrite (@Run_locationMetrics_get inherited parseFloat data k o H),
    location_entry_fold.
  unfold posted.
  destruct (filter (at_post k) data) as [| r rs] eqn:E.
  - split; [intros _ | reflexivity].
    destruct (existsb (at_post k) data) eqn:Ex; [| reflexivity].
    apply existsb_exists in Ex as [x [Hx Hp]].
    assert (In x (filter (at_post k) data)) as Hin by (apply filter_In; auto).
    rewrite E in Hin. contradiction.
  - split; [discriminate |]. intros Hn.
    assert (In r (filter (at_post k) data)) as Hin by (rewrite E; now left).
    apply filter_In in Hin as [Hin Hp].
    assert (existsb (at_post k) data = true) as Hex.
    { apply existsb_exists. eauto. }
    congruence.
Qed.

Lemma Run_post_names_perm (data : list row)
  (locations : list location_profile) :
  Run.processLocationCoverage inherited parseFloat data = Returns locations ->
  exists o,
    Run.locationMetrics_of inherited parseFloat data = Returns o
    /\ Permutation (post_names locations) (map fst o).
Proof.
  unfold Run.processLocationCoverage. intros H.
  destruct (Run.locationMetrics_of inherited parseFloat data) as [o |] eqn:E;
    [| discriminate].
  simpl in H. injection H as <-. exists o. split; [reflexivity |].
  unfold post_names.
  eapply perm_trans; [apply Permutation_map, Array_sort_perm |].
  rewrite map_map. cbn [Run.location_result profile_location].
  eapply perm_trans; [apply Permutation_map, Object_values_perm |].
  rewrite map_map.
  assert (forall kv, In kv o -> (snd kv).(loc_location) = fst kv) as Hid.
  { intros [k m] Hin. simpl.
    now destruct (@Run_locationMetrics_entry inherited parseFloat data o k m
                    E Hin) as [E0 _]. }
  rewrite (map_ext_in _ _ _ Hid). apply Permutation_refl.
Qed.

End RunLocationOutput.




(** The profiles that [processLocationCoverage] returns are those of the
    posts of the rows, one for each. *)
Lemma Run_post_names_spec (inherited : string -> bool)
  (parseFloat : string -> JS.number) (data : list row)
  (locations : list location_profile) :
  Run.processLocationCoverage inherited parseFloat data = Returns locations ->
  NoDup (post_names locations)
  /\ (forall l, In l (post_names locations) <-> posted data l = true).
Proof.
  intros H.
  destruct (@Run_post_names_perm inherited parseFloat data locations H)
    as [o [Ho Hperm]].
  split.
  - apply (Permutation_NoDup (Permutation_sym Hperm)).
    exact (@Run_locationMetrics_keys inherited parseFloat data o Ho).
  - intros l. split.
    + intros Hl. apply (Permutation_in _ Hperm) in Hl.
      apply keys_get in Hl.
      destruct (posted data l) eqn:Ep; [reflexivity |].
      elim Hl.
      now apply (@Run_locationMetrics_get_None inherited parseFloat data o l
                   Ho).
    + intros Hp. apply (Permutation_in _ (Permutation_sym Hperm)).
      apply keys_get. intros Hn.
      apply (@Run_locationMetrics_get_None inherited parseFloat data o l Ho)
        in Hn.
      congruence.
Qed.

(** X4.  [processLocationCoverage] throws exactly when a row has a post
    name that is the name of an inherited property.  When it returns, it
    returns one profile for each post name of the rows and no other. *)
Theorem one_profile_per_post :
  forall (inherited : string -> bool) (parseFloat : string -> JS.number)
         (data : list row),
    (Run.processLocationCoverage inherited parseFloat data = Throws
     <-> existsb (location_throws inherited) data = true)
    /\ (forall locations,
           Run.processLocationCoverage inherited parseFloat data
           = Returns locations ->
           NoDup (post_names locations)
           /\ (forall l, In l (post_names locations)
                         <-> posted data l = true)).
Proof.
  intros inherited parseFloat data.
  split; [apply processLocationCoverage_throws |].
  intros locations. apply Run_post_names_spec.
Qed.

(** *** The overall compliance as it runs *)

Lemma in_0_100_percent_double (a b : nat) :
  (a <= b)%nat -> (0 < b)%nat -> in_0_100 (Run.percent a b) = true.
Proof.
  intros Hab Hb. destruct (percent_double Hab Hb) as [p [-> [_ Hr]]].
  now apply in_0_100_of_Z.
Qed.




Section RunProfiles.
Variable inherited : string -> bool.
Variable parseInt : string -> option Z.
Variable parseFloat : string -> JS.number.



End RunProfiles.


(** *** The coverage object and the guard statistics of [App.js] as they run *)

Section AppRunCoverage.
Variable inherited : string -> bool.

Lemma AppRun_location_step_keep (o : Obj.t App.location) (record : row)
  (o' : Obj.t App.location) :
  own_keys inherited o ->
  AppRun.location_step inherited o record = Returns o' ->
  own_keys inherited o'.
Proof.
  intros Ho. unfold AppRun.location_step.
  destruct (negb (JS.truthy (Post_Name record))); [now intros [= <-] |].
  destruct (lookup inherited o (text (Post_Name record))) eqn:E.
  - intros [= <-]. apply own_keys_set; [assumption | congruence].
  - destruct (JS.truthy (Full_Name record)); [discriminate |].
    now intros [= <-].
  - intros [= <-]. apply own_keys_set; [assumption | congruence].
Qed.

Lemma AppRun_location_step_throws (o : Obj.t App.location) (record : row) :
  own_keys inherited o ->
  AppRun.location_step inherited o record = Throws
  <-> coverage_throws inherited record = true.
Proof.
  intros Ho. unfold AppRun.location_step, coverage_throws, location_throws.
  destruct (JS.truthy (Post_Name record)); simpl; [| split; discriminate].
  pose proof (lookup_own_keys (text (Post_Name record)) Ho) as Hl.
  destruct (lookup inherited o (text (Post_Name record))).
  - destruct (inherited (text (Post_Name record))); simpl.
    + destruct Hl as [_ Hl]. discriminate (Hl eq_refl).
    + split; discriminate.
  - destruct Hl as [Hl _]. rewrite (Hl eq_refl). simpl.
    destruct (JS.truthy (Full_Name record)); split; congruence.
  - destruct (inherited (text (Post_Name record))); simpl.
    + destruct Hl as [_ Hl]. discriminate (Hl eq_refl).
    + split; discriminate.
Qed.

(** A step that returns does what the aggregation does on the rows of own
    posts, and nothing on the others. *)
Lemma AppRun_location_step_sim (o : Obj.t App.location) (record : row)
  (o' : Obj.t App.location) :
  own_keys inherited o ->
  AppRun.location_step inherited o record = Returns o' ->
  o' = fold_left App.location_step (own_posts inherited [record]) o.
Proof.
  intros Ho. unfold AppRun.location_step, own_posts, location_throws,
    App.location_step.
  cbn [filter].
  destruct (JS.truthy (Post_Name record)) eqn:Et; simpl.
  - pose proof (lookup_own_keys (text (Post_Name record)) Ho) as Hl.
    unfold lookup in *.
    destruct (Obj.get o (text (Post_Name record))) as [m |] eqn:Eg.
    + destruct (inherited (text (Post_Name record))) eqn:Ei.
      * rewrite (Ho _ Ei) in Eg. discriminate.
      * intros [= <-]. simpl. now rewrite Et, Eg.
    + destruct (inherited (text (Post_Name record))) eqn:Ei; simpl.
      * destruct (JS.truthy (Full_Name record)); [discriminate |].
        now intros [= <-].
      * intros [= <-]. now rewrite Et, Eg.
  - intros [= <-]. simpl. now rewrite Et.
Qed.

Lemma AppRun_coverage_returns (data : list row) :
  forall o o',
    own_keys inherited o ->
    for_each (AppRun.location_step inherited) data o = Returns o' ->
    o' = fold_left App.location_step (own_posts inherited data) o.
Proof.
  induction data as [| r data IH]; intros o o' Ho H.
  - now injection H as <-.
  - rewrite for_each_cons in H.
    destruct (AppRun.location_step inherited o r) as [o1 |] eqn:E;
      simpl in H; [| discriminate].
    rewrite (IH o1 o' (AppRun_location_step_keep _ Ho E) H).
    rewrite (AppRun_location_step_sim _ Ho E).
    unfold own_posts. rewrite <- fold_left_app.
    now rewrite <- filter_app.
Qed.

Lemma processLocationCoverage_App_outcome (data : list row) :
  (AppRun.processLocationCoverage inherited data = Throws
   <-> existsb (coverage_throws inherited) data = true)
  /\ (forall o,
         AppRun.processLocationCoverage inherited data = Returns o ->
         o = App.processLocationCoverage (own_posts inherited data)).
Proof.
  unfold AppRun.processLocationCoverage. split.
  - apply (@for_each_throws _ _ (AppRun.location_step inherited)
             (own_keys inherited) (coverage_throws inherited)
             (@AppRun_location_step_keep) (@AppRun_location_step_throws)
             data [] (@own_keys_empty _ _)).
  - intros o H. apply (AppRun_coverage_returns data (@own_keys_empty _ _) H).
Qed.

(** The rows of an own post are all among the rows that count. *)
Lemma own_posts_at_post (data : list row) (l : string) (p : row -> bool) :
  inherited l = false ->
  filter (fun r => at_post l r && p r) (own_posts inherited data)
  = filter (fun r => at_post l r && p r) data.
Proof.
  intros Hl. unfold own_posts. rewrite filter_filter.
  apply filter_ext. intros r. unfold at_post, location_throws.
  destruct (JS.truthy (Post_Name r)); simpl; [| reflexivity].
  destruct (String.eqb_spec (text (Post_Name r)) l) as [-> | Hne]; simpl.
  - now rewrite Hl.
  - now rewrite andb_false_r.
Qed.

Lemma own_posts_posted (data : list row) (l : string) :
  posted (own_posts inherited data) l
  = posted data l && negb (inherited l).
Proof.
  unfold posted, own_posts.
  induction data as [| r data IH]; simpl; [reflexivity |].
  unfold location_throws at 1, at_post at 2.
  destruct (JS.truthy (Post_Name r)) eqn:Et; simpl.
  - destruct (inherited (text (Post_Name r))) eqn:Ei; simpl.
    + rewrite IH.
      destruct (String.eqb_spec (text (Post_Name r)) l) as [<- | Hne];
        simpl; [| reflexivity].
      rewrite Ei. simpl. now rewrite !andb_false_r.
    + rewrite IH. unfold at_post at 1. rewrite Et. simpl.
      destruct (String.eqb_spec (text (Post_Name r)) l) as [<- | Hne];
        simpl; [| reflexivity].
      now rewrite Ei.
  - rewrite IH. unfold at_post at 1. rewrite Et. reflexivity.
Qed.

End AppRunCoverage.

(** X14.  The [processLocationCoverage] of [App.js] throws exactly when a
    row with a guard name has a post name that is the name of an inherited
    property.  When it returns, the coverage object has one entry for each
    post name of the rows that is no such name, and no other; every entry
    counts the rows, the covered rows and the alert rows of its post, and
    the percentage that the chart shows for it is from 0 to 100. *)
Theorem coverage_entries_count_their_post :
  forall (inherited : string -> bool) (data : list row),
    (AppRun.processLocationCoverage inherited data = Throws
     <-> existsb (coverage_throws inherited) data = true)
    /\ (forall locationCoverage,
           AppRun.processLocationCoverage inherited data
           = Returns locationCoverage ->
           NoDup (map fst locationCoverage)
           /\ (forall l, In l (map fst locationCoverage)
                         <-> posted data l = true /\ inherited l = false)
           /\ Forall
                (fun entry =>
                   let l := fst entry in
                   let m := snd entry in
                   (m.(App.location_total) = count (at_post l) data
                    /\ m.(App.location_covered) = count (covered_at l) data
                    /\ m.(App.location_alerts) = count (alert_at l) data
                    /\ 1 <= m.(App.location_total)
                    /\ m.(App.location_covered) <= m.(App.location_total)
                    /\ m.(App.location_alerts) <= m.(App.location_total))%nat
                   /\ in_0_100 (AppRun.coverage_percent m) = true)
                locationCoverage).
Proof.
  intros inherited data.
  destruct (processLocationCoverage_App_outcome inherited data) as [HT HR].
  split; [exact HT |].
  intros o Ho. rewrite (HR o Ho). clear HR Ho o.
  set (kept := own_posts inherited data).
  split; [apply coverage_keys | split].
  - intros l. rewrite keys_get, coverage_entry. unfold kept.
    rewrite own_posts_posted.
    destruct (posted data l); destruct (inherited l); simpl;
      split; try congruence; try tauto; intros [? ?]; congruence.
  - rewrite Forall_forall. intros [l m] Hin. cbn [fst snd].
    apply In_get in Hin; [| apply coverage_keys].
    destruct (coverage_entry_counts _ _ Hin) as [H1 [H2 H3]].
    assert (posted data l = true /\ inherited l = false) as [Hp Hi].
    { rewrite coverage_entry in Hin. unfold kept in Hin.
      rewrite own_posts_posted in Hin.
      destruct (posted data l); destruct (inherited l); simpl in Hin;
        try discriminate. auto. }
    assert (forall p, count (fun r => at_post l r && p r) kept
                      = count (fun r => at_post l r && p r) data) as Hc.
    { intros p. unfold count, kept. now rewrite own_posts_at_post. }
    assert (count (at_post l) kept = count (at_post l) data) as E1.
    { unfold count.
      rewrite (filter_ext _ (fun r => at_post l r && true))
        by (intros r; now rewrite andb_true_r).
      rewrite (filter_ext (at_post l) (fun r => at_post l r && true))
        by (intros r; now rewrite andb_true_r).
      apply (Hc (fun _ => true)). }
    assert (count (covered_at l) kept = count (covered_at l) data) as E2.
    { unfold covered_at. apply Hc. }
    assert (count (alert_at l) kept = count (alert_at l) data) as E3.
    { unfold alert_at. apply Hc. }
    rewrite E1 in H1. rewrite E2 in H2. rewrite E3 in H3.
    assert (1 <= count (at_post l) data)%nat as Hpos.
    { apply existsb_exists in Hp as [r [Hr Hat]].
      unfold count. apply (filter_In_length _ _ _ Hr Hat). }
    assert (count (covered_at l) data <= count (at_post l) data)%nat as Hcv.
    { apply count_le. unfold covered_at. intros r H.
      now apply andb_prop in H. }
    assert (count (alert_at l) data <= count (at_post l) data)%nat as Ha.
    { apply count_le. unfold alert_at. intros r H.
      now apply andb_prop in H. }
    rewrite H1, H2, H3.
    split; [repeat split; assumption |].
    unfold AppRun.coverage_percent. rewrite H1, H2.
    apply in_0_100_percent_double; lia.
Qed.

Section SortFacts.
Variable A : Type.

Lemma sort_insert_ext (cmp cmp' : A -> A -> JS.number) (x : A) (l : list A) :
  (forall b, In b l -> Obj.cmp_le0 (cmp x b) = Obj.cmp_le0 (cmp' x b)) ->
  Obj.sort_insert cmp x l = Obj.sort_insert cmp' x l.
Proof.
  induction l as [| y l IH]; intros H; simpl; [reflexivity |].
  rewrite (H y) by now left.
  destruct (Obj.cmp_le0 (cmp' x y)); [reflexivity |].
  f_equal. apply IH. intros b Hb. apply H. now right.
Qed.

(** Sorting looks at the sign of the comparator only. *)
Lemma Array_sort_ext (cmp cmp' : A -> A -> JS.number) (l : list A) :
  (forall a b, In a l -> In b l ->
               Obj.cmp_le0 (cmp a b) = Obj.cmp_le0 (cmp' a b)) ->
  Obj.Array_sort cmp l = Obj.Array_sort cmp' l.
Proof.
  induction l as [| x l IH]; intros H; simpl; [reflexivity |].
  rewrite IH by (intros a b Ha Hb; apply H; now right).
  apply sort_insert_ext. intros b Hb. apply H; [now left |].
  right. now apply Array_sort_In in Hb.
Qed.

End SortFacts.

(** The difference of two small integers has the same sign in doubles. *)
Lemma double_sub_sign (x y : Z) :
  (- 2 ^ 52 < x < 2 ^ 52)%Z -> (- 2 ^ 52 < y < 2 ^ 52)%Z ->
  Obj.cmp_le0 (Double.sub (JS.of_Z x) (JS.of_Z y))
  = Obj.cmp_le0 (JS.sub (JS.of_Z x) (JS.of_Z y)).
Proof.
  intros Hx Hy. unfold Double.sub, JS.of_Z. cbn [JS.sub Double.rounded].
  assert (inject_Z x - inject_Z y == inject_Z (x - y)) as Eq.
  { unfold Z.sub. rewrite inject_Z_plus, inject_Z_opp. reflexivity. }
  destruct (@round_between (inject_Z x - inject_Z y) (x - y) (x - y))
    as [r [-> [R1 R2]]]; try lia; try (rewrite Eq; apply Qle_refl).
  unfold Obj.cmp_le0.
  pose proof (Qred_correct r) as Er.
  destruct (Qle_bool (inject_Z x - inject_Z y) 0) eqn:E.
  - apply Qle_bool_iff in E. apply Qle_bool_iff. lra.
  - destruct (Qle_bool (Qred r) 0) eqn:E'; [| reflexivity].
    apply Qle_bool_iff in E'.
    assert (inject_Z x - inject_Z y <= 0) as H by lra.
    apply Qle_bool_iff in H. congruence.
Qed.

(** A list sorted with the comparator [b - a] on small integer keys is in
    descending order, in doubles as well. *)
Lemma Array_sort_descending_double (A : Type) (num : A -> JS.number)
  (l : list A) :
  Forall (fun a => integer (num a)
                   /\ (- 2 ^ 52 < number_key (num a) < 2 ^ 52)%Z) l ->
  StronglySorted (fun a b => JS.le (num b) (num a) = true)
    (Obj.Array_sort (fun a b => Double.sub (num b) (num a)) l).
Proof.
  intros Hl.
  rewrite (@Array_sort_ext _ (fun a b => Double.sub (num b) (num a))
             (fun a b => JS.sub (num b) (num a))).
  - apply Array_sort_descending.
    eapply Forall_impl; [| exact Hl]. now intros a [H _].
  - rewrite Forall_forall in Hl. intros a b Ha Hb.
    destruct (Hl a Ha) as [Ia Ra]. destruct (Hl b Hb) as [Ib Rb].
    rewrite Ia, Ib. now apply double_sub_sign.
Qed.

Section AppRunGuards.
Variable inherited : string -> bool.
Variable parseInt : string -> option Z.
Variable User_Name : row -> option string.

Lemma AppRun_guard_step_keep (o : Obj.t App.guard) (record : row)
  (o' : Obj.t App.guard) :
  own_keys inherited o ->
  AppRun.guard_step inherited parseInt User_Name o record = Returns o' ->
  own_keys inherited o'.
Proof.
  intros Ho. unfold AppRun.guard_step.
  destruct (negb (JS.truthy (Service_Number record))); [now intros [= <-] |].
  destruct (lookup inherited o (text (Service_Number record))) eqn:E;
    [| discriminate |]; intros [= <-];
    (apply own_keys_set; [assumption | congruence]).
Qed.

Lemma AppRun_guard_step_throws (o : Obj.t App.guard) (record : row) :
  own_keys inherited o ->
  AppRun.guard_step inherited parseInt User_Name o record = Throws
  <-> activity_throws inherited record = true.
Proof.
  intros Ho. unfold AppRun.guard_step, activity_throws.
  destruct (JS.truthy (Service_Number record)); simpl;
    [| split; discriminate].
  rewrite <- (lookup_own_keys (text (Service_Number record)) Ho).
  destruct (lookup inherited o (text (Service_Number record)));
    split; congruence.
Qed.

Lemma AppRun_guard_step_sim (o : Obj.t App.guard) (record : row)
  (o' : Obj.t App.guard) :
  AppRun.guard_step inherited parseInt User_Name o record = Returns o' ->
  o' = App.guard_step parseInt User_Name o record.
Proof.
  unfold AppRun.guard_step, App.guard_step, lookup.
  destruct (negb (JS.truthy (Service_Number record))); [now intros [= <-] |].
  destruct (Obj.get o (text (Service_Number record))).
  - now intros [= <-].
  - destruct (inherited (text (Service_Number record))); [discriminate |].
    now intros [= <-].
Qed.

Lemma guardStats_App_outcome (activityData : list row) :
  (AppRun.guardStats_of inherited parseInt User_Name activityData = Throws
   <-> existsb (activity_throws inherited) activityData = true)
  /\ (forall o,
         AppRun.guardStats_of inherited parseInt User_Name activityData
         = Returns o ->
         o = App.guardStats_of parseInt User_Name activityData).
Proof.
  unfold AppRun.guardStats_of, App.guardStats_of. split.
  - apply (@for_each_throws _ _
             (AppRun.guard_step inherited parseInt User_Name)
             (own_keys inherited) (activity_throws inherited)
             (@AppRun_guard_step_keep) (@AppRun_guard_step_throws)
             activityData [] (@own_keys_empty _ _)).
  - intros o H.
    apply (@for_each_sim _ _
             (AppRun.guard_step inherited parseInt User_Name) _
             (fun o => o) (App.guard_step parseInt User_Name)
             (@AppRun_guard_step_sim) activityData [] o H).
Qed.

Lemma processGuardStatistics_throws (activityData attendanceData : list row) :
  AppRun.processGuardStatistics inherited parseInt User_Name
    activityData attendanceData = Throws
  <-> existsb (activity_throws inherited) activityData = true.
Proof.
  rewrite <- (proj1 (guardStats_App_outcome activityData)).
  unfold AppRun.processGuardStatistics.
  destruct (AppRun.guardStats_of inherited parseInt User_Name activityData);
    simpl; split; congruence.
Qed.

Lemma processGuardStatistics_returns (activityData attendanceData : list row)
  (guardStats : list App.guard_statistics) :
  AppRun.processGuardStatistics inherited parseInt User_Name
    activityData attendanceData = Returns guardStats ->
  guardStats
  = Obj.Array_sort
      (fun a b => Double.sub b.(App.punctualityRate) a.(App.punctualityRate))
      (map AppRun.guard_result
         (Obj.Object_values
            (App.guardStats_of parseInt User_Name activityData))).
Proof.
  unfold AppRun.processGuardStatistics. intros H.
  destruct (AppRun.guardStats_of inherited parseInt User_Name activityData)
    as [o |] eqn:E; [| discriminate].
  simpl in H. injection H as <-.
  now rewrite (proj2 (guardStats_App_outcome activityData) o E).
Qed.

Lemma AppRun_stat_ids_perm (activityData attendanceData : list row)
  (guardStats : list App.guard_statistics) :
  AppRun.processGuardStatistics inherited parseInt User_Name
    activityData attendanceData = Returns guardStats ->
  Permutation (stat_ids guardStats)
    (map fst (App.guardStats_of parseInt User_Name activityData)).
Proof.
  intros H. rewrite (processGuardStatistics_returns _ _ H).
  unfold stat_ids.
  eapply perm_trans; [apply Permutation_map, Array_sort_perm |].
  rewrite map_map. cbn [AppRun.guard_result App.stat_guard].
  eapply perm_trans; [apply Permutation_map, Object_values_perm |].
  rewrite map_map.
  erewrite map_ext_in; [apply Permutation_refl |].
  intros [k g] Hin. cbn [fst snd].
  now destruct (@guardStats_inv parseInt User_Name activityData k g Hin)
    as [_ E].
Qed.

(** The statistics that are returned are those of the active service
    numbers, one for each, in descending order of punctuality. *)
Lemma AppRun_statistics_spec (activityData attendanceData : list row)
  (guardStats : list App.guard_statistics) :
  AppRun.processGuardStatistics inherited parseInt User_Name
    activityData attendanceData = Returns guardStats ->
  NoDup (stat_ids guardStats)
  /\ (forall k, In k (stat_ids guardStats) <-> active activityData k = true)
  /\ StronglySorted
       (fun a b => JS.le b.(App.punctualityRate) a.(App.punctualityRate)
                   = true)
       guardStats.
Proof.
  intros H. pose proof (AppRun_stat_ids_perm _ _ H) as Hperm.
  split; [| split].
  - apply (Permutation_NoDup (Permutation_sym Hperm)).
    apply guardStats_keys.
  - intros k. split.
    + intros Hk. apply (Permutation_in _ Hperm) in Hk.
      apply keys_get in Hk.
      destruct (active activityData k) eqn:Ea; [reflexivity |].
      elim Hk. now apply guardStats_get_None.
    + intros Ha. apply (Permutation_in _ (Permutation_sym Hperm)).
      apply keys_get. intros Hn.
      apply guardStats_get_None in Hn. congruence.
  - rewrite (processGuardStatistics_returns _ _ H).
    apply (@Array_sort_descending_double _ App.punctualityRate).
    rewrite Forall_forall. intros s Hs.
    apply in_map_iff in Hs as [g [<- Hg]].
    apply Object_values_In in Hg as [k Hg].
    destruct (@guardStats_inv parseInt User_Name activityData k g Hg)
      as [[H1 [H2 _]] _].
    cbn [AppRun.guard_result App.punctualityRate].
    destruct (@percent_double g.(App.onTimeActivities)
                (g.(App.onTimeActivities) + g.(App.lateActivities))
                ltac:(lia) ltac:(lia)) as [p [-> [_ Hr]]].
    split; [apply integer_of_Z |].
    unfold number_key, JS.of_Z. rewrite Qfloor_Z. lia.
Qed.

End AppRunGuards.

(** X17.  The [processGuardStatistics] of [App.js] throws exactly when an
    activity row has a service number that is the name of an inherited
    property.  When it returns, it returns one entry for each service
    number of the activity rows and no other, in descending order of
    punctuality rate. *)
Theorem one_statistic_per_active_guard :
  forall (inherited : string -> bool) (parseInt : string -> option Z)
         (User_Name : row -> option string)
         (activityData attendanceData : list row),
    (AppRun.processGuardStatistics inherited parseInt User_Name
       activityData attendanceData = Throws
     <-> existsb (activity_throws inherited) activityData = true)
    /\ (forall guardStats,
           AppRun.processGuardStatistics inherited parseInt User_Name
             activityData attendanceData = Returns guardStats ->
           NoDup (stat_ids guardStats)
           /\ (forall k, In k (stat_ids guardStats)
                         <-> active activityData k = true)
           /\ StronglySorted
                (fun a b =>
                   JS.le b.(App.punctualityRate) a.(App.punctualityRate)
                   = true)
                guardStats).
Proof.
  intros inherited parseInt User_Name activityData attendanceData.
  split; [apply processGuardStatistics_throws |].
  intros guardStats. apply AppRun_statistics_spec.
Qed.

(** X18.  A guard with activity rows and no attendance row: whenever the
    two guard aggregators return, the statistics of [App.js] have an entry
    for the guard and the profiles of the compliance dashboard have
    none. *)
Theorem activity_only_guard :
  forall (inherited : string -> bool) (parseInt : string -> option Z)
         (parseFloat : string -> JS.number)
         (User_Name : row -> option string)
         (activityData attendanceData : list row) (k : string)
         (guardStats : list App.guard_statistics)
         (profiles : list guard_profile),
    active activityData k = true ->
    seeded attendanceData k = false ->
    AppRun.processGuardStatistics inherited parseInt User_Name
      activityData attendanceData = Returns guardStats ->
    Run.processGuardData inherited parseInt parseFloat
      activityData attendanceData = Returns profiles ->
    In k (stat_ids guardStats) /\ ~ In k (guard_ids profiles).
Proof.
  intros inherited parseInt parseFloat User_Name activityData attendanceData
    k guardStats profiles Ha Hs HA HR.
  split.
  - now apply (proj1 (proj2 (AppRun_statistics_spec _ _ _ _ _ HA))).
  - intros Hin.
    apply (proj2 (Run_guard_ids_spec _ _ _ _ _ HR)) in Hin. congruence.
Qed.

(** *** The attendance summary and the performance metrics of [App.js] as they run *)

(** The sum of the coverage ratios of fewer than 2^53 entries stays between
    0 and their number. *)
Lemma coverage_sum_double (values : list App.location) :
  Forall (fun m => (1 <= m.(App.location_total)
                    /\ m.(App.location_covered) <= m.(App.location_total))%nat)
    values ->
  forall (s0 : Q) (K : Z),
    0 <= s0 -> s0 <= inject_Z K ->
    (K + Z.of_nat (List.length values) < 2 ^ 53)%Z ->
    exists s,
      fold_left AppRun.add_coverage values (JS.Fin s0) = JS.Fin s
      /\ 0 <= s /\ s <= inject_Z (K + Z.of_nat (List.length values)).
Proof.
  induction 1 as [| m values [Hm1 Hm2] Hvalues IH]; intros s0 K H0 HK Hlen.
  - exists s0. cbn [fold_left List.length].
    rewrite Z.add_0_r. auto.
  - cbn [fold_left]. unfold AppRun.add_coverage at 2.
    destruct (@double_div_counters m.(App.location_covered)
                m.(App.location_total) Hm2 ltac:(lia))
      as [r [-> [R0 [R1 _]]]].
    unfold Double.add. cbn [JS.add Double.rounded].
    cbn [List.length] in Hlen.
    assert (0 <= K)%Z as HK0.
    { rewrite Zle_Qle. change (inject_Z 0) with 0. lra. }
    destruct (@round_range (s0 + r) 0 (K + 1)) as [s1 [-> [S0 S1]]];
      try lia.
    { change (inject_Z 0) with 0. lra. }
    { rewrite inject_Z_plus. change (inject_Z 1) with 1. lra. }
    change (inject_Z 0) with 0 in S0.
    destruct (IH s1 (K + 1)%Z S0 S1 ltac:(lia)) as [s [E [T0 T1]]].
    exists s. split; [exact E |]. split; [exact T0 |].
    cbn [List.length].
    replace (K + Z.of_nat (S (List.length values)))%Z
      with (K + 1 + Z.of_nat (List.length values))%Z by lia.
    exact T1.
Qed.

Lemma own_posts_truthy (inherited : string -> bool) (data : list row) :
  existsb (fun r => JS.truthy (Post_Name r)) (own_posts inherited data)
  = existsb (own_post inherited) data.
Proof.
  unfold own_posts, own_post, location_throws.
  induction data as [| r data IH]; simpl; [reflexivity |].
  destruct (JS.truthy (Post_Name r)) eqn:Et; simpl.
  - destruct (inherited (text (Post_Name r))); simpl; [exact IH |].
    now rewrite Et.
  - rewrite Et. exact IH.
Qed.

Lemma set_length (V : Type) (o : Obj.t V) (k : string) (v : V) :
  (List.length (Obj.set o k v) <= S (List.length o))%nat.
Proof.
  induction o as [| [k' v'] o IH]; simpl; [lia |].
  destruct (String.eqb k' k); simpl; lia.
Qed.

Lemma coverage_length (data : list row) :
  (List.length (App.processLocationCoverage data) <= List.length data)%nat.
Proof.
  unfold App.processLocationCoverage.
  assert (forall o,
             (List.length (fold_left App.location_step data o)
              <= List.length o + List.length data)%nat) as H.
  { induction data as [| r data IH]; intros o; simpl; [lia |].
    eapply Nat.le_trans; [apply IH |].
    unfold App.location_step.
    destruct (negb (JS.truthy (Post_Name r))); [lia |].
    match goal with |- context [Obj.set o ?k ?v] =>
      pose proof (set_length o k v) end.
    lia. }
  apply (H []).
Qed.

(** The average coverage of [App.js], rounded, is between 0 and 100 when the
    coverage object has an entry and NaN when it has none. *)
Lemma avgCoverage_double (inherited : string -> bool) (data : list row)
  (a : App.attendance) :
  (Z.of_nat (List.length data) < 2 ^ 32)%Z ->
  AppRun.processAttendanceData inherited data = Returns a ->
  in_0_100 (JS.Math_round a.(App.avgCoverage))
  = existsb (own_post inherited) data
  /\ JS.isNaN (JS.Math_round a.(App.avgCoverage))
     = negb (existsb (own_post inherited) data).
Proof.
  intros Hlen H. unfold AppRun.processAttendanceData in H.
  destruct (AppRun.processLocationCoverage inherited data) as [o |] eqn:E;
    [| discriminate].
  simpl in H. injection H as <-. cbn [App.avgCoverage].
  rewrite (proj2 (processLocationCoverage_App_outcome inherited data) o E).
  set (kept := own_posts inherited data).
  set (c := App.processLocationCoverage kept).
  rewrite <- own_posts_truthy. fold kept.
  destruct (existsb (fun r => JS.truthy (Post_Name r)) kept) eqn:Ex.
  - assert (0 < List.length c)%nat as Hpos.
    { destruct c eqn:Ec; [| simpl; lia].
      apply coverage_empty in Ec. congruence. }
    assert (List.length (Obj.Object_values c) = List.length c) as Hlv.
    { rewrite (Permutation_length (Object_values_perm c)).
      apply length_map. }
    assert (List.length c <= List.length data)%nat as Hle.
    { eapply Nat.le_trans; [apply coverage_length |].
      unfold kept, own_posts. apply filter_length_le. }
    assert (Forall (fun m => (1 <= m.(App.location_total)
                              /\ m.(App.location_covered)
                                 <= m.(App.location_total))%nat)
              (Obj.Object_values c)) as Hinv.
    { rewrite Forall_forall. intros m Hm.
      apply Object_values_In in Hm as [l Hm].
      destruct (coverage_entries_count_their_post_aux kept) as [_ Hall].
      rewrite Forall_forall in Hall. specialize (Hall (l, m) Hm).
      cbn [snd] in Hall. tauto. }
    assert (2 ^ 32 < 2 ^ 53)%Z as Hpow by (vm_compute; reflexivity).
    destruct (@coverage_sum_double (Obj.Object_values c) Hinv 0 0)
      as [s [Es [S0 S1]]]; try apply Qle_refl; try lia.
    change (JS.of_Z 0) with (JS.Fin 0). rewrite Es.
    rewrite Hlv in S1. rewrite Z.add_0_l in S1.
    assert (0 < Qnat (List.length c)) as Hn by now apply Qnat_pos.
    assert (Double.div (JS.Fin s) (JS.of_nat (List.length c))
            = Double.round (s / Qnat (List.length c))) as ->.
    { unfold Double.div, JS.of_nat, JS.of_Z, JS.div.
      fold (Qnat (List.length c)).
      destruct (Qeq_bool (Qnat (List.length c)) 0) eqn:Ez; [| reflexivity].
      apply Qeq_bool_eq in Ez. rewrite Ez in Hn.
      now apply Qlt_irrefl in Hn. }
    fold (Qnat (List.length c)) in S1.
    assert (0 <= s / Qnat (List.length c)) as Q0.
    { apply Qle_shift_div_l; [assumption | lra]. }
    assert (s / Qnat (List.length c) <= inject_Z 1) as Q1.
    { apply Qle_shift_div_r; [assumption |].
      change (inject_Z 1) with 1. lra. }
    destruct (@round_small _ 1 0 Q0 Q1 ltac:(lia) ltac:(lia))
      as [r [-> [R0 [R1 _]]]].
    change (inject_Z 1) with 1 in R1.
    destruct (@double_mul_const r 100 6 R0 R1 ltac:(lia) ltac:(lia))
      as [r' [-> [T0 [T1 _]]]].
    cbn [JS.Math_round]. split; [| reflexivity].
    apply in_0_100_of_Z.
    apply (@spec_round_bounds r' 0 100); assumption.
  - assert (c = []) as -> by now apply coverage_empty.
    split; reflexivity.
Qed.

Lemma percent_defined (a b : nat) :
  (a <= b)%nat ->
  in_0_100 (Run.percent a b) = (0 <? b)%nat
  /\ JS.isNaN (Run.percent a b) = (b =? 0)%nat.
Proof.
  intros Hab. destruct b as [| b].
  - assert (a = 0%nat) as -> by lia. split; reflexivity.
  - destruct (@percent_double a (S b) Hab ltac:(lia)) as [p [E [_ Hr]]].
    rewrite E. split; [now apply in_0_100_of_Z | reflexivity].
Qed.

Lemma onTime_rate_NaN (onTime totalShifts : nat) :
  (onTime <= totalShifts)%nat ->
  JS.isNaN (onTime_rate onTime totalShifts) = (totalShifts =? 0)%nat.
Proof.
  intros Hle. unfold onTime_rate. destruct totalShifts as [| n].
  - assert (onTime = 0%nat) as -> by lia. reflexivity.
  - rewrite percent_value by lia. reflexivity.
Qed.

(** X13.  In the attendance summary of the loaded state the on-time and the
    late shifts add up to the total, a row without the lateness cell
    counting as late; the tile "On-Time Rate" computed from it is a number
    between 0 and 100 exactly when the date has an attendance row, and is
    [NaN] exactly when it has none, over exact numbers and in doubles
    alike. *)
Theorem attendance_summary_adds_up :
  forall (Date_getHours parseInt : string -> option Z)
         (parseFloat : string -> JS.number)
         (Login_Date : row -> option string) (selectedDate : string)
         (activityResults attendanceResults : list row),
    let s :=
      (loadData Date_getHours parseInt parseFloat Login_Date
         selectedDate activityResults attendanceResults)
      .(state_attendanceData) in
    (s.(summary_onTime) + s.(summary_late) = s.(summary_totalShifts))%nat
    /\ in_0_100 (onTime_rate s.(summary_onTime) s.(summary_totalShifts))
       = (0 <? s.(summary_totalShifts))%nat
    /\ JS.isNaN (onTime_rate s.(summary_onTime) s.(summary_totalShifts))
       = (s.(summary_totalShifts) =? 0)%nat
    /\ in_0_100 (Run.percent s.(summary_onTime) s.(summary_totalShifts))
       = (0 <? s.(summary_totalShifts))%nat
    /\ JS.isNaN (Run.percent s.(summary_onTime) s.(summary_totalShifts))
       = (s.(summary_totalShifts) =? 0)%nat.
Proof.
  intros Date_getHours parseInt parseFloat Login_Date selectedDate
    activityResults attendanceResults s.
  unfold s, loadData;
    cbn [state_attendanceData summary_onTime summary_late
           summary_totalShifts].
  split; [apply filter_partition_length |].
  split; [apply onTime_rate_range, filter_length_le |].
  split; [apply onTime_rate_NaN, filter_length_le |].
  apply percent_defined, filter_length_le.
Qed.

(** X19.  The [processAttendanceData] of [App.js] throws exactly when its
    [processLocationCoverage] does.  When it returns: late is not negative
    and onTime and late add up to the total; the on-time percentage is
    from 0 to 100 when there are shifts and [NaN] when there are none; the
    coverage score is from 0 to 100 when some row has a post name that is
    not the name of an inherited property, and [NaN] otherwise. *)
Theorem attendance_of_App_in_range :
  forall (inherited : string -> bool) (data activityData : list row)
         (guardStats : list App.guard_statistics),
    (Z.of_nat (List.length data) < 2 ^ 32)%Z ->
    (AppRun.processAttendanceData inherited data = Throws
     <-> existsb (coverage_throws inherited) data = true)
    /\ (forall a,
           AppRun.processAttendanceData inherited data = Returns a ->
           (0 <= a.(App.attendance_late))%Z
           /\ (Z.of_nat a.(App.attendance_onTime) + a.(App.attendance_late)
               = Z.of_nat a.(App.totalShifts))%Z
           /\ in_0_100
                (Run.percent a.(App.attendance_onTime) a.(App.totalShifts))
              = (0 <? a.(App.totalShifts))%nat
           /\ JS.isNaN
                (Run.percent a.(App.attendance_onTime) a.(App.totalShifts))
              = (a.(App.totalShifts) =? 0)%nat
           /\ in_0_100
                (AppRun.calculatePerformanceMetrics activityData a guardStats)
                .(App.coverageScore)
              = existsb (own_post inherited) data
           /\ JS.isNaN
                (AppRun.calculatePerformanceMetrics activityData a guardStats)
                .(App.coverageScore)
              = negb (existsb (own_post inherited) data)).
Proof.
  intros inherited data activityData guardStats Hlen. split.
  - rewrite <- (proj1 (processLocationCoverage_App_outcome inherited data)).
    unfold AppRun.processAttendanceData.
    destruct (AppRun.processLocationCoverage inherited data); simpl;
      split; congruence.
  - intros a Ha.
    destruct (avgCoverage_double inherited data Hlen Ha) as [C1 C2].
    cbn [AppRun.calculatePerformanceMetrics App.coverageScore].
    unfold AppRun.processAttendanceData in Ha.
    destruct (AppRun.processLocationCoverage inherited data) as [o |];
      [| discriminate].
    simpl in Ha. injection Ha as <-.
    cbn [App.attendance_late App.attendance_onTime App.totalShifts
           App.avgCoverage] in *.
    pose proof (filter_length_le
                  (fun d => JS.str_is (Late_Hours d) "On-time") data) as Hle.
    destruct (percent_defined Hle) as [P1 P2].
    repeat split; try assumption; lia.
Qed.

Lemma nonneg_round (q : Q) : 0 <= q -> nonneg (Double.round q).
Proof.
  intros H.
  destruct (@round_lower q 0 ltac:(lia) H) as [-> | [r [-> Hr]]];
    [now left | right; eauto].
Qed.

Lemma nonneg_add (x y : JS.number) :
  nonneg x -> nonneg y -> nonneg (Double.add x y).
Proof.
  intros [-> | [a [-> Ha]]] [-> | [b [-> Hb]]]; unfold Double.add;
    cbn [JS.add Double.rounded]; try (now left).
  apply nonneg_round. lra.
Qed.

Lemma nonneg_div_nat (x : JS.number) (n : nat) :
  nonneg x -> (0 < n)%nat -> nonneg (Double.div x (JS.of_nat n)).
Proof.
  intros Hx Hn. pose proof (Qnat_pos Hn) as Hp. unfold Qnat in Hp.
  destruct Hx as [-> | [a [-> Ha]]]; unfold Double.div, JS.of_nat, JS.of_Z;
    cbn [JS.div].
  - unfold JS.Qsign.
    rewrite (proj1 (Qgt_alt (inject_Z (Z.of_nat n)) 0) Hp). now left.
  - destruct (Qeq_bool (inject_Z (Z.of_nat n)) 0) eqn:Ez.
    + apply Qeq_bool_eq in Ez. rewrite Ez in Hp.
      now apply Qlt_irrefl in Hp.
    + cbn [Double.rounded]. apply nonneg_round.
      apply Qle_shift_div_l; [assumption | lra].
Qed.

Lemma nonneg_Math_round (x : JS.number) : nonneg x -> nonneg (JS.Math_round x).
Proof.
  intros [-> | [a [-> Ha]]]; [now left |].
  right. cbn [JS.Math_round]. unfold JS.of_Z. eexists. split; [reflexivity |].
  change 0 with (inject_Z 0). rewrite <- Zle_Qle.
  apply Qfloor_resp_le with (x := 0) in Ha.
  assert (0 <= Qfloor a)%Z as Hf by exact Ha.
  assert (Qfloor a <= Qfloor (a + (1 # 2)))%Z by (apply Qfloor_resp_le; lra).
  lia.
Qed.

Lemma nonneg_not_NaN (x : JS.number) : nonneg x -> JS.isNaN x = false.
Proof. now intros [-> | [a [-> _]]]. Qed.

Lemma nonneg_sum (l : list JS.number) :
  Forall nonneg l -> forall acc, nonneg acc ->
  nonneg (fold_left Double.add l acc).
Proof.
  induction 1 as [| x l Hx Hl IH]; intros acc Hacc; simpl; [assumption |].
  apply IH. now apply nonneg_add.
Qed.

Section AppRunAccuracy.
Variable inherited : string -> bool.
Variable parseInt : string -> option Z.
Variable User_Name : row -> option string.

(** With accuracies that are not negative, every entry of [guardStats]
    holds non-negative integers only. *)
Lemma guardStats_accuracies (activityData : list row) :
  forallb (accuracy_nonneg parseInt) activityData = true ->
  forall k g,
    In (k, g) (App.guardStats_of parseInt User_Name activityData) ->
    Forall (fun z => (0 <= z)%Z) g.(App.locationAccuracy).
Proof.
  unfold App.guardStats_of. intros Hall.
  assert (forall l o,
             forallb (accuracy_nonneg parseInt) l = true ->
             (forall k g, In (k, g) o ->
                          Forall (fun z => (0 <= z)%Z)
                            g.(App.locationAccuracy)) ->
             forall k g,
               In (k, g) (fold_left (App.guard_step parseInt User_Name) l o)
               -> Forall (fun z => (0 <= z)%Z) g.(App.locationAccuracy))
    as H.
  { induction l as [| r l IH]; intros o Hl Ho; simpl; [exact Ho |].
    simpl in Hl. apply andb_prop in Hl as [Hr Hl].
    apply IH; [assumption |].
    intros k g Hin. unfold App.guard_step in Hin.
    destruct (negb (JS.truthy (Service_Number r))); [eauto |].
    apply In_set in Hin as [[_ ->] | Hin]; [| eauto].
    assert (Forall (fun z => (0 <= z)%Z)
              (match Obj.get o (text (Service_Number r)) with
               | Some g0 => g0
               | None => App.new_guard User_Name (text (Service_Number r)) r
               end).(App.locationAccuracy)) as Hold.
    { destruct (Obj.get o (text (Service_Number r))) as [g0 |] eqn:Eg.
      - apply get_In in Eg. eauto.
      - constructor. }
    unfold App.guard_activity. cbn [App.locationAccuracy].
    unfold accuracy_nonneg in Hr.
    destruct (JS.truthy (Location_Accuracy r)); [| exact Hold].
    destruct (parseInt (text (Location_Accuracy r))) as [z |];
      [| exact Hold].
    simpl in Hr. apply Z.leb_le in Hr.
    apply Forall_app. split; [exact Hold | now repeat constructor]. }
  apply H; [assumption |]. intros k g [].
Qed.

Lemma avgLocationAccuracy_nonneg (g : App.guard) :
  Forall (fun z => (0 <= z)%Z) g.(App.locationAccuracy) ->
  nonneg (AppRun.guard_result g).(App.avgLocationAccuracy).
Proof.
  intros H. cbn [AppRun.guard_result App.avgLocationAccuracy].
  destruct g.(App.locationAccuracy) as [| z zs] eqn:E.
  - right. exists 0. split; [reflexivity | lra].
  - apply nonneg_Math_round. apply nonneg_div_nat; [| simpl; lia].
    apply nonneg_sum.
    + apply Forall_map. eapply Forall_impl; [| exact H].
      intros a Ha. unfold Double.Number. apply nonneg_round.
      change 0 with (inject_Z 0). now rewrite <- Zle_Qle.
    + right. exists 0. split; [reflexivity | lra].
Qed.

Lemma AppRun_statistics_nil (activityData attendanceData : list row)
  (guardStats : list App.guard_statistics) :
  AppRun.processGuardStatistics inherited parseInt User_Name
    activityData attendanceData = Returns guardStats ->
  guardStats = []
  <-> existsb (fun r => JS.truthy (Service_Number r)) activityData = false.
Proof.
  intros H.
  destruct (AppRun_statistics_spec _ _ _ _ _ H) as [_ [Hin _]].
  split.
  - intros ->.
    match goal with |- ?e = false => destruct e eqn:E; [| reflexivity] end.
    apply existsb_exists in E as [r [Hr Ht]].
    assert (active activityData (text (Service_Number r)) = true) as Ha.
    { apply existsb_exists. exists r. split; [assumption |].
      unfold for_guard. now rewrite Ht, String.eqb_refl. }
    apply Hin in Ha. contradiction.
  - intros Hno. destruct guardStats as [| s rest]; [reflexivity |].
    assert (active activityData s.(App.stat_guard).(App.guard_id) = true)
      as Ha by (apply Hin; now left).
    apply existsb_exists in Ha as [r [Hr Hf]].
    assert (existsb (fun r => JS.truthy (Service_Number r)) activityData
            = true) as Hex.
    { apply existsb_exists. exists r. split; [assumption |].
      unfold for_guard in Hf. now destruct (JS.truthy (Service_Number r)). }
    congruence.
Qed.

End AppRunAccuracy.

(** X21.  When [processGuardStatistics] returns: the overall accuracy is
    [NaN] if no activity row has a service number; it is not [NaN] if some
    row has one and no location accuracy reads as a negative integer (an
    accuracy beyond the range of the doubles reads as an infinity, and
    infinities of both signs add up to [NaN]). *)
Theorem overallAccuracy_defined_iff_active :
  forall (inherited : string -> bool) (parseInt : string -> option Z)
         (User_Name : row -> option string)
         (activityData attendanceData : list row)
         (attendanceSummary : App.attendance)
         (guardStats : list App.guard_statistics),
    AppRun.processGuardStatistics inherited parseInt User_Name
      activityData attendanceData = Returns guardStats ->
    let m :=
      AppRun.calculatePerformanceMetrics activityData attendanceSummary
        guardStats in
    (existsb (fun r => JS.truthy (Service_Number r)) activityData = false ->
     JS.isNaN m.(App.overallAccuracy) = true)
    /\ (existsb (fun r => JS.truthy (Service_Number r)) activityData = true ->
        forallb (accuracy_nonneg parseInt) activityData = true ->
        JS.isNaN m.(App.overallAccuracy) = false).
Proof.
  intros inherited parseInt User_Name activityData attendanceData
    attendanceSummary guardStats H. cbv zeta.
  pose proof (AppRun_statistics_nil _ _ _ _ _ H) as Hnil.
  cbn [AppRun.calculatePerformanceMetrics App.overallAccuracy].
  split.
  - intros Hno. apply Hnil in Hno. subst guardStats. reflexivity.
  - intros Hyes Hacc.
    apply nonneg_not_NaN, nonneg_Math_round, nonneg_div_nat.
    + apply nonneg_sum; [| right; exists 0; split; [reflexivity | lra]].
      apply Forall_map. rewrite Forall_forall. intros s Hs.
      rewrite (processGuardStatistics_returns _ _ _ _ _ H) in Hs.
      apply Array_sort_In in Hs. apply in_map_iff in Hs as [g [<- Hg]].
      apply Object_values_In in Hg as [k Hg].
      apply avgLocationAccuracy_nonneg.
      exact (guardStats_accuracies parseInt User_Name activityData Hacc
               k g Hg).
    + rewrite length_map. destruct guardStats; [| simpl; lia].
      destruct Hnil as [Hnil _]. rewrite (Hnil eq_refl) in Hyes.
      discriminate.
Qed.

(** *** The properties at concrete rows *)

Lemma one_profile_per_seeded_guard_witness :
  Run.processGuardData Host.inherited Host.parseInt Host.parseFloat
    [] G1_rows = Returns [G1_profile]
  /\ NoDup (guard_ids [G1_profile])
  /\ (In "G1"%string (guard_ids [G1_profile])
      <-> seeded G1_rows "G1" = true)
  /\ existsb (activity_throws Host.inherited) G2_activity = false
  /\ Run.processGuardData Host.inherited Host.parseInt Host.parseFloat
       G2_activity [] = Returns [].
Proof.
  assert (Run.processGuardData Host.inherited Host.parseInt Host.parseFloat
            [] G1_rows = Returns [G1_profile]) as H
      by (vm_compute; reflexivity).
  pose proof (one_profile_per_seeded_guard Host.inherited Host.parseInt
                Host.parseFloat [] G1_rows) as [_ [T2 _]].
  pose proof (one_profile_per_seeded_guard Host.inherited Host.parseInt
                Host.parseFloat G2_activity G1_rows) as [_ [_ T3]].
  destruct (T2 _ H) as [N I].
  split; [exact H |]. split; [exact N |]. split; [apply I |].
  split; [reflexivity |]. apply T3. reflexivity.
Defined.

Lemma one_profile_per_post_witness :
  exists locations,
    Run.processLocationCoverage Host.inherited Host.parseFloat Gate_A_rows
    = Returns locations
    /\ NoDup (post_names locations)
    /\ (In "Gate A"%string (post_names locations)
        <-> posted Gate_A_rows "Gate A" = true).
Proof.
  destruct (Run.processLocationCoverage Host.inherited Host.parseFloat
              Gate_A_rows) as [locations |] eqn:E;
    [| vm_compute in E; discriminate].
  exists locations. split; [reflexivity |].
  destruct (proj2 (one_profile_per_post Host.inherited Host.parseFloat
                     Gate_A_rows) locations E) as [N I].
  split; [exact N | apply I].
Defined.


Lemma coverage_entries_count_their_post_witness :
  exists locationCoverage,
    AppRun.processLocationCoverage Host.inherited Gate_A_rows
    = Returns locationCoverage
    /\ NoDup (map fst locationCoverage)
    /\ (In "Gate A"%string (map fst locationCoverage)
        <-> posted Gate_A_rows "Gate A" = true
            /\ Host.inherited "Gate A" = false).
Proof.
  destruct (AppRun.processLocationCoverage Host.inherited Gate_A_rows)
    as [o |] eqn:E; [| vm_compute in E; discriminate].
  exists o. split; [reflexivity |].
  destruct (proj2 (coverage_entries_count_their_post Host.inherited
                     Gate_A_rows) o E) as [N [I _]].
  split; [exact N | apply I].
Defined.

Lemma one_statistic_per_active_guard_witness :
  exists guardStats,
    AppRun.processGuardStatistics Host.inherited Host.parseInt
      (fun _ => None) alert_rows [] = Returns guardStats
    /\ NoDup (stat_ids guardStats)
    /\ (In "G2"%string (stat_ids guardStats)
        <-> active alert_rows "G2" = true).
Proof.
  destruct (AppRun.processGuardStatistics Host.inherited Host.parseInt
              (fun _ => None) alert_rows []) as [stats |] eqn:E;
    [| vm_compute in E; discriminate].
  exists stats. split; [reflexivity |].
  destruct (proj2 (one_statistic_per_active_guard Host.inherited
                     Host.parseInt (fun _ => None) alert_rows [])
              stats E) as [N [I _]].
  split; [exact N | apply I].
Defined.

Lemma activity_only_guard_witness :
  exists guardStats profiles,
    active G2_activity "G2" = true
    /\ seeded G1_rows "G2" = false
    /\ AppRun.processGuardStatistics Host.inherited Host.parseInt
         (fun _ => None) G2_activity G1_rows = Returns guardStats
    /\ Run.processGuardData Host.inherited Host.parseInt Host.parseFloat
         G2_activity G1_rows = Returns profiles
    /\ In "G2"%string (stat_ids guardStats)
    /\ ~ In "G2"%string (guard_ids profiles).
Proof.
  destruct (AppRun.processGuardStatistics Host.inherited Host.parseInt
              (fun _ => None) G2_activity G1_rows) as [stats |] eqn:EA;
    [| vm_compute in EA; discriminate].
  destruct (Run.processGuardData Host.inherited Host.parseInt
              Host.parseFloat G2_activity G1_rows) as [profiles |] eqn:ER;
    [| vm_compute in ER; discriminate].
  exists stats, profiles.
  split; [reflexivity |]. split; [reflexivity |].
  split; [reflexivity |]. split; [reflexivity |].
  exact (@activity_only_guard Host.inherited Host.parseInt Host.parseFloat
           (fun _ => None) G2_activity G1_rows "G2" stats profiles
           eq_refl eq_refl EA ER).
Defined.

Lemma attendance_of_App_in_range_witness :
  (Z.of_nat (List.length Gate_A_rows) < 2 ^ 32)%Z
  /\ exists a,
       AppRun.processAttendanceData Host.inherited Gate_A_rows = Returns a
       /\ in_0_100
            (AppRun.calculatePerformanceMetrics [] a []).(App.coverageScore)
          = existsb (own_post Host.inherited) Gate_A_rows
       /\ existsb (own_post Host.inherited) Gate_A_rows = true.
Proof.
  assert (Z.of_nat (List.length Gate_A_rows) < 2 ^ 32)%Z as Hlen
      by (vm_compute; reflexivity).
  split; [exact Hlen |].
  destruct (AppRun.processAttendanceData Host.inherited Gate_A_rows)
    as [a |] eqn:E; [| vm_compute in E; discriminate].
  exists a. split; [reflexivity |]. split; [| reflexivity].
  destruct (proj2 (@attendance_of_App_in_range Host.inherited Gate_A_rows
                     [] [] Hlen) a E) as [_ [_ [_ [_ [C _]]]]].
  exact C.
Defined.

Lemma overallAccuracy_defined_iff_active_witness :
  exists guardStats,
    AppRun.processGuardStatistics Host.inherited Host.parseInt
      (fun _ => None) G2_activity [] = Returns guardStats
    /\ existsb (fun r => JS.truthy (Service_Number r)) G2_activity = true
    /\ forallb (accuracy_nonneg Host.parseInt) G2_activity = true
    /\ JS.isNaN
         (AppRun.calculatePerformanceMetrics G2_activity
            (App.processAttendanceData []) guardStats).(App.overallAccuracy)
       = false.
Proof.
  destruct (AppRun.processGuardStatistics Host.inherited Host.parseInt
              (fun _ => None) G2_activity []) as [stats |] eqn:E;
    [| vm_compute in E; discriminate].
  exists stats. split; [reflexivity |].
  split; [reflexivity |]. split; [reflexivity |].
  exact (proj2 (@overallAccuracy_defined_iff_active Host.inherited
                  Host.parseInt (fun _ => None) G2_activity []
                  (App.processAttendanceData []) stats E)
           eq_refl eq_refl).
Defined.
